(** * html-webpack-inline-image: the rewrite pipeline of [src/index.js]

    A shallow embedding of the plugin class [HtmlWebpackInlineSVGPlugin]:
    JavaScript strings are [string]s of code units, the parse5 tree is an
    inductive type, promises are their eventual state, and the fields of
    [this] together with the shared [svgoDefaultConfig] object, the console
    and the file-system calls are one explicit state record that every
    method threads through. *)

From Stdlib Require Import String Ascii List ZArith Bool Arith Lia DecimalString.
Import ListNotations.
Open Scope string_scope.
Open Scope list_scope.
Set Warnings "-register-all".

Infix "+++" := String.append (at level 60, right associativity).

(** ** JavaScript strings *)

Module Js.

(** [s.indexOf(sub)]: the position of the first occurrence, [-1] without one. *)
Definition indexOf (s sub : string) : Z :=
  match String.index 0 sub s with
  | Some i => Z.of_nat i
  | None => (-1)%Z
  end.

(** The bitwise complement [~x] of the source's [~s.indexOf(sub)] idiom. *)
Definition bitnot (x : Z) : Z := Z.lnot x.

(** A number used as a condition: every number but zero is truthy. *)
Definition truthy (x : Z) : bool := negb (Z.eqb x 0).

(** A string used as a condition: every string but the empty one is truthy. *)
Definition nonEmpty (s : string) : bool :=
  match s with
  | EmptyString => false
  | String _ _ => true
  end.

(** [s.substring(a, b)]: both indices are clamped to the length and swapped
    when they come in the wrong order. *)
Definition substring (s : string) (a b : nat) : string :=
  let len := String.length s in
  let a' := Nat.min a len in
  let b' := Nat.min b len in
  String.substring (Nat.min a' b') (Nat.max a' b' - Nat.min a' b') s.

(** [s.substring(a)]: the end index defaults to the length. *)
Definition substringFrom (s : string) (a : nat) : string :=
  substring s a (String.length s).

(** [s.split(sep)] for a one-character separator; the result is never empty. *)
Fixpoint split (sep : ascii) (s : string) : list string :=
  match s with
  | EmptyString => [EmptyString]
  | String c s' =>
      if Ascii.eqb c sep then EmptyString :: split sep s'
      else match split sep s' with
           | h :: t => String c h :: t
           | [] => [String c EmptyString]
           end
  end.

(** The double quote character of the template literals. *)
Definition quot : string := String (ascii_of_nat 34) EmptyString.

End Js.

(** ** JavaScript objects used as ordered maps

    The svgo configuration objects map plugin names to option values.  The
    own keys of an object enumerate with the array indices first, in
    ascending numeric order, and the other keys after them in the order in
    which they were added; an object is the association list of its
    properties in that order, without repeated keys. *)

Inductive JsValue : Type :=
  | JsUndefined
  | JsBool (b : bool)
  | JsNumber (n : Z)
  | JsString (s : string)
  | JsObject (fields : list (string * JsValue)).

Definition JsObj : Type := list (string * JsValue).

Definition keys (o : JsObj) : list string := map fst o.

(** [o[k]]: [None] stands for a property that is not there. *)
Fixpoint get (o : JsObj) (k : string) : option JsValue :=
  match o with
  | [] => None
  | (k', v) :: o' => if String.eqb k' k then Some v else get o' k
  end.

(** A key that is an array index: the canonical decimal numeral of a
    number below 2^32 - 1. *)
Definition array_index (k : string) : option N :=
  match NilEmpty.uint_of_string k with
  | Some u =>
      let n := N.of_uint u in
      if String.eqb (NilEmpty.string_of_uint (N.to_uint n)) k
         && (n <? 4294967295)%N
      then Some n else None
  | None => None
  end.

(** [o[k] = v] on a key the object has: the property keeps its place. *)
Fixpoint overwrite (o : JsObj) (k : string) (v : JsValue) : JsObj :=
  match o with
  | [] => []
  | (k', v') :: o' =>
      if String.eqb k' k then (k', v) :: o' else (k', v') :: overwrite o' k v
  end.

(** A new array index [k], of number [n], goes after the smaller indices
    and before everything else. *)
Fixpoint insert_index (o : JsObj) (n : N) (k : string) (v : JsValue) : JsObj :=
  match o with
  | [] => [(k, v)]
  | (k', v') :: o' =>
      match array_index k' with
      | Some n' =>
          if (n' <? n)%N then (k', v') :: insert_index o' n k v
          else (k, v) :: o
      | None => (k, v) :: o
      end
  end.

(** [o[k] = v]: an existing key keeps its position; a new one goes among
    the array indices when it is one, and last when it is not. *)
Definition set (o : JsObj) (k : string) (v : JsValue) : JsObj :=
  if existsb (String.eqb k) (keys o) then overwrite o k v
  else match array_index k with
       | Some n => insert_index o n k v
       | None => o ++ [(k, v)]
       end.

(** [Object.assign(target, source)]: every own property of [source], in
    order, is assigned on [target]; the result is the mutated [target]. *)
Definition Object_assign (target source : JsObj) : JsObj :=
  fold_left (fun t kv => set t (fst kv) (snd kv)) source target.

(** lodash's [isLength(value)]: a number that is an integer from 0 to
    [Number.MAX_SAFE_INTEGER]. *)
Definition isLength (v : JsValue) : option nat :=
  match v with
  | JsNumber n =>
      if (0 <=? n)%Z && (n <=? 9007199254740991)%Z then Some (Z.to_nat n)
      else None
  | _ => None
  end.

(** lodash's [isArrayLike(o)] on an object: it has a [length] that
    [isLength] accepts; the result is that length. *)
Definition isArrayLike (o : JsObj) : option nat :=
  match get o "length" with
  | Some v => isLength v
  | None => None
  end.

(** The property name of the number [i]. *)
Definition index_key (i : nat) : string :=
  NilEmpty.string_of_uint (Nat.to_uint i).

(** [_.map(configObj, (value, key) => ({ [key]: value }))]: one single-key
    object per property, in enumeration order; but lodash walks an
    array-like object by index, from 0 to its length, whatever its keys
    are, and a missing index reads as [undefined]. *)
Definition lodash_map_entries (configObj : JsObj) : list JsObj :=
  match isArrayLike configObj with
  | Some len =>
      map (fun i => [(index_key i, match get configObj (index_key i) with
                                   | Some v => v
                                   | None => JsUndefined
                                   end)])
          (seq 0 len)
  | None => map (fun kv => [(fst kv, snd kv)]) configObj
  end.

(** ** The parse5 tree *)

Record Attr : Type := mkAttr { name : string; value : string }.

(** [node.__location]: the span of the node in the buffer it was parsed from. *)
Record Location : Type := mkLocation { startOffset : nat; endOffset : nat }.

(** An element, text node or the fragment root.  Text nodes have no
    attributes and no children.  parse5 reports a location for the nodes it
    read from the text; an element the parser put in by itself (the [tbody]
    of a table written without one) has none, and neither has the root. *)
Inductive Node : Type :=
  mkNode {
    nodeName : string;
    attrs : list Attr;
    childNodes : list Node;
    location : option Location
  }.

(** The nodes below [n] in depth-first pre-order (document order). *)
Fixpoint descendants (n : Node) : list Node :=
  flat_map (fun c => c :: descendants c) (childNodes n).

(** ** The outside world

    The libraries and the file system behind the plugin, as the functions the
    methods call.  A call that can throw (or pass an error to its callback)
    returns a [Try]. *)

Definition Error : Type := string.

Inductive Try (A : Type) : Type :=
  | Ok (a : A)
  | Throw (e : Error).
Arguments Ok {A} a.
Arguments Throw {A} e.

Record World : Type := mkWorld {
  (** [parse5.parseFragment(html, { locationInfo: true })] on a string *)
  parseFragment : string -> Node;
  (** [path.resolve(...)] on string arguments *)
  path_resolve : list string -> string;
  (** [fs.existsSync(path)] on the disk the build starts from *)
  existsSync : string -> bool;
  (** [fs.statSync(path).size] *)
  statSync_size : string -> Try N;
  (** [fs.readFile(path, 'utf8', callback)]: the data or the error *)
  readFile : string -> Try string;
  (** [fs.readFileSync(path)] *)
  readFileSync : string -> Try string;
  (** [new Buffer(image).toString('base64')] *)
  toBase64 : string -> string;
  (** [mimeType.lookup(path)]: [None] stands for [false] *)
  mime_lookup : string -> option string;
  (** [new SVGO({ plugins }).optimize(data)]: [result.data] or the rejection's
      message; [data] is [undefined] after a failed read *)
  svgo_optimize : list JsObj -> option string -> Try string;
  (** [fs.writeFile(path, html, callback)]: the error passed to the callback *)
  writeFile : string -> string -> option Error;
  (** [path.join(pathtmp, dirname)] *)
  path_join : string -> string -> string;
  (** [fs.mkdirSync(path)]: the error it throws, if any *)
  mkdirSync : string -> option Error
}.

(** ** Promises

    A promise is modelled by how it ends: fulfilled with a value, rejected
    with an error, or never settled (neither [resolve] nor [reject] is ever
    called). *)

Inductive Promise (A : Type) : Type :=
  | Fulfilled (v : A)
  | Rejected (e : Error)
  | Pending.
Arguments Fulfilled {A} v.
Arguments Rejected {A} e.
Arguments Pending {A}.

(** ** The state the methods share *)

(** A call that changes the disk. *)
Inductive FsCall : Type :=
  | MkdirSync (path : string)
  | Pipe (from to : string)
  | WriteFile (file data : string).

Record File : Type := mkFile { filename : string; originalHtml : string }.

(** The fields of [this], the module-level [svgoDefaultConfig] object that
    every instance and every call shares, the lines printed by
    [console.log], and the calls made on the disk so far.  [userConfig]
    starts as the empty string, which has no own property and behaves as the
    empty object wherever it is read. *)
Record State : Type := mkState {
  runPreEmit : bool;
  basePath : option string;
  userConfig : JsObj;
  outputPath : string;
  files : list File;
  processedImages : list nat;
  imageLimit : N;
  svgoDefaultConfig : JsObj;
  console : list string;
  disk : list FsCall
}.

(** The fields of the [options] argument of the constructor. *)
Record Options : Type := mkOptions {
  opt_runPreEmit : bool;
  opt_basePath : option string;
  opt_imageLimit : option N
}.

(** [new HtmlWebpackInlineSVGPlugin(options)], in a process whose shared
    default config, console and disk history are those of [svgoConfig],
    [out] and [calls].  [options.imageLimit || 5148]: a missing limit and a
    limit of zero both give 5148. *)
Definition constructor (options : Options) (svgoConfig : JsObj)
    (out : list string) (calls : list FsCall) : State :=
  {| runPreEmit := opt_runPreEmit options;
     basePath := opt_basePath options;
     userConfig := [];
     outputPath := EmptyString;
     files := [];
     processedImages := [];
     imageLimit := match opt_imageLimit options with
                   | Some (Npos n) => Npos n
                   | _ => 5148%N
                   end;
     svgoDefaultConfig := svgoConfig;
     console := out;
     disk := calls |}.

Definition set_userConfig (st : State) (c : JsObj) : State :=
  {| runPreEmit := runPreEmit st; basePath := basePath st; userConfig := c;
     outputPath := outputPath st; files := files st;
     processedImages := processedImages st; imageLimit := imageLimit st;
     svgoDefaultConfig := svgoDefaultConfig st; console := console st;
     disk := disk st |}.

Definition set_outputPath (st : State) (p : string) : State :=
  {| runPreEmit := runPreEmit st; basePath := basePath st;
     userConfig := userConfig st; outputPath := p; files := files st;
     processedImages := processedImages st; imageLimit := imageLimit st;
     svgoDefaultConfig := svgoDefaultConfig st; console := console st;
     disk := disk st |}.

(** [this.files.push(f)] *)
Definition push_files (st : State) (f : File) : State :=
  {| runPreEmit := runPreEmit st; basePath := basePath st;
     userConfig := userConfig st; outputPath := outputPath st;
     files := files st ++ [f];
     processedImages := processedImages st; imageLimit := imageLimit st;
     svgoDefaultConfig := svgoDefaultConfig st; console := console st;
     disk := disk st |}.

(** [this.processedImages.push(offset)] *)
Definition push_processedImages (st : State) (offset : nat) : State :=
  {| runPreEmit := runPreEmit st; basePath := basePath st;
     userConfig := userConfig st; outputPath := outputPath st;
     files := files st;
     processedImages := processedImages st ++ [offset];
     imageLimit := imageLimit st;
     svgoDefaultConfig := svgoDefaultConfig st; console := console st;
     disk := disk st |}.

(** The assignment that [Object.assign] makes on the shared default config. *)
Definition set_svgoDefaultConfig (st : State) (c : JsObj) : State :=
  {| runPreEmit := runPreEmit st; basePath := basePath st;
     userConfig := userConfig st; outputPath := outputPath st;
     files := files st; processedImages := processedImages st;
     imageLimit := imageLimit st; svgoDefaultConfig := c;
     console := console st; disk := disk st |}.

(** [console.log(line)] *)
Definition console_log (st : State) (line : string) : State :=
  {| runPreEmit := runPreEmit st; basePath := basePath st;
     userConfig := userConfig st; outputPath := outputPath st;
     files := files st; processedImages := processedImages st;
     imageLimit := imageLimit st; svgoDefaultConfig := svgoDefaultConfig st;
     console := console st ++ [line]; disk := disk st |}.

Definition fs_call (st : State) (c : FsCall) : State :=
  {| runPreEmit := runPreEmit st; basePath := basePath st;
     userConfig := userConfig st; outputPath := outputPath st;
     files := files st; processedImages := processedImages st;
     imageLimit := imageLimit st; svgoDefaultConfig := svgoDefaultConfig st;
     console := console st; disk := disk st ++ [c] |}.

(** [fs.existsSync(p)] while the plugin runs: what the disk held at the
    start, and the directories [fs.mkdirSync] has made since. *)
Definition fs_existsSync (w : World) (st : State) (p : string) : bool :=
  existsSync w p
  || existsb (fun c => match c with
                       | MkdirSync d => String.eqb d p
                       | _ => false
                       end) (disk st).

(** ** The asset classifier *)

(** [array.includes(x)] on an array of offsets *)
Definition includes (l : list nat) (x : nat) : bool := existsb (Nat.eqb x) l.

(** [~s.indexOf(sub)] as a condition *)
Definition has (s sub : string) : bool := Js.truthy (Js.bitnot (Js.indexOf s sub)).

(** [getImagesSrc(inlineImage)]: the value of the [src] attribute that
    [_.find(attrs, { name: 'src' })] returns, or the empty string when there
    is none or it names no svg, jpg or png. *)
Definition getImagesSrc (inlineImage : Node) : string :=
  match find (fun a => String.eqb (name a) "src") (attrs inlineImage) with
  | None => EmptyString
  | Some svgSrcObject =>
      let svgSrc := value svgSrcObject in
      if Js.nonEmpty svgSrc
         && (has svgSrc ".svg" || has svgSrc ".jpg" || has svgSrc ".png")
      then svgSrc else EmptyString
  end.

(** What reading [node.__location.startOffset] throws on a node without
    location. *)
Definition location_TypeError : Error :=
  "TypeError: Cannot read property 'startOffset' of undefined".

(** [isNodeValidInlineImage(node)]; [undefined] reads as [false].  The
    location is read before anything else is tested. *)
Definition isNodeValidInlineImage (w : World) (st : State) (node : Node)
    : Try bool :=
  let imageSrc := getImagesSrc node in
  match location node with
  | None => Throw location_TypeError
  | Some loc =>
      if includes (processedImages st) (startOffset loc) then Ok false
      else Ok (String.eqb (nodeName node) "img"
               && fs_existsSync w st (path_resolve w ["src"; imageSrc])
               && (has imageSrc ".svg" || has imageSrc ".png" || has imageSrc ".jpg"))
  end.

(** [getInlineImages(documentFragment, inlineImages)]: every child that is a
    valid inline image is pushed on the accumulator, every other child is
    searched in turn; a throw of the classifier ends the walk. *)
Fixpoint getInlineImages (w : World) (st : State) (documentFragment : Node)
    (inlineImages : list Node) : Try (list Node) :=
  fold_left
    (fun acc childNode =>
       match acc with
       | Throw err => Throw err
       | Ok inlineImages =>
           match isNodeValidInlineImage w st childNode with
           | Throw err => Throw err
           | Ok true => Ok (inlineImages ++ [childNode])
           | Ok false => getInlineImages w st childNode inlineImages
           end
       end)
    (childNodes documentFragment) (Ok inlineImages).

(** [getFirstInlineImage(documentFragment)]; [None] stands for [null]. *)
Definition getFirstInlineImage (w : World) (st : State) (documentFragment : Node)
    : Try (option Node) :=
  match getInlineImages w st documentFragment [] with
  | Throw err => Throw err
  | Ok [] => Ok None
  | Ok (inlineImage :: _) => Ok (Some inlineImage)
  end.

(** ** The image transformer *)

(** [replaceImageWithSVG(html, inlineImage, svg)] *)
Definition replaceImageWithSVG (html : string) (inlineImage : Node) (svg : string)
    : Try string :=
  match location inlineImage with
  | None => Throw location_TypeError
  | Some loc =>
      let start := startOffset loc in
      let end_ := endOffset loc in
      Ok (Js.substring html 0 start +++ svg +++ Js.substringFrom html end_)
  end.

(** [replaceImageWithBase64(html, inlineImage, base64)] *)
Definition replaceImageWithBase64 (html : string) (inlineImage : Node)
    (base64 : string) : Try string :=
  match location inlineImage with
  | None => Throw location_TypeError
  | Some loc =>
      let start := startOffset loc in
      let end_ := endOffset loc in
      Ok (Js.substring html 0 start
          +++ ("<img src=" +++ Js.quot +++ base64 +++ Js.quot +++ " />")
          +++ Js.substringFrom html end_)
  end.

(** [moveStaticImage(html, inlineImage, imagePath)] *)
Definition moveStaticImage (html : string) (inlineImage : Node)
    (imagePath : string) : Try string :=
  match location inlineImage with
  | None => Throw location_TypeError
  | Some loc =>
      let start := startOffset loc in
      let end_ := endOffset loc in
      Ok (Js.substring html 0 start
          +++ ("<img src=" +++ Js.quot +++ imagePath +++ Js.quot +++ " />")
          +++ Js.substringFrom html end_)
  end.

(** One turn of the [forEach] of [mkdirsSync]: the state, and [pathtmp]
    ([None] while it is undefined) or the error that [fs.mkdirSync] threw,
    which ends the loop with the directories made so far in place. *)
Definition mkdirs_visit (w : World) (acc : State * Try (option string))
    (dirname : string) : State * Try (option string) :=
  match acc with
  | (st, Throw err) => (st, Throw err)
  | (st, Ok pathtmp) =>
      let pathtmp1 := if String.eqb dirname EmptyString then Some "/" else pathtmp in
      let pathtmp2 := match pathtmp1 with
                      | Some p => if Js.nonEmpty p then path_join w p dirname
                                  else dirname
                      | None => dirname
                      end in
      if fs_existsSync w st pathtmp2 then (st, Ok (Some pathtmp2))
      else match mkdirSync w pathtmp2 with
           | None => (fs_call st (MkdirSync pathtmp2), Ok (Some pathtmp2))
           | Some err => (st, Throw err)
           end
  end.

(** [mkdirsSync(dirpath)]: [Ok false] is the [undefined] returned when the
    directory is there, [Ok true] the [true] returned after the loop. *)
Definition mkdirsSync (w : World) (st : State) (dirpath : string)
    : State * Try bool :=
  if fs_existsSync w st dirpath then (st, Ok false)
  else match fold_left (mkdirs_visit w) (Js.split "/" dirpath) (st, Ok None) with
       | (st', Ok _) => (st', Ok true)
       | (st', Throw err) => (st', Throw err)
       end.

(** What [path.resolve] throws on an argument that is not a string, here on
    [this.userConfig.basePath] when the user config has no such string. *)
Definition path_TypeError : Error := "TypeError: Path must be a string".

(** [seq[seq.length - 1]] on the never empty result of [split]. *)
Definition lastOf (seq : list string) : string := last seq EmptyString.

(** [processOutputHtml(html, inlineImage)]: the state once the promise has
    settled or come to rest, and how the promise ended.

    In the svg branch [fs.readFile] only starts the read, so the push on
    [processedImages] at the end of the executor runs first, and rejects
    the promise if it throws; the callback then merges the config into the
    shared default object and optimises.  A failed read rejects and the
    callback goes on with [undefined] data; a failed optimisation, or a
    throw while the optimised svg is put in, is only logged and settles
    nothing.  The promise ends as the first of these settled it.

    In the raster branch everything is synchronous: a throw leaves the
    executor before the push and rejects the promise. *)
Definition processOutputHtml (w : World) (st : State) (html : string)
    (inlineImage : Node) : State * Promise string :=
  let imageSrc := getImagesSrc inlineImage in
  if negb (Js.nonEmpty imageSrc) then (st, Fulfilled html)
  else if has imageSrc ".svg" then
    let read := readFile w (path_resolve w ["src"; imageSrc]) in
    let st1 := match location inlineImage with
               | Some loc => push_processedImages st (startOffset loc)
               | None => st
               end in
    let rejected := match location inlineImage, read with
                    | None, _ => Some location_TypeError
                    | Some _, Throw err => Some err
                    | Some _, Ok _ => None
                    end in
    let configObj := Object_assign (svgoDefaultConfig st1) (userConfig st1) in
    let st2 := set_svgoDefaultConfig st1 configObj in
    let plugins := lodash_map_entries configObj in
    let data := match read with Ok d => Some d | Throw _ => None end in
    match svgo_optimize w plugins data with
    | Ok optimisedSVG =>
        match replaceImageWithSVG html inlineImage optimisedSVG with
        | Ok html' =>
            (st2, match rejected with
                  | Some err => Rejected err
                  | None => Fulfilled html'
                  end)
        | Throw message =>
            (console_log st2 message,
             match rejected with
             | Some err => Rejected err
             | None => Pending
             end)
        end
    | Throw message =>
        (console_log st2 message,
         match rejected with
         | Some err => Rejected err
         | None => Pending
         end)
    end
  else
    match statSync_size w (path_resolve w ["src"; imageSrc]) with
    | Throw err => (st, Rejected err)
    | Ok size =>
        if (imageLimit st <=? size)%N then
          let fileName := lastOf (Js.split "/" imageSrc) in
          match get (userConfig st) "basePath" with
          | Some (JsString dir) =>
              let (st1, made) :=
                if negb (fs_existsSync w st (path_resolve w ["dist"; dir]))
                then mkdirsSync w st (path_resolve w ["dist"; dir])
                else (st, Ok false) in
              match made with
              | Throw err => (st1, Rejected err)
              | Ok _ =>
                  let st2 := fs_call st1 (Pipe (path_resolve w ["src"; imageSrc])
                                               (path_resolve w ["dist"; dir; fileName])) in
                  match moveStaticImage html inlineImage ("./" +++ dir +++ fileName),
                        location inlineImage with
                  | Ok html', Some loc =>
                      (push_processedImages st2 (startOffset loc), Fulfilled html')
                  | Ok _, None => (st2, Rejected location_TypeError)
                  | Throw err, _ => (st2, Rejected err)
                  end
              end
          | _ => (st, Rejected path_TypeError)
          end
        else
          match readFileSync w (path_resolve w ["src"; imageSrc]) with
          | Throw err => (st, Rejected err)
          | Ok image =>
              let seqData := toBase64 w image in
              let mime := match mime_lookup w (path_resolve w ["src"; imageSrc]) with
                          | Some m => m
                          | None => "false"
                          end in
              let base64Data := "data:" +++ mime +++ ";base64," +++ seqData in
              match replaceImageWithBase64 html inlineImage base64Data,
                    location inlineImage with
              | Ok html', Some loc =>
                  (push_processedImages st (startOffset loc), Fulfilled html')
              | Ok _, None => (st, Rejected location_TypeError)
              | Throw err, _ => (st, Rejected err)
              end
          end
    end.

(** ** The rewrite engine *)

(** What parse5 throws when [processImage] is handed [undefined], the value
    a logged failure leaves in the chain of [updateHTML]. *)
Definition parse_TypeError : Error := "TypeError: html is not a string".

(** [processImage(html)]: the buffer is parsed afresh and the first inline
    image, if any, is handed to [processOutputHtml] with that same buffer.  A
    throw of the walk, inside the executor, rejects the promise. *)
Definition processImage (w : World) (st : State) (html : option string)
    : State * Promise string :=
  match html with
  | None => (st, Rejected parse_TypeError)
  | Some html =>
      let documentFragment := parseFragment w html in
      match getFirstInlineImage w st documentFragment with
      | Throw err => (st, Rejected err)
      | Ok (Some inlineImage) => processOutputHtml w st html inlineImage
      | Ok None => (st, Fulfilled html)
      end
  end.

(** One turn of the [reduce] in [updateHTML]:
    [promise.then((html) => this.processImage(html)).catch(err => console.log(err))].
    The handler of [catch] returns [undefined], which the next turn receives
    as its [html]. *)
Definition updateHTML_turn (w : World) (acc : State * Promise (option string))
    (imageNode : Node) : State * Promise (option string) :=
  match acc with
  | (st, Fulfilled html) =>
      match processImage w st html with
      | (st', Fulfilled html') => (st', Fulfilled (Some html'))
      | (st', Rejected err) => (console_log st' err, Fulfilled None)
      | (st', Pending) => (st', Pending)
      end
  | (st, Rejected err) => (console_log st err, Fulfilled None)
  | (st, Pending) => (st, Pending)
  end.

(** [updateHTML(html, inlineImages)] *)
Definition updateHTML (w : World) (st : State) (html : string)
    (inlineImages : list Node) : State * Promise (option string) :=
  fold_left (updateHTML_turn w) inlineImages (st, Fulfilled (Some html)).

(** [processImages(html)]: [Fulfilled None] is [resolve()] with no value.  A
    throw of the walk, inside the executor, rejects the promise before
    [updateHTML] is called. *)
Definition processImages (w : World) (st : State) (html : string)
    : State * Promise (option string) :=
  let documentFragment := parseFragment w html in
  match getInlineImages w st documentFragment [] with
  | Throw err => (st, Rejected err)
  | Ok [] => (st, Fulfilled None)
  | Ok inlineImages =>
      match updateHTML w st html inlineImages with
      | (st', Rejected err) =>
          (console_log (console_log st' "processImages hit error") err,
           Rejected err)
      | settled => settled
      end
  end.

(** ** The pipeline driver *)

(** What the host hands to the html hooks: the html, the output name and the
    [svgoConfig] of the html plugin's options ([None] when it is missing or
    not an object). *)
Record HtmlPluginData : Type := mkHtmlPluginData {
  html : string;
  outputName : option string;
  svgoConfig : option JsObj
}.

(** [compilation.outputOptions.path], [None] when either is missing. *)
Record Compilation : Type := mkCompilation { outputOptions_path : option string }.

(** [getUserConfig(htmlPluginData)] *)
Definition getUserConfig (st : State) (htmlPluginData : HtmlPluginData) : State :=
  set_userConfig st match svgoConfig htmlPluginData with
                    | Some config => config
                    | None => []
                    end.

(** [updateOutputFile(html, filename)]; [None] is an [undefined] html. *)
Definition updateOutputFile (w : World) (st : State) (html : option string)
    (filename : string) : State * Promise unit :=
  if negb (Js.nonEmpty (outputPath st)) || negb (Js.nonEmpty filename) then
    (st, Rejected "outputPath & filename must be set to update output file")
  else
    match html with
    | None => (st, Fulfilled tt)
    | Some EmptyString => (st, Fulfilled tt)
    | Some html =>
        let file := path_resolve w [outputPath st; filename] in
        (fs_call st (WriteFile file html),
         match writeFile w file html with
         | Some err => Rejected err
         | None => Fulfilled tt
         end)
    end.

(** The [html-webpack-plugin-after-html-processing] hook of [apply], taken
    when [runPreEmit] is set; the promise ends with what the callback gets. *)
Definition afterHtmlProcessing (w : World) (st : State)
    (htmlPluginData : HtmlPluginData) : State * Promise HtmlPluginData :=
  let st1 := getUserConfig st htmlPluginData in
  match processImages w st1 (html htmlPluginData) with
  | (st2, Fulfilled processed) =>
      let html' := match processed with
                   | Some (String c h) => String c h
                   | _ => html htmlPluginData
                   end in
      (st2, Fulfilled {| html := html';
                         outputName := outputName htmlPluginData;
                         svgoConfig := svgoConfig htmlPluginData |})
  | (st2, Rejected err) => (console_log st2 err, Fulfilled htmlPluginData)
  | (st2, Pending) => (st2, Pending)
  end.

(** The [html-webpack-plugin-after-emit] hook of [apply], taken otherwise:
    the state after it and what the callback gets. *)
Definition afterEmitHtml (st : State) (compilation : Compilation)
    (htmlPluginData : HtmlPluginData) : State * HtmlPluginData :=
  let st1 := set_outputPath st match outputOptions_path compilation with
                               | Some p => p
                               | None => EmptyString
                               end in
  if negb (Js.nonEmpty (outputPath st1)) then
    (console_log st1 "no output path found on compilation.outputOptions",
     htmlPluginData)
  else
    let st2 := getUserConfig st1 htmlPluginData in
    let filename := match outputName htmlPluginData with
                    | Some n => n
                    | None => EmptyString
                    end in
    if negb (Js.nonEmpty filename) then
      (console_log st2 "no filename found on htmlPluginData.outputName",
       htmlPluginData)
    else
      (push_files st2 {| filename := filename;
                         originalHtml := html htmlPluginData |},
       htmlPluginData).

(** The second half of the compiler's [after-emit] hook: once
    [Promise.all] has gathered the html of every file,
    [htmlArray.map((html, index) => this.updateOutputFile(html, this.files[index].filename))]
    calls [updateOutputFile] for each in turn. *)
Fixpoint updateOutputFiles (w : World) (st : State) (htmlArray : list (option string))
    (files : list File) : State * list (Promise unit) :=
  match htmlArray, files with
  | html :: htmlArray', file :: files' =>
      let (st1, p) := updateOutputFile w st html (filename file) in
      let (st2, ps) := updateOutputFiles w st1 htmlArray' files' in
      (st2, p :: ps)
  | _, _ => (st, [])
  end.

(** ** Notions the statements use *)

(** [sub] occurs somewhere in [s]. *)
Definition contains (s sub : string) : Prop :=
  exists pre post, s = pre +++ sub +++ post.

(** [v] is the value of the node's [src] attribute: of the first attribute
    named [src], the one [_.find] returns (parse5 keeps one attribute per
    name). *)
Definition src_value (node : Node) (v : string) : Prop :=
  exists pre post,
    attrs node = pre ++ mkAttr "src" v :: post
    /\ forall b, In b pre -> name b <> "src".

(** An image source: one of the three extensions occurs in it. *)
Definition image_source (v : string) : Prop :=
  contains v ".svg" \/ contains v ".png" \/ contains v ".jpg".

(** The classifier accepts the node. *)
Definition eligible (w : World) (st : State) (node : Node) : bool :=
  match isNodeValidInlineImage w st node with
  | Ok true => true
  | _ => false
  end.

(** The first node below the root of the freshly parsed [html], in document
    order, that the classifier accepts. *)
Definition first_candidate (w : World) (st : State) (html : string) : option Node :=
  hd_error (filter (eligible w st) (descendants (parseFragment w html))).

(** Every node below [root] carries a location. *)
Definition located (root : Node) : Prop :=
  forall node, In node (descendants root) -> location node <> None.

(** [buffer[0:start] + fragment + buffer[end:]] for the span [loc]. *)
Definition splice (buffer : string) (loc : Location) (fragment : string) : string :=
  Js.substring buffer 0 (startOffset loc)
  +++ fragment
  +++ Js.substringFrom buffer (endOffset loc).

(** The [<img>] element the raster strategies write. *)
Definition img_tag (src : string) : string :=
  "<img src=" +++ Js.quot +++ src +++ Js.quot +++ " />".

(** [fragment] is what a successful transformation of [node] puts in its
    place: the optimiser's output for an svg source that can be read; for a
    raster source of at least [imageLimit] bytes an [<img>] on the base
    path of the user config followed by the file name, when the directory
    for it is there or can be made; for a shorter one that can be read an
    [<img>] on a base64 data URI. *)
Definition replacement (w : World) (st : State) (node : Node) (fragment : string)
    : Prop :=
  let src := getImagesSrc node in
  let file := path_resolve w ["src"; src] in
  if has src ".svg" then
    exists data,
      readFile w file = Ok data
      /\ svgo_optimize w
           (lodash_map_entries (Object_assign (svgoDefaultConfig st) (userConfig st)))
           (Some data) = Ok fragment
  else
    exists size,
      statSync_size w file = Ok size
      /\ if (imageLimit st <=? size)%N then
           exists dir,
             get (userConfig st) "basePath" = Some (JsString dir)
             /\ (exists made,
                   snd (mkdirsSync w st (path_resolve w ["dist"; dir])) = Ok made)
             /\ fragment = img_tag ("./" +++ dir +++ lastOf (Js.split "/" src))
         else
           exists image,
             readFileSync w file = Ok image
             /\ fragment =
                img_tag ("data:"
                         +++ match mime_lookup w file with
                             | Some m => m
                             | None => "false"
                             end
                         +++ ";base64," +++ toBase64 w image).

(** The output path or the output name is missing: absent or empty. *)
Definition missing (field : option string) : Prop :=
  field = None \/ field = Some EmptyString.




(** The node, if any, that the next turn of [updateHTML] hands to the
    transformer: the first inline image of the buffer the turn receives. *)
Definition attempted (w : World) (acc : State * Promise (option string))
    : list Node :=
  match acc with
  | (st, Fulfilled (Some html)) =>
      match getFirstInlineImage w st (parseFragment w html) with
      | Ok (Some inlineImage) => [inlineImage]
      | _ => []
      end
  | _ => []
  end.

(** The nodes handed to the transformer in a run of [updateHTML], turn by
    turn, each turn starting from where [updateHTML_turn] left the last. *)
Fixpoint attempts (w : World) (acc : State * Promise (option string))
    (inlineImages : list Node) : list Node :=
  match inlineImages with
  | [] => []
  | imageNode :: rest =>
      attempted w acc ++ attempts w (updateHTML_turn w acc imageNode) rest
  end.

(** The start offsets of the nodes that carry a location. *)
Definition offsets (nodes : list Node) : list nat :=
  flat_map (fun n => match location n with
                     | Some loc => [startOffset loc]
                     | None => []
                     end) nodes.

(** ** [mkdirsSync] step by step

    The loop inside [mkdirsSync] on its own, for a [path.join] written out
    and an [fs.mkdirSync] that succeeds: the directories it is called on,
    in order. *)

Module Mkdirs.

(** [path.join(pathtmp, dirname)] on the arguments the loop gives it:
    [pathtmp] is the root or a path that does not end in a slash, and
    [dirname], a part of the split, holds no slash.  The empty part adds
    nothing.  The parts [.] and [..], which [path.join] would resolve, are
    for the statements to exclude. *)
Definition path_join (pathtmp dirname : string) : string :=
  if String.eqb dirname EmptyString then pathtmp
  else if String.eqb pathtmp "/" then pathtmp +++ dirname
  else pathtmp +++ "/" +++ dirname.

(** [fs.existsSync(p)] inside the loop: on the disk at the start, or made
    since. *)
Definition present (exists0 : string -> bool) (made : list string) (p : string)
    : bool :=
  exists0 p || existsb (String.eqb p) made.

(** The body of the [forEach]: [pathtmp] ([None] while it is undefined) and
    the directories made so far, before and after one [dirname]. *)
Definition visit (exists0 : string -> bool) (acc : option string * list string)
    (dirname : string) : option string * list string :=
  let (pathtmp, made) := acc in
  let pathtmp1 := if String.eqb dirname EmptyString then Some "/" else pathtmp in
  let pathtmp2 := match pathtmp1 with
                  | Some p => if Js.nonEmpty p then path_join p dirname else dirname
                  | None => dirname
                  end in
  (Some pathtmp2,
   if present exists0 made pathtmp2 then made else made ++ [pathtmp2]).

(** [mkdirsSync(dirpath)]: whether it returns [true] (and not [undefined]),
    and the directories it makes. *)
Definition mkdirsSync_loop (exists0 : string -> bool) (dirpath : string)
    : bool * list string :=
  if exists0 dirpath then (false, [])
  else (true, snd (fold_left (visit exists0) (Js.split "/" dirpath) (None, []))).

(** The absolute path with the given parts. *)
Definition absolute (parts : list string) : string :=
  "/" +++ String.concat "/" parts.

(** A part of a normalised path: not empty, without slash, and neither of
    the two dot names. *)
Definition plain (part : string) : Prop :=
  part <> EmptyString /\ ~ contains part "/" /\ part <> "." /\ part <> "..".

(** The directories on the way to [absolute parts], the nearest to the root
    first and [absolute parts] itself last. *)
Definition ancestors (parts : list string) : list string :=
  map (fun k => absolute (firstn k parts)) (seq 1 (length parts)).

End Mkdirs.

(** ** A small world for the worked examples

    Flat documents, a table of files under [/src], an optimiser that returns
    its input verbatim unless the file is marked broken, and the standard
    base64 alphabet.  The current directory is the root, so
    [path.resolve('src', 'a.svg')] is [/src/a.svg]. *)

Module Demo.

(** [s] without the prefix [p]. *)
Fixpoint strip (p s : string) : option string :=
  match p, s with
  | EmptyString, _ => Some s
  | String a p', String b s' => if Ascii.eqb a b then strip p' s' else None
  | _, _ => None
  end.

(** The text before the closing quote [q], and what follows the quote. *)
Fixpoint until (q : ascii) (s : string) : option (string * string) :=
  match s with
  | EmptyString => None
  | String c s' =>
      if Ascii.eqb c q then Some (EmptyString, s')
      else match until q s' with
           | Some (v, r) => Some (String c v, r)
           | None => None
           end
  end.

(** An [<img src=...>] tag at the front of [s]: the value of its [src] and
    the length of the tag.  The value is quoted either way and the tag may
    close with a slash. *)
Definition img_at (s : string) : option (string * nat) :=
  match strip "<img src=" s with
  | Some (String q r) =>
      if Ascii.eqb q "'" || Ascii.eqb q (ascii_of_nat 34) then
        match until q r with
        | Some (v, rest) =>
            match strip ">" rest, strip " />" rest with
            | Some _, _ => Some (v, 9 + 1 + String.length v + 1 + 1)
            | None, Some _ => Some (v, 9 + 1 + String.length v + 1 + 3)
            | None, None => None
            end
        | None => None
        end
      else None
  | _ => None
  end.

(** The img elements of the text from position [pos] on, with the offsets
    parse5 reports for them. *)
Fixpoint imgs (pos : nat) (s : string) : list Node :=
  match s with
  | EmptyString => []
  | String c s' =>
      match img_at s with
      | Some (v, len) =>
          mkNode "img" [mkAttr "src" v] [] (Some (mkLocation pos (pos + len)))
          :: imgs (S pos) s'
      | None => imgs (S pos) s'
      end
  end.

(** The fragment of a document: its img elements in document order.  The
    elements around them are left out, as none of them is ever eligible and
    the walk only passes through them. *)
Definition parse (html : string) : Node :=
  mkNode "#document-fragment" [] (imgs 0 html) None.

(** [path.resolve] from the root for plain relative parts: the segments of
    all parts, empty ones and single dots dropped, joined by slashes. *)
Definition resolve (parts : list string) : string :=
  "/" +++ String.concat "/"
            (filter (fun seg => negb (String.eqb seg EmptyString || String.eqb seg "."))
                    (flat_map (Js.split "/") parts)).

(** A file: its path, the size [stat] reports, and its content or the error
    that reading it raises. *)
Record Entry : Type := mkEntry { path : string; size : N; content : Try string }.

Fixpoint lookup (table : list Entry) (p : string) : option Entry :=
  match table with
  | [] => None
  | e :: table' => if String.eqb (path e) p then Some e else lookup table' p
  end.

Definition ENOENT : Error := "ENOENT: no such file or directory".

Definition b64_alphabet : string :=
  "ABCDEFGHIJKLMNOPQRSTUVWXYZabcdefghijklmnopqrstuvwxyz0123456789+/".

Definition b64_char (n : N) : string :=
  match String.get (N.to_nat n) b64_alphabet with
  | Some c => String c EmptyString
  | None => "="
  end.

Fixpoint b64 (bytes : list N) : string :=
  match bytes with
  | [] => EmptyString
  | [a] => b64_char (a / 4) +++ b64_char ((a mod 4) * 16) +++ "=="
  | [a; b] =>
      b64_char (a / 4) +++ b64_char ((a mod 4) * 16 + b / 16)
      +++ b64_char ((b mod 16) * 4) +++ "="
  | a :: b :: c :: rest =>
      b64_char (a / 4) +++ b64_char ((a mod 4) * 16 + b / 16)
      +++ b64_char ((b mod 16) * 4 + c / 64) +++ b64_char (c mod 64)
      +++ b64 rest
  end%N.

Definition base64 (s : string) : string :=
  b64 (map N_of_ascii (list_ascii_of_string s)).

Definition mime (p : string) : option string :=
  if has p ".png" then Some "image/png"
  else if has p ".jpg" then Some "image/jpeg"
  else if has p ".svg" then Some "image/svg+xml"
  else None.

(** The optimiser: verbatim, but a file that starts with an exclamation mark
    is malformed. *)
Definition optimize (plugins : list JsObj) (data : option string) : Try string :=
  match data with
  | Some (String "!" _) => Throw "Error in parsing SVG"
  | Some d => Ok d
  | None => Throw "TypeError: data is undefined"
  end.

(** The world of a parser, a table of files and an [fs.mkdirSync]; the
    root directory is there from the start. *)
Definition world (parser : string -> Node) (table : list Entry)
    (mkdir : string -> option Error) : World :=
  {| parseFragment := parser;
     path_resolve := resolve;
     existsSync := fun p => String.eqb p "/"
                            || match lookup table p with
                               | Some _ => true
                               | None => false
                               end;
     statSync_size := fun p => match lookup table p with
                               | Some e => Ok (size e)
                               | None => Throw ENOENT
                               end;
     readFile := fun p => match lookup table p with
                          | Some e => content e
                          | None => Throw ENOENT
                          end;
     readFileSync := fun p => match lookup table p with
                              | Some e => content e
                              | None => Throw ENOENT
                              end;
     toBase64 := base64;
     mime_lookup := mime;
     svgo_optimize := optimize;
     writeFile := fun _ _ => None;
     path_join := Mkdirs.path_join;
     mkdirSync := mkdir |}.

(** A plugin made with [{ runPreEmit: true, basePath: 'static/' }] in a
    fresh process whose default svgo config is [defaults]. *)
Definition plugin (defaults : JsObj) : State :=
  constructor {| opt_runPreEmit := true;
                 opt_basePath := Some "static/";
                 opt_imageLimit := None |} defaults [] [].

(** The same without [runPreEmit], for the after-emit hooks. *)
Definition late_plugin (defaults : JsObj) : State :=
  constructor {| opt_runPreEmit := false;
                 opt_basePath := Some "static/";
                 opt_imageLimit := None |} defaults [] [].

(** A readable file: [stat] reports the length of its content. *)
Definition file (p text : string) : Entry :=
  {| path := p; size := N.of_nat (String.length text); content := Ok text |}.

Fixpoint filler (n : nat) : string :=
  match n with
  | O => EmptyString
  | S n' => String "x" (filler n')
  end.

(** The files of the examples: a good and a malformed svg, a photo of
    10000 bytes, a three-byte png, a png and an svg that may not be read,
    and a png whose name also holds .svg. *)
Definition table : list Entry :=
  [ file "/src/logo.svg" "<svg>OK</svg>";
    file "/src/bad.svg" "!<svg";
    file "/src/photo.png" (filler (N.to_nat 10000));
    file "/src/dot.png" "Man";
    {| path := "/src/locked.png"; size := 120;
       content := Throw "EACCES: permission denied" |};
    {| path := "/src/locked.svg"; size := 80;
       content := Throw "EACCES: permission denied" |};
    file "/src/chart.svg.png" "!PNG" ].

Definition w : World := world parse table (fun _ => None).

(** The img element with the given source and span. *)
Definition img (src : string) (start stop : nat) : Node :=
  mkNode "img" [mkAttr "src" src] [] (Some (mkLocation start stop)).

(** An element read from the text, and one the parser put in by itself. *)
Definition element (tag : string) (children : list Node) (start stop : nat) : Node :=
  mkNode tag [] children (Some (mkLocation start stop)).
Definition implied (tag : string) (children : list Node) : Node :=
  mkNode tag [] children None.

(** Two tables written without [tbody], as parse5 reads them: the [tbody]
    it puts between the table and its row carries no location. *)
Definition tbody_page : string :=
  "<table><tr><td><img src='logo.svg'></td></tr></table>".
Definition tbody_tree : Node :=
  mkNode "#document-fragment" []
    [element "table"
       [implied "tbody"
          [element "tr" [element "td" [img "logo.svg" 15 35] 11 40] 7 45]]
       0 53]
    None.
Definition cells_page : string := "<table><tr><td>hi</td></tr></table>".
Definition cells_tree : Node :=
  mkNode "#document-fragment" []
    [element "table"
       [implied "tbody"
          [element "tr" [element "td" [element "#text" [] 15 17] 11 22] 7 27]]
       0 35]
    None.

(** A parser that knows the two tables and scans every other text for its
    img elements. *)
Definition parse_tables (html : string) : Node :=
  if String.eqb html tbody_page then tbody_tree
  else if String.eqb html cells_page then cells_tree
  else parse html.

Definition w_tables : World := world parse_tables table (fun _ => None).

(** A disk on which [/dist] can be made and nothing below it. *)
Definition w_readonly : World :=
  world parse table
    (fun p => if String.eqb p "/dist" then None
              else Some "EACCES: permission denied, mkdir").

(** The plugin data of a document with no svgo config. *)
Definition page (text : string) : HtmlPluginData :=
  {| html := text; outputName := Some "index.html"; svgoConfig := None |}.

(** The same with [svgoConfig: { basePath: dir }]. *)
Definition page_with_basePath (text dir : string) : HtmlPluginData :=
  {| html := text; outputName := Some "index.html";
     svgoConfig := Some [("basePath", JsString dir)] |}.

(** The documents of the examples. *)
Definition logo_page : string := "<div><img src='logo.svg'></div>".
Definition locked_page : string := "<img src='locked.png'>".
Definition locked_svg_page : string := "<img src='locked.svg'>".
Definition chart_page : string := "<img src='chart.svg.png'>".
Definition photo_page : string := "<p><img src='photo.png'></p>".
Definition dot_page : string := "<img src='dot.png'>".
Definition missing_page : string := "<p><img src='missing.png'></p>".
Definition two_svg_page : string := "<img src='bad.svg'><img src='logo.svg'>".
Definition three_page : string :=
  "<img src='logo.svg'><img src='logo.svg'><img src='dot.png'>".

(** A default svgo config and a user override for it. *)
Definition defaults : JsObj :=
  [("removeTitle", JsBool true); ("cleanupIDs", JsBool true)].
Definition override : JsObj :=
  [("removeTitle", JsBool false); ("removeDimensions", JsBool true)].

(** Two more documents: a small png, then a png that may not be read,
    then an svg; and the same with the malformed svg in the middle. *)
Definition dot_locked_logo_page : string :=
  "<img src='dot.png'><img src='locked.png'><img src='logo.svg'>".
Definition dot_bad_logo_page : string :=
  "<img src='dot.png'><img src='bad.svg'><img src='logo.svg'>".

End Demo.

(** ** Notions for the properties beyond the claims *)

(** The first [n] characters of [s]. *)
Fixpoint take (n : nat) (s : string) : string :=
  match n, s with
  | S n', String c s' => String c (take n' s')
  | _, _ => EmptyString
  end.

(** [s] without its first [n] characters. *)
Fixpoint drop (n : nat) (s : string) : string :=
  match n, s with
  | S n', String _ s' => drop n' s'
  | _, _ => s
  end.

(** [console.log] called once for each line, in order. *)
Definition logs (st : State) (lines : list string) : State :=
  fold_left console_log lines st.

(** What the write phase is to write: for each registered file, in order,
    its processed html when that is a string and not the empty one. *)
Fixpoint expected_writes (w : World) (outputPath : string)
    (htmlArray : list (option string)) (files : list File) : list FsCall :=
  match htmlArray, files with
  | Some (String c h) :: htmlArray', file :: files' =>
      WriteFile (path_resolve w [outputPath; filename file]) (String c h)
      :: expected_writes w outputPath htmlArray' files'
  | _ :: htmlArray', _ :: files' => expected_writes w outputPath htmlArray' files'
  | _, _ => []
  end.

(** * Properties *)

(** ** Substring containment *)

Lemma substring_is_prefix (s : string) :
  forall m, exists post, s = String.substring 0 m s +++ post.
Proof.
  induction s as [|c s IH]; intros [|m]; simpl.
  - exists EmptyString. reflexivity.
  - exists EmptyString. reflexivity.
  - exists (String c s). reflexivity.
  - destruct (IH m) as (post & E). exists post. f_equal. exact E.
Qed.

Lemma substring_occurs (s : string) :
  forall n m, contains s (String.substring n m s).
Proof.
  induction s as [|c s IH]; intros n m.
  - exists EmptyString, EmptyString. destruct n, m; reflexivity.
  - destruct n as [|n].
    + destruct (substring_is_prefix (String c s) m) as (post & E).
      exists EmptyString, post. exact E.
    + destruct (IH n m) as (pre & post & E).
      exists (String c pre), post. simpl. f_equal. exact E.
Qed.

Lemma substring_of_middle (pre sub post : string) :
  String.substring (String.length pre) (String.length sub) (pre +++ sub +++ post) = sub.
Proof.
  induction pre as [|c pre IH]; simpl.
  - induction sub as [|d sub IHs]; simpl.
    + destruct post; reflexivity.
    + f_equal. exact IHs.
  - exact IH.
Qed.

Lemma truthy_bitnot (x : Z) : Js.truthy (Js.bitnot x) = negb (Z.eqb x (-1)).
Proof.
  unfold Js.truthy, Js.bitnot, Z.lnot.
  destruct (Z.eqb_spec x (-1)) as [->|N]; [reflexivity|].
  destruct (Z.eqb_spec (Z.pred (- x)) 0); [lia|reflexivity].
Qed.

(** The [~s.indexOf(sub)] test holds exactly when [sub] occurs in [s]. *)
Lemma has_contains (s sub : string) :
  sub <> EmptyString -> (has s sub = true <-> contains s sub).
Proof.
  intros NE. unfold has, Js.indexOf. rewrite truthy_bitnot.
  destruct (String.index 0 sub s) as [i|] eqn:E.
  - split; [intros _|intros _].
    + apply index_correct1 in E. rewrite <- E. apply substring_occurs.
    + destruct (Z.eqb_spec (Z.of_nat i) (-1)); [lia|reflexivity].
  - split; [discriminate|].
    intros (pre & post & ->). exfalso.
    apply (index_correct3 0 (String.length pre) sub _ E NE); [lia|].
    apply substring_of_middle.
Qed.

Lemma has_nonEmpty (s sub : string) :
  sub <> EmptyString -> has s sub = true -> Js.nonEmpty s = true.
Proof.
  intros NE H. apply has_contains in H; [|exact NE].
  destruct H as (pre & post & ->).
  destruct pre; [|reflexivity]. destruct sub; [congruence|reflexivity].
Qed.

(** ** The classifier *)


Lemma find_src_value (node : Node) (v : string) :
  src_value node v <->
  exists a, find (fun a => String.eqb (name a) "src") (attrs node) = Some a
            /\ value a = v.
Proof.
  unfold src_value. generalize (attrs node) as l. intros l. split.
  - intros (pre & post & -> & Hpre).
    exists (mkAttr "src" v). split; [|reflexivity].
    induction pre as [|b pre IH]; simpl; [reflexivity|].
    destruct (String.eqb_spec (name b) "src") as [E|_].
    + exfalso. apply (Hpre b); [left; reflexivity|exact E].
    + apply IH. intros c Hc. apply Hpre. right. exact Hc.
  - intros (a & F & <-).
    induction l as [|b l IH]; simpl in F; [discriminate|].
    destruct (String.eqb_spec (name b) "src") as [E|N].
    + injection F as ->. exists [], l. split; [|intros ? []].
      destruct a as [na va]. simpl in E. subst na. reflexivity.
    + destruct (IH F) as (pre & post & -> & Hpre).
      exists (b :: pre), post. split; [reflexivity|].
      intros c [<-|Hc]; [exact N|apply Hpre; exact Hc].
Qed.

Lemma includes_In (l : list nat) (x : nat) : includes l x = true <-> In x l.
Proof.
  unfold includes. rewrite existsb_exists. split.
  - intros (y & Hy & E). apply Nat.eqb_eq in E. subst y. exact Hy.
  - intros H. exists x. split; [exact H|apply Nat.eqb_refl].
Qed.

Lemma dot_svg_nonempty : ".svg" <> EmptyString.
Proof. discriminate. Qed.


Lemma image_source_has (v : string) :
  image_source v <-> (has v ".svg" || has v ".png" || has v ".jpg") = true.
Proof.
  unfold image_source.
  rewrite !orb_true_iff, !has_contains by discriminate. tauto.
Qed.

Lemma image_source_nonEmpty (v : string) : image_source v -> Js.nonEmpty v = true.
Proof.
  intros [H|[H|H]]; apply has_contains in H; try discriminate;
    eapply has_nonEmpty; try exact H; discriminate.
Qed.

(** [getImagesSrc] returns the [src] value when it is an image source and
    the empty string in every other case. *)
Lemma getImagesSrc_spec (node : Node) :
  (exists v, src_value node v /\ image_source v /\ getImagesSrc node = v)
  \/ ((forall v, src_value node v -> ~ image_source v)
      /\ getImagesSrc node = EmptyString).
Proof.
  unfold getImagesSrc.
  destruct (find _ (attrs node)) as [a|] eqn:F.
  - assert (SV : src_value node (value a)).
    { apply find_src_value. exists a. split; [exact F|reflexivity]. }
    destruct (Js.nonEmpty (value a) && _) eqn:C.
    + left. exists (value a). split; [exact SV|]. split; [|reflexivity].
      apply andb_true_iff in C. destruct C as [_ C].
      apply image_source_has.
      rewrite !orb_true_iff in *. tauto.
    + right. split; [|reflexivity].
      intros v SV' IS. apply find_src_value in SV'.
      destruct SV' as (a' & F' & <-). rewrite F in F'. injection F' as <-.
      rewrite (image_source_nonEmpty _ IS) in C. simpl in C.
      apply image_source_has in IS.
      rewrite !orb_true_iff in IS. rewrite !orb_false_iff in C.
      destruct C as [[C1 C2] C3].
      destruct IS as [[IS|IS]|IS]; congruence.
  - right. split; [|reflexivity].
    intros v SV. apply find_src_value in SV.
    destruct SV as (a & F' & _). congruence.
Qed.

Lemma image_source_empty : ~ image_source EmptyString.
Proof.
  intros H. apply image_source_nonEmpty in H. discriminate.
Qed.

(** The classifier throws exactly on a node without location. *)
Lemma isNodeValidInlineImage_throws (w : World) (st : State) (node : Node)
    (e : Error) :
  isNodeValidInlineImage w st node = Throw e <->
  location node = None /\ e = location_TypeError.
Proof.
  unfold isNodeValidInlineImage. destruct (location node) as [loc|].
  - split; [|intros [H _]; discriminate].
    destruct (includes _ _); discriminate.
  - split; [intros [= <-]; tauto|intros [_ ->]; reflexivity].
Qed.

Lemma isNodeValidInlineImage_located (w : World) (st : State) (node : Node) :
  location node <> None -> exists b, isNodeValidInlineImage w st node = Ok b.
Proof.
  unfold isNodeValidInlineImage. destruct (location node) as [loc|]; [|congruence].
  intros _. destruct (includes _ _); eexists; reflexivity.
Qed.

(** An eligible node carries a location and is fresh: the start offset is
    not in the set. *)
Lemma eligible_fresh (w : World) (st : State) (node : Node) :
  isNodeValidInlineImage w st node = Ok true ->
  exists loc, location node = Some loc
              /\ ~ In (startOffset loc) (processedImages st).
Proof.
  unfold isNodeValidInlineImage. destruct (location node) as [loc|]; [|discriminate].
  destruct (includes _ _) eqn:I; [discriminate|].
  intros _. exists loc. split; [reflexivity|].
  intros H. apply includes_In in H. congruence.
Qed.

(** The source of an eligible node is an image source. *)
Lemma eligible_image_source (w : World) (st : State) (node : Node) :
  isNodeValidInlineImage w st node = Ok true -> image_source (getImagesSrc node).
Proof.
  unfold isNodeValidInlineImage. destruct (location node) as [loc|]; [|discriminate].
  destruct (includes _ _); [discriminate|].
  intros [= H]. rewrite !andb_true_iff in H. apply image_source_has, H.
Qed.

(** C7: a node is classified eligible exactly when its tag name is img, it
    has a src attribute whose value is not empty, contains .svg, .png or
    .jpg somewhere, and resolved against the src directory exists on disk,
    and its start offset (it carries a location) is not in the
    processed-offset set. *)
Theorem eligible_iff (w : World) (st : State) (node : Node) :
  isNodeValidInlineImage w st node = Ok true <->
  nodeName node = "img"
  /\ (exists v, src_value node v
                /\ v <> EmptyString
                /\ image_source v
                /\ fs_existsSync w st (path_resolve w ["src"; v]) = true)
  /\ (exists loc, location node = Some loc
                  /\ ~ In (startOffset loc) (processedImages st)).
Proof.
  unfold isNodeValidInlineImage.
  destruct (location node) as [loc|].
  2:{ split; [discriminate|]. intros (_ & _ & loc & H & _). discriminate. }
  destruct (includes _ _) eqn:I.
  - apply includes_In in I. split; [discriminate|].
    intros (_ & _ & loc' & [= <-] & N). tauto.
  - assert (NI : ~ In (startOffset loc) (processedImages st)).
    { intros H. apply includes_In in H. congruence. }
    assert (L : exists loc', Some loc = Some loc'
                             /\ ~ In (startOffset loc') (processedImages st))
      by (exists loc; tauto).
    assert (B : forall b : bool, Ok b = Ok true <-> b = true).
    { intros b. split; [intros [= ->]; reflexivity|intros ->; reflexivity]. }
    rewrite B, !andb_true_iff, String.eqb_eq, <- image_source_has.
    destruct (getImagesSrc_spec node) as [(v & SV & IS & ->)|(No & ->)].
    + split.
      * intros [[T E] _]. split; [exact T|]. split; [|exact L].
        exists v. repeat split; try assumption.
        intros ->. exact (image_source_empty IS).
      * intros (T & (v' & SV' & _ & _ & E) & _).
        assert (v' = v) as ->.
        { apply find_src_value in SV, SV'.
          destruct SV as (a & F & <-), SV' as (a' & F' & <-). congruence. }
        tauto.
    + split.
      * intros [_ IS]. destruct (image_source_empty IS).
      * intros (_ & (v & SV & _ & IS & _) & _). destruct (No v SV IS).
Qed.

Lemma eligible_true (w : World) (st : State) (node : Node) :
  eligible w st node = true <-> isNodeValidInlineImage w st node = Ok true.
Proof.
  unfold eligible. destruct (isNodeValidInlineImage w st node) as [[|]|e];
    split; congruence.
Qed.

(** ** The tree walk *)

(** Induction on a node with the property known for all its children. *)
Lemma Node_children_ind (P : Node -> Prop) :
  (forall n, Forall P (childNodes n) -> P n) -> forall n, P n.
Proof.
  intros H. fix IH 1. intros [nm ats cs loc]. apply H. simpl.
  induction cs as [|c cs IHcs]; constructor; [apply IH|exact IHcs].
Qed.

Lemma descendants_unfold (n : Node) :
  descendants n = flat_map (fun c => c :: descendants c) (childNodes n).
Proof. destruct n; reflexivity. Qed.

Lemma hd_error_app {A : Type} (l1 l2 : list A) :
  hd_error (l1 ++ l2) = match hd_error l1 with
                        | Some x => Some x
                        | None => hd_error l2
                        end.
Proof. destruct l1; reflexivity. Qed.

Section Walk.

Variable w : World.
Variable st : State.

Let visit := fun (acc : Try (list Node)) (childNode : Node) =>
  match acc with
  | Throw err => Throw err
  | Ok inlineImages =>
      match isNodeValidInlineImage w st childNode with
      | Throw err => Throw err
      | Ok true => Ok (inlineImages ++ [childNode])
      | Ok false => getInlineImages w st childNode inlineImages
      end
  end.

(** The walk with the accumulator put in front of what it finds. *)
Let onto (acc : list Node) (found : Try (list Node)) : Try (list Node) :=
  match found with
  | Ok l => Ok (acc ++ l)
  | Throw err => Throw err
  end.

Lemma getInlineImages_unfold (n : Node) (acc : list Node) :
  getInlineImages w st n acc = fold_left visit (childNodes n) (Ok acc).
Proof. destruct n; reflexivity. Qed.

Lemma visit_children_thrown (cs : list Node) (e : Error) :
  fold_left visit cs (Throw e) = Throw e.
Proof. induction cs as [|c cs IH]; [reflexivity|exact IH]. Qed.

Lemma visit_children_acc (cs : list Node) :
  Forall (fun c => forall acc,
            getInlineImages w st c acc = onto acc (getInlineImages w st c [])) cs ->
  forall acc, fold_left visit cs (Ok acc) = onto acc (fold_left visit cs (Ok [])).
Proof.
  induction 1 as [|c cs Hc _ IH]; intros acc; cbn [fold_left].
  - unfold onto. rewrite app_nil_r. reflexivity.
  - unfold visit at 2 4. destruct (isNodeValidInlineImage w st c) as [[|]|e].
    + rewrite (IH (acc ++ [c])), (IH ([] ++ [c])). unfold onto.
      destruct (fold_left visit cs (Ok [])); [|reflexivity].
      rewrite <- app_assoc. reflexivity.
    + rewrite (Hc acc). unfold onto at 1.
      destruct (getInlineImages w st c []) as [l|e].
      * rewrite (IH (acc ++ l)), (IH l). unfold onto.
        destruct (fold_left visit cs (Ok [])); [|reflexivity].
        rewrite app_assoc. reflexivity.
      * rewrite !visit_children_thrown. reflexivity.
    + rewrite !visit_children_thrown. reflexivity.
Qed.

(** The accumulator is only ever appended to. *)
Lemma getInlineImages_acc (n : Node) :
  forall acc, getInlineImages w st n acc = onto acc (getInlineImages w st n []).
Proof.
  induction n as [n IH] using Node_children_ind. intros acc.
  rewrite !getInlineImages_unfold. apply visit_children_acc. exact IH.
Qed.

Lemma visit_children_acc' (cs : list Node) (acc : list Node) :
  fold_left visit cs (Ok acc) = onto acc (fold_left visit cs (Ok [])).
Proof.
  apply visit_children_acc.
  induction cs as [|c cs IHcs]; [constructor|].
  constructor; [intros a; apply getInlineImages_acc|exact IHcs].
Qed.

Lemma visit_children_head (cs : list Node) :
  Forall (fun c => forall l,
            getInlineImages w st c [] = Ok l ->
            hd_error l = hd_error (filter (eligible w st) (descendants c))) cs ->
  forall l,
    fold_left visit cs (Ok []) = Ok l ->
    hd_error l
    = hd_error (filter (eligible w st) (flat_map (fun c => c :: descendants c) cs)).
Proof.
  induction 1 as [|c cs Hc Hcs IH]; intros l.
  - intros [= <-]. reflexivity.
  - cbn [fold_left flat_map]. rewrite <- app_comm_cons. cbn [filter].
    unfold visit at 2, eligible at 1.
    destruct (isNodeValidInlineImage w st c) as [[|]|e].
    + rewrite visit_children_acc'. unfold onto.
      destruct (fold_left visit cs (Ok [])); [|discriminate].
      intros [= <-]. reflexivity.
    + destruct (getInlineImages w st c []) as [l1|e].
      * rewrite visit_children_acc'. unfold onto.
        destruct (fold_left visit cs (Ok [])) as [l2|]; [|discriminate].
        intros [= <-]. rewrite filter_app, !hd_error_app.
        rewrite (Hc l1 eq_refl), (IH l2 eq_refl). reflexivity.
      * rewrite visit_children_thrown. discriminate.
    + rewrite visit_children_thrown. discriminate.
Qed.

(** When the walk completes, the head of the list it builds is the first
    node, in depth-first pre-order, that the classifier accepts. *)
Lemma getInlineImages_head (n : Node) :
  forall l, getInlineImages w st n [] = Ok l ->
            hd_error l = hd_error (filter (eligible w st) (descendants n)).
Proof.
  induction n as [n IH] using Node_children_ind. intros l.
  rewrite getInlineImages_unfold, descendants_unfold.
  apply visit_children_head. exact IH.
Qed.

Lemma getFirstInlineImage_first (html : string) (found : option Node) :
  getFirstInlineImage w st (parseFragment w html) = Ok found ->
  found = first_candidate w st html.
Proof.
  unfold getFirstInlineImage, first_candidate.
  destruct (getInlineImages w st (parseFragment w html) []) as [l|e] eqn:E;
    [|discriminate].
  rewrite <- (getInlineImages_head _ l E).
  destruct l; intros [= <-]; reflexivity.
Qed.

Lemma visit_children_located (cs : list Node) :
  Forall (fun c => located c -> exists l, getInlineImages w st c [] = Ok l) cs ->
  (forall d, In d (flat_map (fun c => c :: descendants c) cs) -> location d <> None) ->
  exists l, fold_left visit cs (Ok []) = Ok l.
Proof.
  induction 1 as [|c cs Hc Hcs IH]; intros L; [exists []; reflexivity|].
  cbn [fold_left flat_map] in *.
  assert (Lc : location c <> None) by (apply L; left; reflexivity).
  assert (Ld : located c).
  { intros d Hd. apply L. right. apply in_or_app. left. exact Hd. }
  destruct IH as (l2 & E2).
  { intros d Hd. apply L. right. apply in_or_app. right. exact Hd. }
  unfold visit at 2.
  destruct (isNodeValidInlineImage_located w st c Lc) as ([|] & ->).
  - rewrite visit_children_acc', E2. eexists. reflexivity.
  - destruct (Hc Ld) as (l1 & ->).
    rewrite visit_children_acc', E2. eexists. reflexivity.
Qed.

(** On a tree whose nodes all carry a location the walk completes. *)
Lemma getInlineImages_located (n : Node) :
  located n -> exists l, getInlineImages w st n [] = Ok l.
Proof.
  induction n as [n IH] using Node_children_ind. intros L.
  rewrite getInlineImages_unfold. apply visit_children_located; [exact IH|].
  unfold located in L. rewrite descendants_unfold in L. exact L.
Qed.

Lemma visit_children_throw (cs : list Node) (e : Error) :
  Forall (fun c => getInlineImages w st c [] = Throw e ->
                   e = location_TypeError
                   /\ exists d, In d (descendants c) /\ location d = None) cs ->
  fold_left visit cs (Ok []) = Throw e ->
  e = location_TypeError
  /\ exists d, In d (flat_map (fun c => c :: descendants c) cs) /\ location d = None.
Proof.
  induction 1 as [|c cs Hc Hcs IH]; [discriminate|].
  cbn [fold_left flat_map]. unfold visit at 2.
  destruct (isNodeValidInlineImage w st c) as [[|]|e'] eqn:V.
  - rewrite visit_children_acc'. unfold onto.
    destruct (fold_left visit cs (Ok [])) as [|e2]; [discriminate|].
    intros [= ->]. destruct (IH eq_refl) as (E & d & Hd & N).
    split; [exact E|]. exists d. split; [|exact N].
    right. apply in_or_app. right. exact Hd.
  - destruct (getInlineImages w st c []) as [l1|e1].
    + rewrite visit_children_acc'. unfold onto.
      destruct (fold_left visit cs (Ok [])) as [|e2]; [discriminate|].
      intros [= ->]. destruct (IH eq_refl) as (E & d & Hd & N).
      split; [exact E|]. exists d. split; [|exact N].
      right. apply in_or_app. right. exact Hd.
    + rewrite visit_children_thrown. intros [= ->].
      destruct (Hc eq_refl) as (E & d & Hd & N).
      split; [exact E|]. exists d. split; [|exact N].
      right. apply in_or_app. left. exact Hd.
  - rewrite visit_children_thrown. intros [= ->].
    apply isNodeValidInlineImage_throws in V. destruct V as [N E].
    split; [exact E|]. exists c. split; [left; reflexivity|exact N].
Qed.

(** The walk throws only the error of a missing location, and only when
    some node of the tree has none. *)
Lemma getInlineImages_throws (n : Node) (e : Error) :
  getInlineImages w st n [] = Throw e ->
  e = location_TypeError
  /\ exists d, In d (descendants n) /\ location d = None.
Proof.
  induction n as [n IH] using Node_children_ind.
  rewrite getInlineImages_unfold, descendants_unfold.
  apply visit_children_throw. exact IH.
Qed.

(** A completed walk found nothing exactly when no node of the tree is
    eligible. *)
Lemma getInlineImages_nil (n : Node) (l : list Node) :
  getInlineImages w st n [] = Ok l ->
  (l = [] <-> forall d, In d (descendants n) -> eligible w st d = false).
Proof.
  intros E. pose proof (getInlineImages_head n l E) as H. split.
  - intros -> d Hd. simpl in H.
    destruct (eligible w st d) eqn:V; [|reflexivity].
    assert (I : In d (filter (eligible w st) (descendants n))).
    { apply filter_In. split; assumption. }
    destruct (filter (eligible w st) (descendants n)); [inversion I|discriminate].
  - intros A.
    assert (F : filter (eligible w st) (descendants n) = []).
    { revert A. generalize (descendants n) as ds.
      induction ds as [|d ds IHl]; intros A; [reflexivity|]. simpl.
      rewrite (A d) by (left; reflexivity).
      apply IHl. intros d' Hd'. apply A. right. exact Hd'. }
    rewrite F in H. destruct l; [reflexivity|discriminate].
Qed.

End Walk.

(** ** One processing iteration *)

Lemma eligible_src_nonEmpty (w : World) (st : State) (node : Node) :
  isNodeValidInlineImage w st node = Ok true ->
  Js.nonEmpty (getImagesSrc node) = true.
Proof.
  intros V. apply image_source_nonEmpty. eapply eligible_image_source. exact V.
Qed.

Lemma first_candidate_eligible (w : World) (st : State) (html : string)
    (candidate : Node) :
  first_candidate w st html = Some candidate ->
  isNodeValidInlineImage w st candidate = Ok true
  /\ In candidate (descendants (parseFragment w html)).
Proof.
  unfold first_candidate. intros H.
  assert (I : In candidate (filter (eligible w st)
                                   (descendants (parseFragment w html)))).
  { destruct (filter _ _); [discriminate|]. injection H as ->. left. reflexivity. }
  apply filter_In in I. destruct I as [I V]. apply eligible_true in V. tauto.
Qed.

(** [mkdirsSync] makes its own test of the directory, so the test in front
    of the call changes nothing. *)
Lemma mkdirsSync_when_missing (w : World) (st : State) (dirpath : string) :
  (if negb (fs_existsSync w st dirpath) then mkdirsSync w st dirpath
   else (st, Ok false))
  = mkdirsSync w st dirpath.
Proof. unfold mkdirsSync. destruct (fs_existsSync w st dirpath); reflexivity. Qed.

(** The transformer on a node that carries a location: none of the reads
    of the location throws. *)
Lemma processOutputHtml_located (w : World) (st : State) (html : string)
    (node : Node) (loc : Location) :
  location node = Some loc ->
  processOutputHtml w st html node
  = let imageSrc := getImagesSrc node in
    let file := path_resolve w ["src"; imageSrc] in
    if negb (Js.nonEmpty imageSrc) then (st, Fulfilled html)
    else if has imageSrc ".svg" then
      let configObj := Object_assign (svgoDefaultConfig st) (userConfig st) in
      let st2 := set_svgoDefaultConfig
                   (push_processedImages st (startOffset loc)) configObj in
      match svgo_optimize w (lodash_map_entries configObj)
              (match readFile w file with Ok d => Some d | Throw _ => None end),
            readFile w file with
      | Ok optimisedSVG, Ok _ => (st2, Fulfilled (splice html loc optimisedSVG))
      | Ok _, Throw err => (st2, Rejected err)
      | Throw message, Ok _ => (console_log st2 message, Pending)
      | Throw message, Throw err => (console_log st2 message, Rejected err)
      end
    else
      match statSync_size w file with
      | Throw err => (st, Rejected err)
      | Ok size =>
          if (imageLimit st <=? size)%N then
            let fileName := lastOf (Js.split "/" imageSrc) in
            match get (userConfig st) "basePath" with
            | Some (JsString dir) =>
                match mkdirsSync w st (path_resolve w ["dist"; dir]) with
                | (st1, Throw err) => (st1, Rejected err)
                | (st1, Ok _) =>
                    (push_processedImages
                       (fs_call st1 (Pipe file (path_resolve w ["dist"; dir; fileName])))
                       (startOffset loc),
                     Fulfilled (splice html loc (img_tag ("./" +++ dir +++ fileName))))
                end
            | _ => (st, Rejected path_TypeError)
            end
          else
            match readFileSync w file with
            | Throw err => (st, Rejected err)
            | Ok image =>
                (push_processedImages st (startOffset loc),
                 Fulfilled
                   (splice html loc
                      (img_tag ("data:"
                                +++ match mime_lookup w file with
                                    | Some m => m
                                    | None => "false"
                                    end
                                +++ ";base64," +++ toBase64 w image))))
            end
      end.
Proof.
  intros L. unfold processOutputHtml, replaceImageWithSVG, replaceImageWithBase64,
    moveStaticImage. rewrite L. cbv zeta.
  destruct (negb _); [reflexivity|].
  destruct (has _ ".svg").
  - cbn [push_processedImages svgoDefaultConfig userConfig].
    destruct (readFile w _); destruct (svgo_optimize w _ _); reflexivity.
  - destruct (statSync_size w _) as [size|]; [|reflexivity].
    destruct (imageLimit st <=? size)%N; [|reflexivity].
    destruct (get (userConfig st) "basePath") as [[| | |dir|]|]; try reflexivity.
    rewrite mkdirsSync_when_missing.
    destruct (mkdirsSync w st _) as [st1 [made|err]]; reflexivity.
Qed.

(** The transformer fulfils its promise exactly with the buffer spliced
    around the replacement fragment. *)
Lemma processOutputHtml_fulfilled (w : World) (st : State) (html : string)
    (node : Node) (loc : Location) (html' : string) :
  location node = Some loc ->
  Js.nonEmpty (getImagesSrc node) = true ->
  snd (processOutputHtml w st html node) = Fulfilled html' <->
  exists fragment, replacement w st node fragment /\ html' = splice html loc fragment.
Proof.
  intros Loc NE. rewrite (processOutputHtml_located w st html node loc Loc).
  cbv zeta. unfold replacement. rewrite NE. cbn [negb].
  destruct (has (getImagesSrc node) ".svg").
  - destruct (readFile w _) as [data|err].
    + destruct (svgo_optimize w _ (Some data)) as [svg|msg] eqn:O; cbn [snd].
      * split.
        -- intros [= <-]. exists svg. split; [|reflexivity]. exists data. tauto.
        -- intros (fragment & (data' & [= <-] & O') & ->).
           rewrite O in O'. injection O' as <-. reflexivity.
      * split; [discriminate|].
        intros (fragment & (data' & [= <-] & O') & _). congruence.
    + destruct (svgo_optimize w _ None); cbn [snd];
        (split; [discriminate|]); intros (? & (? & ? & _) & _); discriminate.
  - destruct (statSync_size w _) as [size|err]; cbn [snd].
    + split.
      * intros H. destruct (imageLimit st <=? size)%N eqn:L.
        -- destruct (get (userConfig st) "basePath") as [[|b|n|dir|o]|];
             cbn [snd] in H; try discriminate.
           destruct (mkdirsSync w st _) as [st1 [made|err]] eqn:M;
             cbn [snd] in H; try discriminate.
           injection H as <-. eexists. split; [|reflexivity].
           exists size. split; [reflexivity|]. rewrite L. exists dir.
           split; [reflexivity|]. split; [|reflexivity].
           exists made. rewrite M. reflexivity.
        -- destruct (readFileSync w _) as [image|err] eqn:R;
             cbn [snd] in H; try discriminate.
           injection H as <-. eexists. split; [|reflexivity].
           exists size. split; [reflexivity|]. rewrite L. exists image. tauto.
      * intros (fragment & (size' & [= <-] & R) & ->).
        destruct (imageLimit st <=? size)%N.
        -- destruct R as (dir & -> & (made & M) & ->).
           destruct (mkdirsSync w st _) as [st1 [made'|err]];
             cbn [snd] in M; [reflexivity|discriminate].
        -- destruct R as (image & -> & ->). reflexivity.
    + split; [discriminate|]. intros (? & (? & ? & _) & _). discriminate.
Qed.

(** The nodes of the first parse only count the turns: a run depends on
    how many there are, never on what they are. *)
Lemma updateHTML_ignores_nodes (w : World) (l l' : list Node) :
  length l = length l' ->
  forall acc, fold_left (updateHTML_turn w) l acc
              = fold_left (updateHTML_turn w) l' acc.
Proof.
  revert l'. induction l as [|n l IH]; intros [|n' l'] L acc;
    try discriminate; [reflexivity|].
  cbn [fold_left].
  replace (updateHTML_turn w acc n') with (updateHTML_turn w acc n)
    by (destruct acc as [s [h|e|]]; reflexivity).
  apply IH. injection L as L. exact L.
Qed.

Lemma getFirstInlineImage_eligible (w : World) (st : State) (html : string)
    (node : Node) :
  getFirstInlineImage w st (parseFragment w html) = Ok (Some node) ->
  isNodeValidInlineImage w st node = Ok true.
Proof.
  intros H. apply getFirstInlineImage_first in H. symmetry in H.
  apply first_candidate_eligible in H. apply H.
Qed.

Lemma getFirstInlineImage_located (w : World) (st : State) (html : string) :
  located (parseFragment w html) ->
  getFirstInlineImage w st (parseFragment w html)
  = Ok (first_candidate w st html).
Proof.
  intros L. destruct (getInlineImages_located w st _ L) as (l & E).
  destruct (getFirstInlineImage w st (parseFragment w html)) as [found|e] eqn:F.
  - f_equal. apply (getFirstInlineImage_first w st html found F).
  - unfold getFirstInlineImage in F. rewrite E in F. destruct l; discriminate.
Qed.

Lemma getFirstInlineImage_throws (w : World) (st : State) (root : Node)
    (e : Error) :
  getFirstInlineImage w st root = Throw e <->
  getInlineImages w st root [] = Throw e.
Proof.
  unfold getFirstInlineImage.
  destruct (getInlineImages w st root []) as [[|n l]|e'];
    split; congruence.
Qed.

(** X13: every iteration parses the buffer it is given.  When the walk
    over that fresh tree completes, as it does when every node carries a
    location, the node handed to the transformer is the first eligible node
    of the tree in depth-first pre-order; the iteration then succeeds
    exactly with buffer[0:start] + fragment + buffer[end:] for the span of
    that node in the fresh tree (with the buffer itself when no node is
    eligible); the next turn receives that new buffer; the nodes of the
    parse made before the run play no part beyond their number; and when
    the walk throws, on a node without location, the iteration is rejected
    with the state as it was. *)
Theorem processImage_splices_fresh_span (w : World) (st : State) (html : string) :
  (forall found,
      getFirstInlineImage w st (parseFragment w html) = Ok found ->
      found = first_candidate w st html)
  /\ (located (parseFragment w html) ->
      getFirstInlineImage w st (parseFragment w html)
      = Ok (first_candidate w st html))
  /\ (forall candidate loc fragment,
         getFirstInlineImage w st (parseFragment w html) = Ok (Some candidate) ->
         location candidate = Some loc ->
         replacement w st candidate fragment ->
         snd (processImage w st (Some html)) = Fulfilled (splice html loc fragment))
  /\ (forall html',
         snd (processImage w st (Some html)) = Fulfilled html' ->
         match first_candidate w st html with
         | Some candidate =>
             exists loc fragment,
               location candidate = Some loc
               /\ replacement w st candidate fragment
               /\ html' = splice html loc fragment
         | None => html' = html
         end)
  /\ (forall imageNode st' html',
         processImage w st (Some html) = (st', Fulfilled html') ->
         updateHTML_turn w (st, Fulfilled (Some html)) imageNode
         = (st', Fulfilled (Some html')))
  /\ (forall stale stale',
         length stale = length stale' ->
         updateHTML w st html stale = updateHTML w st html stale')
  /\ (forall e,
         getInlineImages w st (parseFragment w html) [] = Throw e ->
         processImage w st (Some html) = (st, Rejected e)
         /\ e = location_TypeError
         /\ ~ located (parseFragment w html)).
Proof.
  split; [apply getFirstInlineImage_first|].
  split; [apply getFirstInlineImage_located|].
  split; [|split; [|split; [|split]]].
  - intros candidate loc fragment F Loc R. unfold processImage. rewrite F.
    apply (processOutputHtml_fulfilled w st html candidate loc _ Loc).
    + eapply eligible_src_nonEmpty. eapply getFirstInlineImage_eligible. exact F.
    + exists fragment. tauto.
  - intros html' H. unfold processImage in H.
    destruct (getFirstInlineImage w st (parseFragment w html)) as [found|e] eqn:F;
      [|discriminate].
    rewrite <- (getFirstInlineImage_first w st html found F).
    destruct found as [candidate|].
    + pose proof (getFirstInlineImage_eligible w st html candidate F) as V.
      destruct (eligible_fresh w st candidate V) as (loc & Loc & _).
      exists loc.
      apply (processOutputHtml_fulfilled w st html candidate loc _ Loc) in H.
      * destruct H as (fragment & R & ->). exists fragment. tauto.
      * eapply eligible_src_nonEmpty. exact V.
    + injection H as <-. reflexivity.
  - intros imageNode st' html' E. cbn [updateHTML_turn]. rewrite E. reflexivity.
  - intros stale stale' L. apply updateHTML_ignores_nodes. exact L.
  - intros e T. split; [|split].
    + unfold processImage.
      rewrite (proj2 (getFirstInlineImage_throws w st _ e) T). reflexivity.
    + apply (getInlineImages_throws w st _ e T).
    + intros L. destruct (getInlineImages_throws w st _ e T) as (_ & d & Hd & N).
      exact (L d Hd N).
Qed.

(** ** Documents without candidates *)

Lemma isNodeValidInlineImage_ext (w : World) (st st' : State) (node : Node) :
  processedImages st' = processedImages st ->
  disk st' = disk st ->
  isNodeValidInlineImage w st' node = isNodeValidInlineImage w st node.
Proof.
  intros P D. unfold isNodeValidInlineImage, fs_existsSync. rewrite P, D.
  reflexivity.
Qed.

Lemma getInlineImages_ext (w : World) (st st' : State) (n : Node) :
  processedImages st' = processedImages st ->
  disk st' = disk st ->
  getInlineImages w st' n [] = getInlineImages w st n [].
Proof.
  intros P D. revert n.
  assert (G : forall n acc, getInlineImages w st' n acc = getInlineImages w st n acc).
  { induction n as [n IH] using Node_children_ind. intros acc.
    rewrite !getInlineImages_unfold. generalize (Ok acc) as start.
    induction IH as [|c cs Hc _ IHcs]; intros start; [reflexivity|].
    cbn [fold_left]. rewrite <- IHcs. f_equal.
    destruct start as [l|e]; [|reflexivity].
    rewrite (isNodeValidInlineImage_ext w st st' c P D), Hc. reflexivity. }
  intros n. apply G.
Qed.

(** Without an eligible node the walk finds nothing, if it completes. *)
Lemma getInlineImages_none (w : World) (st : State) (n : Node) :
  (forall d, In d (descendants n) -> isNodeValidInlineImage w st d <> Ok true) ->
  getInlineImages w st n [] = Ok []
  \/ getInlineImages w st n [] = Throw location_TypeError.
Proof.
  intros No. destruct (getInlineImages w st n []) as [l|e] eqn:E.
  - left. f_equal. apply (getInlineImages_nil w st n l E).
    intros d Hd. destruct (eligible w st d) eqn:V; [|reflexivity].
    apply eligible_true in V. destruct (No d Hd V).
  - right. f_equal. apply (getInlineImages_throws w st n e E).
Qed.

(** C3: when no node of the parsed input is eligible, [processImages]
    changes nothing and hands no buffer on: it resolves with no value or,
    when the walk meets a node without location, is rejected before any
    transformation (and resolves whenever every node carries a location);
    either way the pre-emit hook hands the plugin data back with the very
    same html, having at most logged that error, and touches no file; the
    html hook of the after-emit path hands the plugin data back as it got
    it; and [updateOutputFile], given the missing value, writes no file. *)
Theorem no_candidates_document_unchanged (w : World) (st : State)
    (htmlPluginData : HtmlPluginData) :
  (forall node,
      In node (descendants (parseFragment w (html htmlPluginData))) ->
      isNodeValidInlineImage w st node <> Ok true) ->
  (processImages w st (html htmlPluginData) = (st, Fulfilled None)
   \/ processImages w st (html htmlPluginData) = (st, Rejected location_TypeError))
  /\ (located (parseFragment w (html htmlPluginData)) ->
      processImages w st (html htmlPluginData) = (st, Fulfilled None))
  /\ (afterHtmlProcessing w st htmlPluginData
      = (getUserConfig st htmlPluginData, Fulfilled htmlPluginData)
      \/ afterHtmlProcessing w st htmlPluginData
         = (console_log (getUserConfig st htmlPluginData) location_TypeError,
            Fulfilled htmlPluginData))
  /\ snd (afterHtmlProcessing w st htmlPluginData) = Fulfilled htmlPluginData
  /\ disk (fst (afterHtmlProcessing w st htmlPluginData)) = disk st
  /\ (forall compilation,
         snd (afterEmitHtml st compilation htmlPluginData) = htmlPluginData
         /\ disk (fst (afterEmitHtml st compilation htmlPluginData)) = disk st)
  /\ forall st' filename,
       fst (updateOutputFile w st' None filename) = st'.
Proof.
  intros None_eligible.
  pose proof (getInlineImages_none w st _ None_eligible) as Scan.
  assert (Hook : afterHtmlProcessing w st htmlPluginData
                 = (getUserConfig st htmlPluginData, Fulfilled htmlPluginData)
                 \/ afterHtmlProcessing w st htmlPluginData
                    = (console_log (getUserConfig st htmlPluginData)
                         location_TypeError,
                       Fulfilled htmlPluginData)).
  { unfold afterHtmlProcessing, processImages.
    rewrite (getInlineImages_ext w st (getUserConfig st htmlPluginData))
      by reflexivity.
    destruct Scan as [-> | ->]; [left|right]; destruct htmlPluginData; reflexivity. }
  split; [|split; [|split; [exact Hook|split; [|split; [|split]]]]].
  - unfold processImages. destruct Scan as [-> | ->]; [left|right]; reflexivity.
  - intros L. unfold processImages.
    destruct (getInlineImages_located w st _ L) as (l & E).
    destruct Scan as [S|S]; rewrite S in *; [reflexivity|discriminate].
  - destruct Hook as [-> | ->]; reflexivity.
  - destruct Hook as [-> | ->]; reflexivity.
  - intros compilation. unfold afterEmitHtml.
    destruct (outputOptions_path compilation) as [[|c p]|];
      destruct (outputName htmlPluginData) as [[|d n]|]; split; reflexivity.
  - intros st' filename. unfold updateOutputFile.
    destruct (negb _ || negb _); reflexivity.
Qed.

(** ** Configuration errors in the after-emit html hook *)

Lemma updateOutputFile_disk (w : World) (st : State) (html : option string)
    (name : string) (call : FsCall) :
  In call (disk (fst (updateOutputFile w st html name))) ->
  In call (disk st)
  \/ exists data, call = WriteFile (path_resolve w [outputPath st; name]) data.
Proof.
  unfold updateOutputFile.
  destruct (negb _ || negb _); [left; assumption|].
  destruct html as [[|c h]|]; cbn [fst]; try (left; assumption).
  cbn [fs_call disk]. intros H. apply in_app_or in H.
  destruct H as [H|[<-|[]]]; [left; exact H|right]. eexists. reflexivity.
Qed.

Lemma updateOutputFile_outputPath (w : World) (st : State) (html : option string)
    (name : string) :
  outputPath (fst (updateOutputFile w st html name)) = outputPath st.
Proof.
  unfold updateOutputFile.
  destruct (negb _ || negb _); [reflexivity|].
  destruct html as [[|c h]|]; reflexivity.
Qed.

(** The write phase of the after-emit pass only writes files it was given. *)
Lemma updateOutputFiles_disk (w : World) (fs : list File) :
  forall st htmlArray call,
    In call (disk (fst (updateOutputFiles w st htmlArray fs))) ->
    In call (disk st)
    \/ exists f data,
         In f fs
         /\ call = WriteFile (path_resolve w [outputPath st; filename f]) data.
Proof.
  induction fs as [|f fs IH]; intros st htmlArray call.
  - destruct htmlArray; simpl; tauto.
  - destruct htmlArray as [|h htmlArray]; [simpl; tauto|].
    cbn [updateOutputFiles].
    destruct (updateOutputFile w st h (filename f)) as [st1 p] eqn:U.
    destruct (updateOutputFiles w st1 htmlArray fs) as [st2 ps] eqn:Us.
    cbn [fst]. intros H.
    assert (H' : In call (disk (fst (updateOutputFiles w st1 htmlArray fs))))
      by (rewrite Us; exact H).
    apply IH in H'.
    assert (P : outputPath st1 = outputPath st).
    { replace st1 with (fst (updateOutputFile w st h (filename f)))
        by (rewrite U; reflexivity).
      apply updateOutputFile_outputPath. }
    destruct H' as [H'|(f' & data & Hf & ->)].
    + replace st1 with (fst (updateOutputFile w st h (filename f))) in H'
        by (rewrite U; reflexivity).
      apply updateOutputFile_disk in H'.
      destruct H' as [H'|(data & ->)]; [left; exact H'|right].
      exists f, data. split; [left; reflexivity|reflexivity].
    + right. exists f', data. rewrite P. split; [right; exact Hf|reflexivity].
Qed.

(** The message the after-emit html hook logs for a configuration error. *)
Lemma afterEmitHtml_cases (st : State) (compilation : Compilation)
    (htmlPluginData : HtmlPluginData) :
  match outputOptions_path compilation, outputName htmlPluginData with
  | None, _ | Some EmptyString, _ =>
      afterEmitHtml st compilation htmlPluginData
      = (console_log (set_outputPath st EmptyString)
           "no output path found on compilation.outputOptions",
         htmlPluginData)
  | Some (String c p), None | Some (String c p), Some EmptyString =>
      afterEmitHtml st compilation htmlPluginData
      = (console_log
           (getUserConfig (set_outputPath st (String c p)) htmlPluginData)
           "no filename found on htmlPluginData.outputName",
         htmlPluginData)
  | Some (String c p), Some (String d n) =>
      afterEmitHtml st compilation htmlPluginData
      = (push_files
           (getUserConfig (set_outputPath st (String c p)) htmlPluginData)
           {| filename := String d n; originalHtml := html htmlPluginData |},
         htmlPluginData)
  end.
Proof.
  unfold afterEmitHtml.
  destruct (outputOptions_path compilation) as [[|c p]|];
    destruct (outputName htmlPluginData) as [[|d n]|]; reflexivity.
Qed.

(** C10: when the compilation's output path or the document's output name
    is missing, the after-emit html hook logs the error and stops: the
    plugin data goes back to the host unchanged, the document is not
    registered, nothing is processed and no file is touched; and the files
    that the later write phase writes are registered ones only. *)
Theorem missing_path_or_filename_aborts (st : State) (compilation : Compilation)
    (htmlPluginData : HtmlPluginData) :
  missing (outputOptions_path compilation)
  \/ missing (outputName htmlPluginData) ->
  let st' := fst (afterEmitHtml st compilation htmlPluginData) in
  snd (afterEmitHtml st compilation htmlPluginData) = htmlPluginData
  /\ (exists message, console st' = console st ++ [message])
  /\ files st' = files st
  /\ processedImages st' = processedImages st
  /\ svgoDefaultConfig st' = svgoDefaultConfig st
  /\ disk st' = disk st
  /\ (forall w htmlArray call,
         In call (disk (fst (updateOutputFiles w st' htmlArray (files st')))) ->
         In call (disk st)
         \/ exists f data,
              In f (files st)
              /\ call = WriteFile (path_resolve w [outputPath st'; filename f]) data)
  /\ (forall w s processed name,
         outputPath s = EmptyString \/ name = EmptyString ->
         updateOutputFile w s processed name
         = (s, Rejected "outputPath & filename must be set to update output file")).
Proof.
  intros M. pose proof (afterEmitHtml_cases st compilation htmlPluginData) as C.
  assert (E : exists st0 message,
             afterEmitHtml st compilation htmlPluginData
             = (console_log st0 message, htmlPluginData)
             /\ console st0 = console st /\ files st0 = files st
             /\ processedImages st0 = processedImages st
             /\ svgoDefaultConfig st0 = svgoDefaultConfig st
             /\ disk st0 = disk st).
  { unfold missing in M.
    destruct (outputOptions_path compilation) as [[|c p]|];
      destruct (outputName htmlPluginData) as [[|d n]|];
      try (eexists; eexists; split; [exact C|repeat split]).
    exfalso. destruct M as [[M|M]|[M|M]]; discriminate. }
  destruct E as (st0 & message & -> & Hc & Hf & Hp & Hs & Hd).
  cbn [fst snd console_log console files processedImages svgoDefaultConfig disk].
  split; [reflexivity|]. split; [exists message; rewrite Hc; reflexivity|].
  repeat (split; [assumption|]). split.
  - intros w htmlArray call H.
    apply updateOutputFiles_disk in H. cbn [disk console_log] in H.
    rewrite Hd, Hf in H. exact H.
  - intros w s processed name [E|E]; unfold updateOutputFile; rewrite E;
      [reflexivity|]. rewrite orb_true_r. reflexivity.
Qed.

(** ** Merging the optimiser config *)

Lemma get_In_keys (o : JsObj) (k : string) :
  In k (keys o) <-> exists v, get o k = Some v.
Proof.
  induction o as [|[k' v'] o IH]; simpl.
  - split; [intros []|intros (v & H); discriminate].
  - destruct (String.eqb_spec k' k) as [->|N].
    + split; [intros _; exists v'; reflexivity|intros _; left; reflexivity].
    + rewrite IH. split; [intros [E|H]; [congruence|exact H]|intros H; right; exact H].
Qed.

Lemma get_not_In_keys (o : JsObj) (k : string) :
  ~ In k (keys o) <-> get o k = None.
Proof.
  rewrite get_In_keys. destruct (get o k) as [v|].
  - split; [intros H; exfalso; apply H; exists v; reflexivity|discriminate].
  - split; [reflexivity|intros _ (v & H); discriminate].
Qed.

Lemma mem_keys (o : JsObj) (k : string) :
  existsb (String.eqb k) (keys o) = true <-> In k (keys o).
Proof.
  rewrite existsb_exists. split.
  - intros (x & Hx & E). apply String.eqb_eq in E. subst x. exact Hx.
  - intros H. exists k. split; [exact H|apply String.eqb_refl].
Qed.

Lemma not_mem_keys (o : JsObj) (k : string) :
  existsb (String.eqb k) (keys o) = false <-> ~ In k (keys o).
Proof.
  rewrite <- mem_keys. destruct (existsb _ _); split; congruence.
Qed.

Lemma get_overwrite (o : JsObj) (k : string) (v : JsValue) (k' : string) :
  In k (keys o) ->
  get (overwrite o k v) k' = if String.eqb k k' then Some v else get o k'.
Proof.
  induction o as [|[k0 v0] o IH]; simpl; [intros []|]. intros I.
  destruct (String.eqb_spec k0 k) as [->|N]; simpl.
  - destruct (String.eqb_spec k k'); reflexivity.
  - rewrite IH by (destruct I; [congruence|assumption]).
    destruct (String.eqb_spec k0 k') as [->|N'].
    + destruct (String.eqb_spec k k'); [congruence|reflexivity].
    + reflexivity.
Qed.

Lemma get_insert_index (o : JsObj) (n : N) (k : string) (v : JsValue) (k' : string) :
  ~ In k (keys o) ->
  get (insert_index o n k v) k' = if String.eqb k k' then Some v else get o k'.
Proof.
  induction o as [|[k0 v0] o IH]; intros A; [reflexivity|].
  cbn [insert_index]. simpl in A.
  destruct (array_index k0) as [n0|]; [|reflexivity].
  destruct (n0 <? n)%N; [|reflexivity].
  cbn [get]. rewrite IH by tauto.
  destruct (String.eqb_spec k0 k') as [->|_]; [|reflexivity].
  destruct (String.eqb_spec k k') as [->|_]; [tauto|reflexivity].
Qed.

Lemma get_app_new (o : JsObj) (k : string) (v : JsValue) (k' : string) :
  ~ In k (keys o) ->
  get (o ++ [(k, v)]) k' = if String.eqb k k' then Some v else get o k'.
Proof.
  induction o as [|[k0 v0] o IH]; intros A; [reflexivity|].
  cbn [app get]. simpl in A. rewrite IH by tauto.
  destruct (String.eqb_spec k0 k') as [->|_]; [|reflexivity].
  destruct (String.eqb_spec k k') as [->|_]; [tauto|reflexivity].
Qed.

(** After [o[k] = v] the object reads [v] at [k] and as before elsewhere,
    wherever the key was put. *)
Lemma get_set (o : JsObj) (k : string) (v : JsValue) (k' : string) :
  get (set o k v) k' = if String.eqb k k' then Some v else get o k'.
Proof.
  unfold set. destruct (existsb (String.eqb k) (keys o)) eqn:M.
  - apply get_overwrite, mem_keys, M.
  - apply not_mem_keys in M. destruct (array_index k).
    + apply get_insert_index, M.
    + apply get_app_new, M.
Qed.












(** ** What a transformation changes in the shared state *)

Lemma get_Object_assign (o : JsObj) :
  forall t k, NoDup (keys o) ->
    get (Object_assign t o) k = match get o k with
                                | Some v => Some v
                                | None => get t k
                                end.
Proof.
  induction o as [|[k0 v0] o IH]; intros t k ND; [reflexivity|].
  cbn [Object_assign fold_left fst snd]. fold (Object_assign (set t k0 v0) o).
  inversion ND as [|? ? N ND']; subst.
  rewrite IH by exact ND'. rewrite get_set. cbn [get].
  destruct (String.eqb_spec k0 k) as [->|_]; [|reflexivity].
  apply get_not_In_keys in N. rewrite N. reflexivity.
Qed.


(** A series of calls on the disk changes the disk only. *)
Lemma fs_calls_fields (calls : list FsCall) :
  forall st,
    let st' := fold_left fs_call calls st in
    userConfig st' = userConfig st
    /\ imageLimit st' = imageLimit st
    /\ basePath st' = basePath st
    /\ outputPath st' = outputPath st
    /\ files st' = files st
    /\ svgoDefaultConfig st' = svgoDefaultConfig st
    /\ processedImages st' = processedImages st
    /\ console st' = console st
    /\ disk st' = disk st ++ calls.
Proof.
  induction calls as [|c calls IH]; intros st; cbn [fold_left].
  - cbv zeta. rewrite app_nil_r. repeat split; reflexivity.
  - specialize (IH (fs_call st c)). cbv zeta in *.
    destruct IH as (U & L & B & O & F & S & P & C & D).
    rewrite U, L, B, O, F, S, P, C, D. cbn [fs_call disk userConfig imageLimit
      basePath outputPath files svgoDefaultConfig processedImages console].
    rewrite <- app_assoc. repeat split; reflexivity.
Qed.

Lemma mkdirs_fold_calls (w : World) (parts : list string) :
  forall acc, exists made,
    fst (fold_left (mkdirs_visit w) parts acc)
    = fold_left fs_call (map MkdirSync made) (fst acc).
Proof.
  induction parts as [|s parts IH]; intros acc; [exists []; reflexivity|].
  cbn [fold_left]. destruct (IH (mkdirs_visit w acc s)) as (made & E).
  rewrite E. destruct acc as [st [pathtmp|err]]; cbn [mkdirs_visit fst].
  - match goal with |- context [fs_existsSync w st ?p] =>
      destruct (fs_existsSync w st p); [exists made; reflexivity|];
      destruct (mkdirSync w p); [exists made; reflexivity|];
      exists (p :: made); reflexivity
    end.
  - exists made. reflexivity.
Qed.

(** All that [mkdirsSync] does to the state is a series of [fs.mkdirSync]
    calls, whether it ends well or throws. *)
Lemma mkdirsSync_calls (w : World) (st : State) (dirpath : string) :
  exists made,
    fst (mkdirsSync w st dirpath) = fold_left fs_call (map MkdirSync made) st.
Proof.
  unfold mkdirsSync. destruct (fs_existsSync w st dirpath); [exists []; reflexivity|].
  destruct (mkdirs_fold_calls w (Js.split "/" dirpath) (st, Ok None)) as (made & E).
  exists made. destruct (fold_left _ _ _) as [st' [p|e]]; exact E.
Qed.

(** On a disk where [fs.mkdirSync] never fails, [mkdirsSync] never throws. *)
Lemma mkdirsSync_succeeds (w : World) (st : State) (dirpath : string) :
  (forall p, mkdirSync w p = None) ->
  exists made, snd (mkdirsSync w st dirpath) = Ok made.
Proof.
  intros Can. unfold mkdirsSync.
  destruct (fs_existsSync w st dirpath); [exists false; reflexivity|].
  assert (G : forall parts acc,
             (exists p, snd acc = Ok p) ->
             exists p, snd (fold_left (mkdirs_visit w) parts acc) = Ok p).
  { induction parts as [|s parts IH]; intros acc H; [exact H|].
    cbn [fold_left]. apply IH. destruct acc as [s0 [pathtmp|err]];
      [|destruct H; discriminate].
    cbn [mkdirs_visit].
    match goal with |- context [fs_existsSync w s0 ?p] =>
      destruct (fs_existsSync w s0 p); [eexists; reflexivity|];
      rewrite (Can p); eexists; reflexivity
    end. }
  destruct (G (Js.split "/" dirpath) (st, Ok None)) as (p & E);
    [eexists; reflexivity|].
  destruct (fold_left _ _ _) as [st' [p'|e]]; [exists true; reflexivity|].
  discriminate.
Qed.

(** Everything a transformation can change: it may push the node's offset,
    may merge the user config into the shared default config, may log and
    may call the file system; the other fields of [this] stay. *)
Lemma processOutputHtml_frame (w : World) (st : State) (html : string) (node : Node) :
  let st' := fst (processOutputHtml w st html node) in
  userConfig st' = userConfig st
  /\ imageLimit st' = imageLimit st
  /\ basePath st' = basePath st
  /\ outputPath st' = outputPath st
  /\ files st' = files st
  /\ (svgoDefaultConfig st' = svgoDefaultConfig st
      \/ svgoDefaultConfig st'
         = Object_assign (svgoDefaultConfig st) (userConfig st))
  /\ (processedImages st' = processedImages st
      \/ exists loc,
           location node = Some loc
           /\ processedImages st' = processedImages st ++ [startOffset loc]).
Proof.
  assert (Done : forall st' : State,
             userConfig st' = userConfig st ->
             imageLimit st' = imageLimit st ->
             basePath st' = basePath st ->
             outputPath st' = outputPath st ->
             files st' = files st ->
             svgoDefaultConfig st' = svgoDefaultConfig st
             \/ svgoDefaultConfig st'
                = Object_assign (svgoDefaultConfig st) (userConfig st) ->
             processedImages st' = processedImages st
             \/ (exists loc,
                    location node = Some loc
                    /\ processedImages st' = processedImages st ++ [startOffset loc]) ->
             userConfig st' = userConfig st
             /\ imageLimit st' = imageLimit st
             /\ basePath st' = basePath st
             /\ outputPath st' = outputPath st
             /\ files st' = files st
             /\ (svgoDefaultConfig st' = svgoDefaultConfig st
                 \/ svgoDefaultConfig st'
                    = Object_assign (svgoDefaultConfig st) (userConfig st))
             /\ (processedImages st' = processedImages st
                 \/ exists loc,
                      location node = Some loc
                      /\ processedImages st' = processedImages st ++ [startOffset loc]))
    by tauto.
  cbv zeta.
  unfold processOutputHtml, replaceImageWithSVG, replaceImageWithBase64,
    moveStaticImage.
  destruct (negb _); [apply Done; cbn; tauto|].
  destruct (has _ ".svg").
  - destruct (location node) as [loc|]; destruct (readFile w _);
      destruct (svgo_optimize w _ _); apply Done; cbn; try tauto;
      right; exists loc; tauto.
  - destruct (statSync_size w _) as [size|]; [|apply Done; cbn; tauto].
    destruct (imageLimit st <=? size)%N.
    + destruct (get (userConfig st) "basePath") as [[| | |dir|]|];
        try (apply Done; cbn; tauto).
      rewrite mkdirsSync_when_missing.
      destruct (mkdirsSync_calls w st (path_resolve w ["dist"; dir])) as (made & M).
      destruct (mkdirsSync w st _) as [st1 [ok|err]]; cbn [fst] in M; subst st1;
        destruct (fs_calls_fields (map MkdirSync made) st)
          as (U & L & B & O & F & S & P & C & D);
        destruct (location node) as [loc|]; apply Done; cbn; try tauto;
        right; exists loc; rewrite P; tauto.
    + destruct (readFileSync w _); [|apply Done; cbn; tauto].
      destruct (location node) as [loc|]; apply Done; cbn; try tauto.
      right; exists loc; tauto.
Qed.

Section Runs.

Variable w : World.
Variable Q : State -> Prop.
Hypothesis Q_transform :
  forall st html node, Q st -> Q (fst (processOutputHtml w st html node)).
Hypothesis Q_log : forall st line, Q st -> Q (console_log st line).

Lemma processImage_preserves (st : State) (html : option string) :
  Q st -> Q (fst (processImage w st html)).
Proof.
  intros H. unfold processImage. destruct html as [h|]; [|exact H].
  destruct (getFirstInlineImage w st _) as [[c|]|e];
    [apply Q_transform| |]; exact H.
Qed.

Lemma updateHTML_turn_preserves (acc : State * Promise (option string))
    (imageNode : Node) :
  Q (fst acc) -> Q (fst (updateHTML_turn w acc imageNode)).
Proof.
  destruct acc as [st [h|e|]]; cbn [fst updateHTML_turn]; intros H.
  - pose proof (processImage_preserves st h H) as P.
    destruct (processImage w st h) as [st' [h'|e|]]; cbn [fst] in *;
      [exact P|apply Q_log; exact P|exact P].
  - apply Q_log. exact H.
  - exact H.
Qed.

Lemma updateHTML_fold_preserves (inlineImages : list Node) :
  forall acc, Q (fst acc) ->
              Q (fst (fold_left (updateHTML_turn w) inlineImages acc)).
Proof.
  induction inlineImages as [|n l IH]; intros acc H; [exact H|].
  cbn [fold_left]. apply IH, updateHTML_turn_preserves, H.
Qed.

(** What every transformation and every log line preserve, a whole run
    over a document preserves. *)
Lemma processImages_preserves (st : State) (html : string) :
  Q st -> Q (fst (processImages w st html)).
Proof.
  intros H. unfold processImages.
  destruct (getInlineImages w st _ []) as [[|n l]|e]; [exact H| |exact H].
  pose proof (updateHTML_fold_preserves (n :: l) (st, Fulfilled (Some html)) H) as P.
  fold (updateHTML w st html (n :: l)) in P.
  destruct (updateHTML w st html (n :: l)) as [st' [h|e|]]; cbn [fst] in *;
    [exact P|do 2 apply Q_log; exact P|exact P].
Qed.

End Runs.


(** An svg transformation merges the user config into the shared default
    config, whatever becomes of the read, the optimisation and the node. *)
Lemma processOutputHtml_merges (w : World) (st : State) (html : string)
    (node : Node) :
  has (getImagesSrc node) ".svg" = true ->
  svgoDefaultConfig (fst (processOutputHtml w st html node))
  = Object_assign (svgoDefaultConfig st) (userConfig st).
Proof.
  intros SVG. unfold processOutputHtml, replaceImageWithSVG.
  rewrite (has_nonEmpty _ ".svg" dot_svg_nonempty SVG), SVG. cbn [negb].
  destruct (location node) as [loc|]; destruct (readFile w _);
    destruct (svgo_optimize w _ _); reflexivity.
Qed.


(** ** At most one attempt per node *)

(** When the transformer records the offset: always in the svg branch, and
    in the raster branch when nothing throws. *)
Lemma processOutputHtml_pushes (w : World) (st : State) (html : string)
    (node : Node) (loc : Location) :
  location node = Some loc ->
  Js.nonEmpty (getImagesSrc node) = true ->
  let st' := fst (processOutputHtml w st html node) in
  let pushed := processedImages st ++ [startOffset loc] in
  if has (getImagesSrc node) ".svg" then processedImages st' = pushed
  else match snd (processOutputHtml w st html node) with
       | Fulfilled _ => processedImages st' = pushed
       | _ => processedImages st' = processedImages st
       end.
Proof.
  intros Loc NE. rewrite (processOutputHtml_located w st html node loc Loc).
  cbv zeta. rewrite NE. cbn [negb].
  destruct (has _ ".svg").
  - destruct (svgo_optimize w _ _), (readFile w _); reflexivity.
  - destruct (statSync_size w _) as [size|]; [|reflexivity].
    destruct (imageLimit st <=? size)%N.
    + destruct (get (userConfig st) "basePath") as [[| | |dir|]|]; try reflexivity.
      destruct (mkdirsSync_calls w st (path_resolve w ["dist"; dir])) as (made & M).
      destruct (mkdirsSync w st _) as [st1 [ok|err]]; cbn [fst] in M; subst st1;
        destruct (fs_calls_fields (map MkdirSync made) st)
          as (_ & _ & _ & _ & _ & _ & P & _);
        cbn; rewrite P; reflexivity.
    + destruct (readFileSync w _); reflexivity.
Qed.

Lemma attempts_undefined (w : World) (l : list Node) :
  forall st, attempts w (st, Fulfilled None) l = [].
Proof.
  induction l as [|n l IH]; intros st; [reflexivity|].
  cbn [attempts attempted updateHTML_turn processImage app]. apply IH.
Qed.

Lemma attempts_pending (w : World) (l : list Node) :
  forall st, attempts w (st, Pending) l = [].
Proof.
  induction l as [|n l IH]; intros st; [reflexivity|].
  cbn [attempts attempted updateHTML_turn app]. apply IH.
Qed.

(** [attempted] is the node a turn hands to the transformer: the turn is
    the transformation of that node, or leaves everything as it is when
    there is none. *)
Lemma attempted_is_transformed (w : World) (st : State) (html : string)
    (imageNode : Node) :
  match attempted w (st, Fulfilled (Some html)) with
  | inlineImage :: _ =>
      updateHTML_turn w (st, Fulfilled (Some html)) imageNode
      = match processOutputHtml w st html inlineImage with
        | (st', Fulfilled html') => (st', Fulfilled (Some html'))
        | (st', Rejected err) => (console_log st' err, Fulfilled None)
        | (st', Pending) => (st', Pending)
        end
  | [] =>
      updateHTML_turn w (st, Fulfilled (Some html)) imageNode
      = match getFirstInlineImage w st (parseFragment w html) with
        | Throw err => (console_log st err, Fulfilled None)
        | Ok _ => (st, Fulfilled (Some html))
        end
  end.
Proof.
  cbn [attempted updateHTML_turn processImage].
  destruct (getFirstInlineImage w st (parseFragment w html)) as [[c|]|e];
    reflexivity.
Qed.

(** The nodes tried in a run carry a location; their offsets are pairwise
    distinct, none was in the set when the run began, and there is at most
    one per turn. *)
Lemma attempts_distinct (w : World) (l : list Node) :
  forall acc,
    NoDup (offsets (attempts w acc l))
    /\ (forall o, In o (offsets (attempts w acc l)) ->
                  ~ In o (processedImages (fst acc)))
    /\ length (attempts w acc l) <= length l
    /\ Forall (fun node => location node <> None) (attempts w acc l).
Proof.
  assert (Nil : forall (st : State) (n : nat),
             NoDup (offsets [])
             /\ (forall o, In o (offsets []) -> ~ In o (processedImages st))
             /\ length (@nil Node) <= n
             /\ Forall (fun node => location node <> None) []).
  { intros st n. split; [constructor|]. split; [intros ? []|].
    split; [simpl; lia|constructor]. }
  induction l as [|n l IH]; intros acc.
  - apply (Nil (fst acc)).
  - destruct acc as [st [[h|]|e|]].
    + cbn [attempts attempted updateHTML_turn processImage].
      destruct (getFirstInlineImage w st (parseFragment w h)) as [[c|]|e] eqn:F.
      * pose proof (getFirstInlineImage_eligible w st h c F) as V.
        destruct (eligible_fresh w st c V) as (loc & Loc & Fresh).
        pose proof (processOutputHtml_pushes w st h c loc Loc
                      (eligible_src_nonEmpty w st c V)) as P.
        cbv zeta in P.
        assert (O : forall rest, offsets (c :: rest) = startOffset loc :: offsets rest).
        { intros rest. unfold offsets. cbn [flat_map]. rewrite Loc. reflexivity. }
        assert (Lc : location c <> None) by congruence.
        destruct (processOutputHtml w st h c) as [st' [h'|e|]] eqn:R;
          cbn [fst snd] in P.
        -- assert (Pu : processedImages st'
                        = processedImages st ++ [startOffset loc])
             by (destruct (has _ ".svg"); exact P).
           destruct (IH (st', Fulfilled (Some h'))) as (D & Fr & Le & Lo).
           cbn [fst] in Fr. cbn [app]. rewrite O.
           split; [|split; [|split]].
           ++ constructor; [|exact D]. intros I. apply (Fr _ I).
              rewrite Pu. apply in_or_app. right. left. reflexivity.
           ++ intros o [<-|I]; [exact Fresh|].
              intros H. apply (Fr _ I). rewrite Pu. apply in_or_app. left. exact H.
           ++ cbn [length]. lia.
           ++ constructor; assumption.
        -- rewrite attempts_undefined. cbn [app fst]. rewrite O.
           split; [constructor; [intros []|constructor]|].
           split; [intros o [<-|[]]; exact Fresh|].
           split; [simpl; lia|repeat constructor; exact Lc].
        -- rewrite attempts_pending. cbn [app fst]. rewrite O.
           split; [constructor; [intros []|constructor]|].
           split; [intros o [<-|[]]; exact Fresh|].
           split; [simpl; lia|repeat constructor; exact Lc].
      * cbn [app]. destruct (IH (st, Fulfilled (Some h))) as (D & Fr & Le & Lo).
        split; [exact D|]. split; [exact Fr|]. split; [simpl; lia|exact Lo].
      * cbn [app]. rewrite attempts_undefined. apply (Nil st).
    + cbn [attempts attempted app]. cbn [updateHTML_turn processImage].
      rewrite attempts_undefined. apply (Nil st).
    + cbn [attempts attempted app updateHTML_turn].
      rewrite attempts_undefined. apply (Nil st).
    + cbn [attempts attempted app updateHTML_turn].
      rewrite attempts_pending. apply (Nil st).
Qed.

(** X14: no node is handed to the transformer twice in a run.  The
    transformer records the start offset of the node it is given in
    [processedImages] in the same invocation, for an svg source whatever
    becomes of the read and the optimisation, for a raster source when its
    promise is fulfilled; a node whose start offset is in the set is not
    eligible, and the set only grows during a run; so the nodes handed to
    the transformer in one run carry locations whose start offsets are
    pairwise distinct and were not in the set before, and they are at most
    as many as the candidates. *)
Theorem each_node_attempted_at_most_once (w : World) (st : State) (html : string) :
  (forall node loc,
      location node = Some loc ->
      has (getImagesSrc node) ".svg" = true ->
      processedImages (fst (processOutputHtml w st html node))
      = processedImages st ++ [startOffset loc])
  /\ (forall node loc html',
         location node = Some loc ->
         snd (processOutputHtml w st html node) = Fulfilled html' ->
         Js.nonEmpty (getImagesSrc node) = true ->
         processedImages (fst (processOutputHtml w st html node))
         = processedImages st ++ [startOffset loc])
  /\ (forall node loc,
         location node = Some loc ->
         In (startOffset loc) (processedImages st) ->
         isNodeValidInlineImage w st node = Ok false)
  /\ (forall inlineImages offset,
         In offset (processedImages st) ->
         In offset (processedImages (fst (updateHTML w st html inlineImages))))
  /\ (forall inlineImages,
         let tried := attempts w (st, Fulfilled (Some html)) inlineImages in
         NoDup (offsets tried)
         /\ (forall offset, In offset (offsets tried) ->
                            ~ In offset (processedImages st))
         /\ length tried <= length inlineImages
         /\ Forall (fun node => location node <> None) tried).
Proof.
  split; [|split; [|split; [|split]]].
  - intros node loc Loc SVG.
    pose proof (processOutputHtml_pushes w st html node loc Loc
                  (has_nonEmpty _ _ dot_svg_nonempty SVG)) as P.
    cbv zeta in P. rewrite SVG in P. exact P.
  - intros node loc html' Loc F NE.
    pose proof (processOutputHtml_pushes w st html node loc Loc NE) as P.
    cbv zeta in P. rewrite F in P.
    destruct (has (getImagesSrc node) ".svg"); exact P.
  - intros node loc Loc I. unfold isNodeValidInlineImage. rewrite Loc.
    apply includes_In in I. rewrite I. reflexivity.
  - intros inlineImages offset I. unfold updateHTML.
    apply (updateHTML_fold_preserves w
             (fun s => In offset (processedImages s))); [| |exact I].
    + intros s h n H.
      destruct (processOutputHtml_frame w s h n)
        as (_ & _ & _ & _ & _ & _ & [E|(loc & _ & E)]);
        rewrite E; [exact H|apply in_or_app; left; exact H].
    + intros s line H. exact H.
  - intros inlineImages. apply (attempts_distinct w inlineImages (st, _)).
Qed.

(** ** The raster strategies *)

(** C4, as the code has it: for an eligible image whose source holds no
    .svg (so .png or .jpg) and whose size is known, at [imageLimit] bytes
    or more the image is never inlined: when the base path the transformer
    reads is a string and the directory resolved from dist and that base
    path is there or can be made, the file is piped to the path resolved
    from dist, the base path and the file name, and the element becomes an
    img on ./ followed by the base path and the file name, and no other
    fulfilment is possible; below [imageLimit], when the file can be read
    and a mime type is found for its path, the element becomes an img on
    the data URI of that type and the base64 content and nothing is copied,
    and no fulfilment is possible without reading the file.  The limit is
    5148 when the option is absent or zero. *)
Theorem raster_threshold (w : World) (st : State) (html : string) (node : Node)
    (size : N) :
  isNodeValidInlineImage w st node = Ok true ->
  ~ contains (getImagesSrc node) ".svg" ->
  statSync_size w (path_resolve w ["src"; getImagesSrc node]) = Ok size ->
  let src := getImagesSrc node in
  let file := path_resolve w ["src"; src] in
  let fileName := lastOf (Js.split "/" src) in
  let result := processOutputHtml w st html node in
  exists loc,
    location node = Some loc
    /\ (contains src ".png" \/ contains src ".jpg")
    /\ ((imageLimit st <= size)%N ->
        (forall dir made,
            get (userConfig st) "basePath" = Some (JsString dir) ->
            snd (mkdirsSync w st (path_resolve w ["dist"; dir])) = Ok made ->
            snd result
            = Fulfilled (splice html loc (img_tag ("./" +++ dir +++ fileName)))
            /\ In (Pipe file (path_resolve w ["dist"; dir; fileName]))
                  (disk (fst result)))
        /\ (forall html',
               snd result = Fulfilled html' ->
               exists dir,
                 get (userConfig st) "basePath" = Some (JsString dir)
                 /\ html' = splice html loc (img_tag ("./" +++ dir +++ fileName))
                 /\ In (Pipe file (path_resolve w ["dist"; dir; fileName]))
                       (disk (fst result))))
    /\ ((size < imageLimit st)%N ->
        (forall image mime,
            readFileSync w file = Ok image ->
            mime_lookup w file = Some mime ->
            snd result
            = Fulfilled
                (splice html loc
                   (img_tag ("data:" +++ mime +++ ";base64," +++ toBase64 w image)))
            /\ disk (fst result) = disk st)
        /\ (forall html',
               snd result = Fulfilled html' ->
               exists image,
                 readFileSync w file = Ok image
                 /\ disk (fst result) = disk st
                 /\ forall mime,
                      mime_lookup w file = Some mime ->
                      html'
                      = splice html loc
                          (img_tag ("data:" +++ mime +++ ";base64,"
                                    +++ toBase64 w image))))
    /\ (forall options defaults out calls,
           opt_imageLimit options = None \/ opt_imageLimit options = Some 0%N ->
           imageLimit (constructor options defaults out calls) = 5148%N).
Proof.
  intros V NoSvg Stat src file fileName result.
  subst result fileName file src.
  assert (Raster : has (getImagesSrc node) ".svg" = false).
  { destruct (has (getImagesSrc node) ".svg") eqn:H; [|reflexivity].
    exfalso. apply NoSvg. apply has_contains in H; [exact H|discriminate]. }
  assert (NE : Js.nonEmpty (getImagesSrc node) = true)
    by (eapply eligible_src_nonEmpty; exact V).
  destruct (eligible_fresh w st node V) as (loc & Loc & _).
  exists loc. split; [exact Loc|].
  rewrite (processOutputHtml_located w st html node loc Loc). cbv zeta.
  rewrite NE, Raster, Stat. cbn [negb].
  split; [|split; [|split]].
  - destruct (eligible_image_source w st node V) as [S|[P|J]]; tauto.
  - intros Large. apply N.leb_le in Large. rewrite Large. split.
    + intros dir made B M. rewrite B.
      destruct (mkdirsSync w st _) as [st1 [ok|err]]; cbn [snd] in M;
        [|discriminate].
      cbn [fst snd]. split; [reflexivity|].
      cbn [push_processedImages fs_call disk]. apply in_or_app. right. left.
      reflexivity.
    + intros html' H.
      destruct (get (userConfig st) "basePath") as [[| | |dir|]|];
        cbn [snd] in H; try discriminate.
      destruct (mkdirsSync w st _) as [st1 [ok|err]]; cbn [snd] in H;
        [|discriminate].
      injection H as <-. exists dir. split; [reflexivity|]. split; [reflexivity|].
      cbn [fst push_processedImages fs_call disk]. apply in_or_app. right. left.
      reflexivity.
  - intros Small. apply N.leb_gt in Small. rewrite Small. split.
    + intros image mime R M. rewrite R, M. split; reflexivity.
    + intros html' H.
      destruct (readFileSync w (path_resolve w ["src"; getImagesSrc node]))
        as [image|]; cbn [snd] in H; [|discriminate].
      injection H as <-. exists image. split; [reflexivity|].
      split; [reflexivity|]. intros mime ->. reflexivity.
  - intros options defaults out calls [O|O]; unfold constructor;
      cbn [imageLimit]; rewrite O; reflexivity.
Qed.

(** ** A failing optimiser *)

(** A failed optimisation of a readable svg is logged and nothing more:
    the promise of the transformer is never settled. *)
Lemma optimizer_failure_never_settles (w : World) (st : State) (html : string)
    (node : Node) (loc : Location) (data : string) (message : Error) :
  location node = Some loc ->
  has (getImagesSrc node) ".svg" = true ->
  readFile w (path_resolve w ["src"; getImagesSrc node]) = Ok data ->
  svgo_optimize w
    (lodash_map_entries (Object_assign (svgoDefaultConfig st) (userConfig st)))
    (Some data) = Throw message ->
  snd (processOutputHtml w st html node) = Pending
  /\ console (fst (processOutputHtml w st html node)) = console st ++ [message].
Proof.
  intros Loc SVG R O. rewrite (processOutputHtml_located w st html node loc Loc).
  cbv zeta.
  rewrite (has_nonEmpty _ _ dot_svg_nonempty SVG), SVG, R. cbn [negb].
  rewrite O. split; reflexivity.
Qed.

(** Once a turn is left pending, no later turn of the run does anything. *)
Lemma pending_run_stalls (w : World) (l : list Node) (st : State) :
  fold_left (updateHTML_turn w) l (st, Pending) = (st, Pending).
Proof. induction l as [|n l IH]; [reflexivity|exact IH]. Qed.

(** * Worked examples *)

(** ** The classifier and the walk *)

Example logo_is_eligible :
  isNodeValidInlineImage Demo.w (Demo.plugin []) (Demo.img "logo.svg" 5 25) = Ok true
  /\ first_candidate Demo.w (Demo.plugin []) Demo.logo_page
     = Some (Demo.img "logo.svg" 5 25)
  /\ getFirstInlineImage Demo.w (Demo.plugin []) (Demo.parse Demo.logo_page)
     = Ok (Some (Demo.img "logo.svg" 5 25)).
Proof. repeat split. Qed.

(** ** C1 *)

(** C1 fails on the code: a png that exists but may not be read.  The node
    is eligible and is handed to the transformer; reading the file throws
    inside the executor, before the push at its end, so the promise is
    rejected and the start offset is not recorded: the state is as it was
    and the node is still eligible.  An svg that may not be read is
    recorded all the same, as its read fails after the push. *)
Theorem unreadable_raster_is_not_recorded :
  getFirstInlineImage Demo.w (Demo.plugin []) (Demo.parse Demo.locked_page)
  = Ok (Some (Demo.img "locked.png" 0 22))
  /\ isNodeValidInlineImage Demo.w (Demo.plugin []) (Demo.img "locked.png" 0 22)
     = Ok true
  /\ processOutputHtml Demo.w (Demo.plugin []) Demo.locked_page
       (Demo.img "locked.png" 0 22)
     = (Demo.plugin [], Rejected "EACCES: permission denied")
  /\ ~ In 0 (processedImages
               (fst (processOutputHtml Demo.w (Demo.plugin []) Demo.locked_page
                       (Demo.img "locked.png" 0 22))))
  /\ isNodeValidInlineImage Demo.w
       (fst (processOutputHtml Demo.w (Demo.plugin []) Demo.locked_page
               (Demo.img "locked.png" 0 22)))
       (Demo.img "locked.png" 0 22)
     = Ok true
  /\ snd (processOutputHtml Demo.w (Demo.plugin []) Demo.locked_svg_page
            (Demo.img "locked.svg" 0 22))
     = Rejected "EACCES: permission denied"
  /\ processedImages
       (fst (processOutputHtml Demo.w (Demo.plugin []) Demo.locked_svg_page
               (Demo.img "locked.svg" 0 22)))
     = [0].
Proof.
  split; [reflexivity|]. split; [reflexivity|]. split; [reflexivity|].
  split; [vm_compute; intros []|]. repeat split.
Qed.

Lemma each_node_attempted_at_most_once_witness :
  getInlineImages Demo.w (Demo.plugin []) (Demo.parse Demo.three_page) []
  = Ok [Demo.img "logo.svg" 0 20; Demo.img "logo.svg" 20 40; Demo.img "dot.png" 40 59]
  /\ offsets (attempts Demo.w (Demo.plugin [], Fulfilled (Some Demo.three_page))
                [Demo.img "logo.svg" 0 20; Demo.img "logo.svg" 20 40;
                 Demo.img "dot.png" 40 59])
     = [0; 13; 26]
  /\ NoDup (offsets (attempts Demo.w
                       (Demo.plugin [], Fulfilled (Some Demo.three_page))
                       [Demo.img "logo.svg" 0 20; Demo.img "logo.svg" 20 40;
                        Demo.img "dot.png" 40 59])).
Proof.
  split; [vm_compute; reflexivity|]. split; [vm_compute; reflexivity|].
  apply (each_node_attempted_at_most_once Demo.w (Demo.plugin []) Demo.three_page).
Defined.

(** ** C2 *)


Lemma processImage_splices_fresh_span_witness :
  getFirstInlineImage Demo.w (Demo.plugin []) (parseFragment Demo.w Demo.logo_page)
  = Ok (Some (Demo.img "logo.svg" 5 25))
  /\ replacement Demo.w (Demo.plugin []) (Demo.img "logo.svg" 5 25) "<svg>OK</svg>"
  /\ snd (processImage Demo.w (Demo.plugin []) (Some Demo.logo_page))
     = Fulfilled "<div><svg>OK</svg></div>".
Proof.
  assert (R : replacement Demo.w (Demo.plugin []) (Demo.img "logo.svg" 5 25)
                "<svg>OK</svg>").
  { exists "<svg>OK</svg>". split; reflexivity. }
  split; [reflexivity|]. split; [exact R|].
  exact (proj1 (proj2 (proj2 (processImage_splices_fresh_span Demo.w (Demo.plugin [])
                                Demo.logo_page)))
           (Demo.img "logo.svg" 5 25) (mkLocation 5 25) "<svg>OK</svg>"
           eq_refl eq_refl R).
Defined.

(** ** C3 *)

Lemma no_candidates_document_unchanged_witness :
  ((forall node,
       In node (descendants (parseFragment Demo.w (html (Demo.page Demo.missing_page)))) ->
       isNodeValidInlineImage Demo.w (Demo.plugin []) node <> Ok true)
   /\ processImages Demo.w (Demo.plugin []) Demo.missing_page
      = (Demo.plugin [], Fulfilled None))
  /\ ((forall node,
          In node (descendants
                     (parseFragment Demo.w_tables (html (Demo.page Demo.cells_page)))) ->
          isNodeValidInlineImage Demo.w_tables (Demo.plugin []) node <> Ok true)
      /\ processImages Demo.w_tables (Demo.plugin []) Demo.cells_page
         = (Demo.plugin [], Rejected location_TypeError)
      /\ snd (afterHtmlProcessing Demo.w_tables (Demo.plugin [])
                (Demo.page Demo.cells_page))
         = Fulfilled (Demo.page Demo.cells_page)
      /\ disk (fst (afterHtmlProcessing Demo.w_tables (Demo.plugin [])
                      (Demo.page Demo.cells_page)))
         = [])
  /\ disk (fst (updateOutputFile Demo.w
                  (set_outputPath (Demo.late_plugin []) "/dist") None "index.html"))
     = [].
Proof.
  assert (H : forall node,
             In node (descendants
                        (parseFragment Demo.w (html (Demo.page Demo.missing_page)))) ->
             isNodeValidInlineImage Demo.w (Demo.plugin []) node <> Ok true).
  { intros node I. vm_compute in I. destruct I as [<-|[]]. discriminate. }
  assert (T : forall node,
             In node (descendants
                        (parseFragment Demo.w_tables
                           (html (Demo.page Demo.cells_page)))) ->
             isNodeValidInlineImage Demo.w_tables (Demo.plugin []) node <> Ok true).
  { intros node I. vm_compute in I.
    destruct I as [<-|[<-|[<-|[<-|[<-|[]]]]]]; discriminate. }
  destruct (no_candidates_document_unchanged Demo.w (Demo.plugin [])
              (Demo.page Demo.missing_page) H) as (_ & A & _ & _ & _ & _ & C).
  destruct (no_candidates_document_unchanged Demo.w_tables (Demo.plugin [])
              (Demo.page Demo.cells_page) T) as (_ & _ & _ & B & D & _ & _).
  split; [split; [exact H|]|split; [split; [exact T|]|]].
  - apply A. intros node I. vm_compute in I. destruct I as [<-|[]]. discriminate.
  - split; [reflexivity|]. split; [exact B|exact D].
  - rewrite C. reflexivity.
Defined.

(** ** C4 *)

(** The claim as stated fails on a png whose name also holds .svg: it is
    eligible, its source contains .png, it is smaller than the limit and
    readable, yet it is handed to the optimiser and not inlined as a data
    URI (here the optimiser rejects the png bytes and the promise is never
    settled). *)
Lemma raster_named_svg_is_not_inlined :
  isNodeValidInlineImage Demo.w (Demo.plugin []) (Demo.img "chart.svg.png" 0 25)
  = Ok true
  /\ first_candidate Demo.w (Demo.plugin []) Demo.chart_page
     = Some (Demo.img "chart.svg.png" 0 25)
  /\ contains (getImagesSrc (Demo.img "chart.svg.png" 0 25)) ".png"
  /\ statSync_size Demo.w (path_resolve Demo.w ["src"; "chart.svg.png"]) = Ok 4%N
  /\ (4 < imageLimit (Demo.plugin []))%N
  /\ readFileSync Demo.w (path_resolve Demo.w ["src"; "chart.svg.png"]) = Ok "!PNG"
  /\ snd (processOutputHtml Demo.w (Demo.plugin []) Demo.chart_page
            (Demo.img "chart.svg.png" 0 25))
     = Pending
  /\ snd (processOutputHtml Demo.w (Demo.plugin []) Demo.chart_page
            (Demo.img "chart.svg.png" 0 25))
     <> Fulfilled (splice Demo.chart_page (mkLocation 0 25)
                     (img_tag ("data:image/png;base64," +++ toBase64 Demo.w "!PNG"))).
Proof.
  split; [reflexivity|]. split; [reflexivity|].
  split; [exists "chart.svg", EmptyString; reflexivity|].
  split; [reflexivity|]. split; [reflexivity|]. split; [reflexivity|].
  split; [reflexivity|]. vm_compute. discriminate.
Qed.

Lemma not_svg (src : string) : has src ".svg" = false -> ~ contains src ".svg".
Proof.
  intros H C. apply has_contains in C; [congruence|discriminate].
Qed.

Lemma raster_threshold_witness :
  (isNodeValidInlineImage Demo.w
     (getUserConfig (Demo.plugin []) (Demo.page_with_basePath Demo.photo_page "static/"))
     (Demo.img "photo.png" 3 24) = Ok true
   /\ ~ contains (getImagesSrc (Demo.img "photo.png" 3 24)) ".svg"
   /\ statSync_size Demo.w (path_resolve Demo.w ["src"; "photo.png"]) = Ok 10000%N
   /\ (5148 <= 10000)%N)
  /\ snd (processOutputHtml Demo.w
            (getUserConfig (Demo.plugin [])
               (Demo.page_with_basePath Demo.photo_page "static/"))
            Demo.photo_page (Demo.img "photo.png" 3 24))
     = Fulfilled ("<p>" +++ img_tag "./static/photo.png" +++ "</p>")
  /\ In (Pipe "/src/photo.png" "/dist/static/photo.png")
        (disk (fst (processOutputHtml Demo.w
                      (getUserConfig (Demo.plugin [])
                         (Demo.page_with_basePath Demo.photo_page "static/"))
                      Demo.photo_page (Demo.img "photo.png" 3 24))))
  /\ (isNodeValidInlineImage Demo.w (Demo.plugin []) (Demo.img "dot.png" 0 19) = Ok true
      /\ ~ contains (getImagesSrc (Demo.img "dot.png" 0 19)) ".svg"
      /\ statSync_size Demo.w (path_resolve Demo.w ["src"; "dot.png"]) = Ok 3%N
      /\ (3 < 5148)%N)
  /\ snd (processOutputHtml Demo.w (Demo.plugin []) Demo.dot_page
            (Demo.img "dot.png" 0 19))
     = Fulfilled (img_tag "data:image/png;base64,TWFu").
Proof.
  assert (V1 : isNodeValidInlineImage Demo.w
                 (getUserConfig (Demo.plugin [])
                    (Demo.page_with_basePath Demo.photo_page "static/"))
                 (Demo.img "photo.png" 3 24) = Ok true) by reflexivity.
  assert (N1 : ~ contains (getImagesSrc (Demo.img "photo.png" 3 24)) ".svg")
    by (apply not_svg; reflexivity).
  assert (S1 : statSync_size Demo.w (path_resolve Demo.w ["src"; "photo.png"])
               = Ok 10000%N) by (vm_compute; reflexivity).
  assert (L1 : (5148 <= 10000)%N) by lia.
  assert (V2 : isNodeValidInlineImage Demo.w (Demo.plugin [])
                 (Demo.img "dot.png" 0 19) = Ok true) by reflexivity.
  assert (N2 : ~ contains (getImagesSrc (Demo.img "dot.png" 0 19)) ".svg")
    by (apply not_svg; reflexivity).
  assert (S2 : statSync_size Demo.w (path_resolve Demo.w ["src"; "dot.png"])
               = Ok 3%N) by reflexivity.
  assert (L2 : (3 < 5148)%N) by lia.
  destruct (raster_threshold Demo.w _ Demo.photo_page _ _ V1 N1 S1)
    as (loc1 & Loc1 & _ & Large & _ & _).
  injection Loc1 as <-.
  destruct (proj1 (Large L1) "static/" true eq_refl eq_refl) as (Moved & Piped).
  destruct (raster_threshold Demo.w _ Demo.dot_page _ _ V2 N2 S2)
    as (loc2 & Loc2 & _ & _ & Small & _).
  injection Loc2 as <-.
  destruct (proj1 (Small L2) "Man" "image/png" eq_refl eq_refl) as (Inlined & _).
  split; [tauto|]. split; [exact Moved|]. split; [exact Piped|].
  split; [tauto|]. exact Inlined.
Defined.

(** A relocation whose directory cannot be made is rejected with the
    error of [fs.mkdirSync]; what was made before it stays on the disk. *)
Example relocation_into_a_readonly_directory :
  processOutputHtml Demo.w_readonly
    (getUserConfig (Demo.plugin [])
       (Demo.page_with_basePath Demo.photo_page "static/"))
    Demo.photo_page (Demo.img "photo.png" 3 24)
  = (fs_call (getUserConfig (Demo.plugin [])
                (Demo.page_with_basePath Demo.photo_page "static/"))
       (MkdirSync "/dist"),
     Rejected "EACCES: permission denied, mkdir").
Proof. vm_compute. reflexivity. Qed.

(** A small image whose path has no known mime type is inlined with the
    text false in the place of the type. *)
Example inlined_without_mime_type :
  forall (w : World) (st : State) (html image : string) (node : Node)
         (loc : Location) (size : N),
    location node = Some loc ->
    Js.nonEmpty (getImagesSrc node) = true ->
    has (getImagesSrc node) ".svg" = false ->
    statSync_size w (path_resolve w ["src"; getImagesSrc node]) = Ok size ->
    (imageLimit st <=? size)%N = false ->
    readFileSync w (path_resolve w ["src"; getImagesSrc node]) = Ok image ->
    mime_lookup w (path_resolve w ["src"; getImagesSrc node]) = None ->
    snd (processOutputHtml w st html node)
    = Fulfilled (splice html loc (img_tag ("data:false;base64," +++ toBase64 w image))).
Proof.
  intros w st html image node loc size Loc NE R S L Rd M.
  rewrite (processOutputHtml_located w st html node loc Loc). cbv zeta.
  rewrite NE, R, S, L, Rd, M. reflexivity.
Qed.

(** ** C5 *)

(** C5 fails on the code: a document with a malformed svg followed by a
    good one.  The failure is logged, but the promise of the first
    transformation is never settled, so the run stops there: the second
    image is never attempted, the document gets no final buffer, and the
    hook never calls back.  On its own the second image is inlined. *)
Theorem optimizer_failure_stalls_the_document :
  getInlineImages Demo.w (Demo.plugin []) (Demo.parse Demo.two_svg_page) []
  = Ok [Demo.img "bad.svg" 0 19; Demo.img "logo.svg" 19 39]
  /\ snd (processImages Demo.w (Demo.plugin []) Demo.two_svg_page) = Pending
  /\ console (fst (processImages Demo.w (Demo.plugin []) Demo.two_svg_page))
     = ["Error in parsing SVG"]
  /\ attempts Demo.w (Demo.plugin [], Fulfilled (Some Demo.two_svg_page))
       [Demo.img "bad.svg" 0 19; Demo.img "logo.svg" 19 39]
     = [Demo.img "bad.svg" 0 19]
  /\ snd (afterHtmlProcessing Demo.w (Demo.plugin []) (Demo.page Demo.two_svg_page))
     = Pending
  /\ snd (processImages Demo.w (Demo.plugin []) "<img src='logo.svg'>")
     = Fulfilled (Some "<svg>OK</svg>").
Proof. repeat split; vm_compute; reflexivity. Qed.

(** ** C6 *)

(** C6 fails on the code: the plugin is made with [basePath: 'static/'],
    yet the transformer reads the base path from the user config.  With
    no svgo config the relocation throws and the document stays as it was;
    with [svgoConfig: { basePath: 'assets/' }] the image moves to assets
    and the constructor's option plays no part. *)
Theorem relocation_ignores_constructor_basePath :
  basePath (Demo.plugin []) = Some "static/"
  /\ snd (processOutputHtml Demo.w
            (getUserConfig (Demo.plugin []) (Demo.page Demo.photo_page))
            Demo.photo_page (Demo.img "photo.png" 3 24))
     = Rejected path_TypeError
  /\ snd (afterHtmlProcessing Demo.w (Demo.plugin []) (Demo.page Demo.photo_page))
     = Fulfilled (Demo.page Demo.photo_page)
  /\ snd (processOutputHtml Demo.w
            (getUserConfig (Demo.plugin [])
               (Demo.page_with_basePath Demo.photo_page "assets/"))
            Demo.photo_page (Demo.img "photo.png" 3 24))
     = Fulfilled ("<p>" +++ img_tag "./assets/photo.png" +++ "</p>")
  /\ disk (fst (processOutputHtml Demo.w
                  (getUserConfig (Demo.plugin [])
                     (Demo.page_with_basePath Demo.photo_page "assets/"))
                  Demo.photo_page (Demo.img "photo.png" 3 24)))
     = [MkdirSync "/dist"; MkdirSync "/dist/assets";
        Pipe "/src/photo.png" "/dist/assets/photo.png"].
Proof. repeat split; vm_compute; reflexivity. Qed.

(** [mkdirsSync] reads nothing of the state but the disk. *)
Lemma mkdirs_visit_ext (w : World) (a a' : State * Try (option string))
    (dirname : string) :
  snd a' = snd a -> disk (fst a') = disk (fst a) ->
  snd (mkdirs_visit w a' dirname) = snd (mkdirs_visit w a dirname)
  /\ disk (fst (mkdirs_visit w a' dirname)) = disk (fst (mkdirs_visit w a dirname)).
Proof.
  destruct a as [s0 [p|e]], a' as [s0' [p'|e']]; cbn [fst snd]; intros S D;
    try discriminate.
  - injection S as ->. unfold mkdirs_visit.
    match goal with |- context [fs_existsSync w s0 ?q] => set (pathtmp2 := q) end.
    assert (X : fs_existsSync w s0' pathtmp2 = fs_existsSync w s0 pathtmp2)
      by (unfold fs_existsSync; rewrite D; reflexivity).
    rewrite X. destruct (fs_existsSync w s0 pathtmp2); [tauto|].
    destruct (mkdirSync w pathtmp2); cbn [fst snd fs_call disk]; [tauto|].
    rewrite D. tauto.
  - injection S as ->. cbn. tauto.
Qed.

Lemma mkdirs_fold_ext (w : World) (parts : list string) :
  forall a a',
    snd a' = snd a -> disk (fst a') = disk (fst a) ->
    snd (fold_left (mkdirs_visit w) parts a')
    = snd (fold_left (mkdirs_visit w) parts a)
    /\ disk (fst (fold_left (mkdirs_visit w) parts a'))
       = disk (fst (fold_left (mkdirs_visit w) parts a)).
Proof.
  induction parts as [|s parts IH]; intros a a' S D; [tauto|].
  cbn [fold_left]. apply IH; apply mkdirs_visit_ext; assumption.
Qed.

Lemma mkdirsSync_ext (w : World) (st st' : State) (dirpath : string) :
  disk st' = disk st ->
  snd (mkdirsSync w st' dirpath) = snd (mkdirsSync w st dirpath).
Proof.
  intros D. unfold mkdirsSync.
  assert (X : fs_existsSync w st' dirpath = fs_existsSync w st dirpath)
    by (unfold fs_existsSync; rewrite D; reflexivity).
  rewrite X. destruct (fs_existsSync w st dirpath); [reflexivity|].
  destruct (mkdirs_fold_ext w (Js.split "/" dirpath) (st, Ok None) (st', Ok None)
              eq_refl D) as (S & _).
  destruct (fold_left (mkdirs_visit w) (Js.split "/" dirpath) (st', Ok None))
    as [s1 [p1|e1]],
    (fold_left (mkdirs_visit w) (Js.split "/" dirpath) (st, Ok None))
    as [s2 [p2|e2]]; cbn [snd] in *; congruence.
Qed.

(** The relocation never reads the option the constructor stored. *)
Lemma processOutputHtml_ignores_basePath (w : World) (st : State)
    (other : option string) (html : string) (node : Node) :
  snd (processOutputHtml w
         {| runPreEmit := runPreEmit st; basePath := other;
            userConfig := userConfig st; outputPath := outputPath st;
            files := files st; processedImages := processedImages st;
            imageLimit := imageLimit st;
            svgoDefaultConfig := svgoDefaultConfig st;
            console := console st; disk := disk st |} html node)
  = snd (processOutputHtml w st html node).
Proof.
  set (st' := {| runPreEmit := runPreEmit st; basePath := other;
                 userConfig := userConfig st; outputPath := outputPath st;
                 files := files st; processedImages := processedImages st;
                 imageLimit := imageLimit st;
                 svgoDefaultConfig := svgoDefaultConfig st;
                 console := console st; disk := disk st |}).
  assert (M : forall d, snd (mkdirsSync w st' d) = snd (mkdirsSync w st d))
    by (intros d; apply mkdirsSync_ext; reflexivity).
  unfold processOutputHtml, replaceImageWithSVG, replaceImageWithBase64,
    moveStaticImage.
  replace (userConfig st') with (userConfig st) by reflexivity.
  replace (imageLimit st') with (imageLimit st) by reflexivity.
  destruct (negb _); [reflexivity|].
  destruct (has _ ".svg").
  - destruct (location node); destruct (readFile w _);
      destruct (svgo_optimize w _ _); reflexivity.
  - destruct (statSync_size w _) as [size|]; [|reflexivity].
    destruct (imageLimit st <=? size)%N.
    + destruct (get (userConfig st) "basePath") as [[| | |dir|]|]; try reflexivity.
      rewrite !mkdirsSync_when_missing. specialize (M (path_resolve w ["dist"; dir])).
      destruct (mkdirsSync w st' _) as [s1 [m1|e1]],
        (mkdirsSync w st _) as [s2 [m2|e2]]; cbn [snd] in M; try discriminate.
      * destruct (location node); reflexivity.
      * cbn [snd]. congruence.
    + destruct (readFileSync w _); [|reflexivity].
      destruct (location node); reflexivity.
Qed.

(** ** C8 *)


(** A merged object with a numeric [length] is walked by index, whatever
    its keys are. *)
Example length_key_is_walked_by_index :
  lodash_map_entries
    (Object_assign [("a", JsNumber 1)] [("length", JsNumber 2)])
  = [[("0", JsUndefined)]; [("1", JsUndefined)]].
Proof. vm_compute. reflexivity. Qed.


(** ** C9 *)


(** ** C10 *)

Lemma missing_path_or_filename_aborts_witness :
  (missing (outputOptions_path {| outputOptions_path := None |})
   \/ missing (outputName (Demo.page Demo.logo_page)))
  /\ snd (afterEmitHtml (Demo.late_plugin []) {| outputOptions_path := None |}
            (Demo.page Demo.logo_page))
     = Demo.page Demo.logo_page
  /\ (exists message,
         console (fst (afterEmitHtml (Demo.late_plugin [])
                         {| outputOptions_path := None |}
                         (Demo.page Demo.logo_page)))
         = console (Demo.late_plugin []) ++ [message])
  /\ files (fst (afterEmitHtml (Demo.late_plugin [])
                   {| outputOptions_path := None |} (Demo.page Demo.logo_page)))
     = files (Demo.late_plugin [])
  /\ disk (fst (afterEmitHtml (Demo.late_plugin [])
                  {| outputOptions_path := None |} (Demo.page Demo.logo_page)))
     = disk (Demo.late_plugin []).
Proof.
  assert (M : missing (outputOptions_path {| outputOptions_path := None |})
              \/ missing (outputName (Demo.page Demo.logo_page))).
  { left. left. reflexivity. }
  split; [exact M|].
  destruct (missing_path_or_filename_aborts (Demo.late_plugin [])
              {| outputOptions_path := None |} (Demo.page Demo.logo_page) M)
    as (Back & Logged & Files & _ & _ & Disk & _ & _).
  split; [exact Back|]. split; [exact Logged|]. split; [exact Files|exact Disk].
Defined.

(** The other configuration error, and a well-configured document. *)
Example missing_filename_is_logged :
  afterEmitHtml (Demo.late_plugin []) {| outputOptions_path := Some "/dist" |}
    {| html := Demo.logo_page; outputName := None; svgoConfig := None |}
  = (console_log (set_outputPath (Demo.late_plugin []) "/dist")
       "no filename found on htmlPluginData.outputName",
     {| html := Demo.logo_page; outputName := None; svgoConfig := None |})
  /\ files (fst (afterEmitHtml (Demo.late_plugin [])
                   {| outputOptions_path := Some "/dist" |}
                   (Demo.page Demo.logo_page)))
     = [{| filename := "index.html"; originalHtml := Demo.logo_page |}].
Proof. split; reflexivity. Qed.

(** A base path given where the transformer reads it travels on into the
    plugin sequence handed to the optimiser. *)
Example basePath_in_user_config_reaches_svgo :
  lodash_map_entries
    (svgoDefaultConfig
       (fst (processOutputHtml Demo.w
               (getUserConfig (Demo.plugin Demo.defaults)
                  (Demo.page_with_basePath Demo.logo_page "assets/"))
               Demo.logo_page (Demo.img "logo.svg" 5 25))))
  = [[("removeTitle", JsBool true)]; [("cleanupIDs", JsBool true)];
     [("basePath", JsString "assets/")]].
Proof. reflexivity. Qed.
(** * Further properties of the code *)

(** ** Strings: prefixes, suffixes and [substring] *)

Lemma append_assoc (a b c : string) : (a +++ b) +++ c = a +++ b +++ c.
Proof. induction a as [|x a IH]; simpl; [reflexivity|]. f_equal. exact IH. Qed.

Lemma append_empty_r (a : string) : a +++ EmptyString = a.
Proof. induction a as [|x a IH]; simpl; [reflexivity|]. f_equal. exact IH. Qed.

Lemma length_append (a b : string) :
  String.length (a +++ b) = String.length a + String.length b.
Proof. induction a as [|x a IH]; simpl; [reflexivity|]. f_equal. exact IH. Qed.

Lemma take_drop (n : nat) (s : string) : take n s +++ drop n s = s.
Proof.
  revert n. induction s as [|c s IH]; intros [|n]; simpl; try reflexivity.
  f_equal. apply IH.
Qed.

Lemma length_take (n : nat) (s : string) :
  String.length (take n s) = Nat.min n (String.length s).
Proof.
  revert n. induction s as [|c s IH]; intros [|n]; simpl; try reflexivity.
  f_equal. apply IH.
Qed.

Lemma length_drop (n : nat) (s : string) :
  String.length (drop n s) = String.length s - n.
Proof.
  revert n. induction s as [|c s IH]; intros [|n]; simpl; try reflexivity.
  apply IH.
Qed.

Lemma take_all (n : nat) (s : string) : String.length s <= n -> take n s = s.
Proof.
  revert n. induction s as [|c s IH]; intros [|n] L; simpl in *;
    try reflexivity; [lia|]. f_equal. apply IH. lia.
Qed.

Lemma drop_all (n : nat) (s : string) :
  String.length s <= n -> drop n s = EmptyString.
Proof.
  revert n. induction s as [|c s IH]; intros [|n] L; simpl in *;
    try reflexivity; [lia|]. apply IH. lia.
Qed.

Lemma drop_drop (a b : nat) (s : string) : drop a (drop b s) = drop (b + a) s.
Proof.
  revert b. induction s as [|c s IH]; intros [|b]; simpl; try reflexivity.
  - destruct a; reflexivity.
  - apply IH.
Qed.

Lemma take_append_le (n : nat) (s t : string) :
  n <= String.length s -> take n (s +++ t) = take n s.
Proof.
  revert n. induction s as [|c s IH]; intros [|n] L; simpl in *;
    try reflexivity; [lia|]. f_equal. apply IH. lia.
Qed.

Lemma drop_append_le (n : nat) (s t : string) :
  n <= String.length s -> drop n (s +++ t) = drop n s +++ t.
Proof.
  revert n. induction s as [|c s IH]; intros [|n] L; simpl in *;
    try reflexivity; [lia|]. apply IH. lia.
Qed.

Lemma drop_append_ge (k : nat) (s t : string) :
  drop (String.length s + k) (s +++ t) = drop k t.
Proof. induction s as [|c s IH]; simpl; [reflexivity|exact IH]. Qed.

Lemma substring_take_drop (n m : nat) (s : string) :
  String.substring n m s = take m (drop n s).
Proof.
  revert n m. induction s as [|c s IH]; intros [|n] [|m]; simpl; try reflexivity.
  - f_equal. apply (IH 0 m).
  - rewrite IH. reflexivity.
  - apply IH.
Qed.

(** [s.substring(a, b)] for [a <= b]: clamping changes nothing. *)
Lemma Js_substring_ordered (s : string) (a b : nat) :
  a <= b -> Js.substring s a b = take (b - a) (drop a s).
Proof.
  intros L. unfold Js.substring. rewrite substring_take_drop.
  set (len := String.length s).
  destruct (Nat.le_gt_cases a len) as [A|A].
  - rewrite (Nat.min_l a len) by exact A.
    destruct (Nat.le_gt_cases b len) as [B|B].
    + rewrite (Nat.min_l b len) by exact B.
      rewrite Nat.min_l, Nat.max_r by lia. reflexivity.
    + rewrite (Nat.min_r b len) by lia.
      rewrite Nat.min_l, Nat.max_r by lia.
      rewrite !take_all; [reflexivity| |]; rewrite length_drop; fold len; lia.
  - rewrite (Nat.min_r a len), (Nat.min_r b len) by lia.
    rewrite Nat.min_id, Nat.max_id, Nat.sub_diag.
    rewrite (drop_all a s) by (fold len; lia).
    destruct (b - a); destruct (drop len s); reflexivity.
Qed.

Lemma Js_substring_prefix (s : string) (a : nat) : Js.substring s 0 a = take a s.
Proof.
  rewrite Js_substring_ordered by lia. rewrite Nat.sub_0_r.
  destruct s; reflexivity.
Qed.

Lemma Js_substringFrom_drop (s : string) (a : nat) : Js.substringFrom s a = drop a s.
Proof.
  unfold Js.substringFrom.
  destruct (Nat.le_gt_cases a (String.length s)) as [A|A].
  - rewrite Js_substring_ordered by exact A.
    apply take_all. rewrite length_drop. lia.
  - unfold Js.substring. rewrite (Nat.min_r a) by lia.
    rewrite !Nat.min_id, Nat.max_id, Nat.sub_diag, substring_take_drop.
    rewrite (drop_all a) by lia. destruct (drop _ s); reflexivity.
Qed.

(** ** The three replace functions *)

Lemma replaceImageWithSVG_take_drop (html svg : string) (inlineImage : Node)
    (loc : Location) :
  location inlineImage = Some loc ->
  replaceImageWithSVG html inlineImage svg
  = Ok (take (startOffset loc) html +++ svg +++ drop (endOffset loc) html).
Proof.
  intros L. unfold replaceImageWithSVG. rewrite L. cbv zeta.
  rewrite Js_substring_prefix, Js_substringFrom_drop. reflexivity.
Qed.

Lemma splice_take_drop (html fragment : string) (loc : Location) :
  splice html loc fragment
  = take (startOffset loc) html +++ fragment +++ drop (endOffset loc) html.
Proof.
  unfold splice. rewrite Js_substring_prefix, Js_substringFrom_drop. reflexivity.
Qed.

Lemma replaceImageWithSVG_splice (html svg : string) (inlineImage : Node)
    (loc : Location) :
  location inlineImage = Some loc ->
  replaceImageWithSVG html inlineImage svg = Ok (splice html loc svg).
Proof. intros L. unfold replaceImageWithSVG. rewrite L. reflexivity. Qed.

(** Putting the text of an ordered span back gives the buffer again. *)
Lemma splice_own_text (html : string) (loc : Location) :
  startOffset loc <= endOffset loc ->
  splice html loc (Js.substring html (startOffset loc) (endOffset loc)) = html.
Proof.
  intros Ordered. rewrite splice_take_drop.
  rewrite Js_substring_ordered by exact Ordered.
  replace (drop (endOffset loc) html)
    with (drop (endOffset loc - startOffset loc) (drop (startOffset loc) html))
    by (rewrite drop_drop; f_equal; lia).
  rewrite take_drop. apply take_drop.
Qed.

(** X2: a replacement is local.  For a node with a span [start, stop)
    inside the buffer, putting the node's own text back gives the buffer
    again; the length changes by the length of the fragment minus the
    length of the span; every stretch of text before the span reads the
    same at the same offsets; every stretch after it reads the same at its
    offsets shifted by that difference.  The other two replace functions
    are this one on an img element. *)
Theorem replace_is_local (html svg : string) (inlineImage : Node) (loc : Location) :
  location inlineImage = Some loc ->
  let start := startOffset loc in
  let stop := endOffset loc in
  start <= stop -> stop <= String.length html ->
  replaceImageWithSVG html inlineImage (Js.substring html start stop) = Ok html
  /\ (exists html',
         replaceImageWithSVG html inlineImage svg = Ok html'
         /\ String.length html' + (stop - start)
            = String.length html + String.length svg
         /\ (forall a b, a <= b -> b <= start ->
                         Js.substring html' a b = Js.substring html a b)
         /\ (forall a b, stop <= a -> a <= b ->
                         Js.substring html' (a - stop + start + String.length svg)
                                            (b - stop + start + String.length svg)
                         = Js.substring html a b))
  /\ (forall base64,
         replaceImageWithBase64 html inlineImage base64
         = replaceImageWithSVG html inlineImage (img_tag base64))
  /\ (forall imagePath,
         moveStaticImage html inlineImage imagePath
         = replaceImageWithSVG html inlineImage (img_tag imagePath)).
Proof.
  intros Loc start stop Ordered Inside.
  assert (Lt : String.length (take start html) = start).
  { rewrite length_take. lia. }
  split; [|split; [|split]].
  - rewrite (replaceImageWithSVG_splice _ _ _ loc Loc). f_equal.
    apply splice_own_text. exact Ordered.
  - eexists. split; [apply (replaceImageWithSVG_take_drop _ _ _ loc Loc)|].
    fold start stop. split; [|split].
    + rewrite !length_append, Lt, length_drop. lia.
    + intros a b AB B. rewrite !Js_substring_ordered by exact AB.
      rewrite <- (take_drop start html) at 3.
      rewrite !drop_append_le by (rewrite Lt; lia).
      rewrite !take_append_le; [reflexivity| |]; rewrite length_drop, Lt; lia.
    + intros a b A AB. rewrite !Js_substring_ordered by lia.
      replace (b - stop + start + String.length svg
               - (a - stop + start + String.length svg)) with (b - a) by lia.
      f_equal. rewrite <- append_assoc.
      replace (a - stop + start + String.length svg)
        with (String.length (take start html +++ svg) + (a - stop))
        by (rewrite length_append, Lt; lia).
      rewrite drop_append_ge, drop_drop. f_equal. lia.
  - reflexivity.
  - reflexivity.
Qed.

Lemma replace_is_local_witness :
  (location (Demo.img "logo.svg" 5 25) = Some (mkLocation 5 25)
   /\ 5 <= 25
   /\ 25 <= String.length Demo.logo_page)
  /\ replaceImageWithSVG Demo.logo_page (Demo.img "logo.svg" 5 25)
       (Js.substring Demo.logo_page 5 25)
     = Ok Demo.logo_page
  /\ exists html',
       replaceImageWithSVG Demo.logo_page (Demo.img "logo.svg" 5 25) "<svg>OK</svg>"
       = Ok html'
       /\ String.length html' + (25 - 5) = String.length Demo.logo_page + 13
       /\ Js.substring html' 18 24 = Js.substring Demo.logo_page 25 31.
Proof.
  assert (O : 5 <= 25) by lia.
  assert (I : 25 <= String.length Demo.logo_page) by (vm_compute; lia).
  destruct (replace_is_local Demo.logo_page "<svg>OK</svg>"
              (Demo.img "logo.svg" 5 25) (mkLocation 5 25) eq_refl O I)
    as (Back & (html' & E & Len & _ & Later) & _).
  split; [repeat split; assumption|]. split; [exact Back|].
  exists html'. split; [exact E|]. split; [exact Len|].
  exact (Later 25 31 (le_n 25) ltac:(lia)).
Defined.

(** ** The candidate list *)

Lemma eligible_is_img (w : World) (st : State) (node : Node) :
  isNodeValidInlineImage w st node = Ok true -> nodeName node = "img".
Proof.
  unfold isNodeValidInlineImage. destruct (location node); [|discriminate].
  destruct (includes _ _); [discriminate|].
  intros [= H]. rewrite !andb_true_iff in H. apply String.eqb_eq, H.
Qed.

Lemma getInlineImages_filter (w : World) (st : State) (n : Node) :
  located n ->
  (forall d, In d (descendants n) -> nodeName d = "img" -> childNodes d = []) ->
  forall acc,
    getInlineImages w st n acc
    = Ok (acc ++ filter (eligible w st) (descendants n)).
Proof.
  induction n as [n IH] using Node_children_ind. intros Loc Leaf acc.
  rewrite getInlineImages_unfold. unfold located in Loc.
  rewrite descendants_unfold in *.
  revert Loc Leaf acc. induction IH as [|c cs Hc _ IHcs]; intros Loc Leaf acc.
  - cbn. rewrite app_nil_r. reflexivity.
  - cbn [fold_left flat_map] in *. rewrite <- app_comm_cons. cbn [filter].
    rewrite filter_app. unfold eligible at 1.
    destruct (isNodeValidInlineImage_located w st c) as (b & V);
      [apply Loc; left; reflexivity|].
    assert (Loc' : forall node,
               In node (flat_map (fun c => c :: descendants c) cs) ->
               location node <> None).
    { intros d Hd. apply Loc. right. apply in_or_app. right. exact Hd. }
    assert (Leaf' : forall d,
               In d (flat_map (fun c => c :: descendants c) cs) ->
               nodeName d = "img" -> childNodes d = []).
    { intros d Hd. apply Leaf. right. apply in_or_app. right. exact Hd. }
    rewrite V. destruct b.
    + assert (L : childNodes c = []).
      { apply Leaf; [left; reflexivity|]. eapply eligible_is_img. exact V. }
      rewrite (descendants_unfold c), L. cbn [flat_map filter app].
      rewrite (IHcs Loc' Leaf'), <- app_assoc. reflexivity.
    + rewrite Hc.
      * rewrite (IHcs Loc' Leaf'), <- app_assoc. reflexivity.
      * intros d Hd. apply Loc. right. apply in_or_app. left. exact Hd.
      * intros d Hd. apply Leaf. right. apply in_or_app. left. exact Hd.
Qed.

(** X1: on a tree whose nodes all carry a location and whose img elements
    have no children, as parse5 builds them, the walk completes and
    [getInlineImages] returns exactly the eligible nodes of the tree, each
    once, in document order. *)
Theorem getInlineImages_is_the_eligible_nodes (w : World) (st : State)
    (documentFragment : Node) :
  located documentFragment ->
  (forall d, In d (descendants documentFragment) ->
             nodeName d = "img" -> childNodes d = []) ->
  getInlineImages w st documentFragment []
  = Ok (filter (eligible w st) (descendants documentFragment)).
Proof.
  intros Loc Leaf. apply (getInlineImages_filter w st documentFragment Loc Leaf []).
Qed.

Lemma getInlineImages_is_the_eligible_nodes_witness :
  (located (Demo.parse Demo.three_page)
   /\ forall d, In d (descendants (Demo.parse Demo.three_page)) ->
                nodeName d = "img" -> childNodes d = [])
  /\ getInlineImages Demo.w (Demo.plugin []) (Demo.parse Demo.three_page) []
     = Ok (filter (eligible Demo.w (Demo.plugin []))
                  (descendants (Demo.parse Demo.three_page))).
Proof.
  assert (P : located (Demo.parse Demo.three_page)).
  { intros d H. vm_compute in H.
    destruct H as [<-|[<-|[<-|[]]]]; discriminate. }
  assert (L : forall d, In d (descendants (Demo.parse Demo.three_page)) ->
                        nodeName d = "img" -> childNodes d = []).
  { intros d H _. vm_compute in H.
    destruct H as [<-|[<-|[<-|[]]]]; reflexivity. }
  split; [split; assumption|].
  exact (getInlineImages_is_the_eligible_nodes Demo.w (Demo.plugin [])
           (Demo.parse Demo.three_page) P L).
Defined.

(** ** What a transformation leaves alone *)

(** The calls a transformation makes on the disk: [fs.mkdirSync] calls,
    and the pipe of a relocation. *)
Lemma processOutputHtml_disk (w : World) (st : State) (html : string) (node : Node) :
  exists calls,
    disk (fst (processOutputHtml w st html node)) = disk st ++ calls
    /\ forall call,
         In call calls ->
         (exists path, call = MkdirSync path)
         \/ exists dir,
              get (userConfig st) "basePath" = Some (JsString dir)
              /\ call = Pipe (path_resolve w ["src"; getImagesSrc node])
                             (path_resolve w ["dist"; dir;
                                              lastOf (Js.split "/" (getImagesSrc node))]).
Proof.
  assert (Same : forall st' : State,
             disk st' = disk st ->
             exists calls,
               disk st' = disk st ++ calls
               /\ forall call,
                    In call calls ->
                    (exists path, call = MkdirSync path)
                    \/ exists dir,
                         get (userConfig st) "basePath" = Some (JsString dir)
                         /\ call = Pipe (path_resolve w ["src"; getImagesSrc node])
                                        (path_resolve w
                                           ["dist"; dir;
                                            lastOf (Js.split "/" (getImagesSrc node))])).
  { intros st' E. exists []. rewrite app_nil_r. split; [exact E|intros ? []]. }
  unfold processOutputHtml, replaceImageWithSVG, replaceImageWithBase64,
    moveStaticImage.
  destruct (negb _); [apply Same; reflexivity|].
  destruct (has _ ".svg").
  - destruct (location node); destruct (readFile w _);
      destruct (svgo_optimize w _ _); apply Same; reflexivity.
  - destruct (statSync_size w _) as [size|]; [|apply Same; reflexivity].
    destruct (imageLimit st <=? size)%N.
    + destruct (get (userConfig st) "basePath") as [[| | |dir|]|] eqn:B;
        try (apply Same; reflexivity).
      rewrite mkdirsSync_when_missing.
      destruct (mkdirsSync_calls w st (path_resolve w ["dist"; dir])) as (made & M).
      destruct (fs_calls_fields (map MkdirSync made) st)
        as (_ & _ & _ & _ & _ & _ & _ & _ & D).
      assert (Mk : forall call, In call (map MkdirSync made) ->
                                exists path, call = MkdirSync path).
      { intros call I. apply in_map_iff in I. destruct I as (p & <- & _).
        exists p. reflexivity. }
      destruct (mkdirsSync w st _) as [st1 [ok|err]]; cbn [fst] in M; subst st1.
      * exists (map MkdirSync made
                ++ [Pipe (path_resolve w ["src"; getImagesSrc node])
                         (path_resolve w ["dist"; dir;
                                          lastOf (Js.split "/" (getImagesSrc node))])]).
        split.
        -- destruct (location node); cbn [fst push_processedImages fs_call disk];
             rewrite D, app_assoc; reflexivity.
        -- intros call I. apply in_app_or in I. destruct I as [I|[<-|[]]].
           ++ left. apply Mk, I.
           ++ right. exists dir. split; reflexivity.
      * exists (map MkdirSync made). split; [exact D|].
        intros call I. left. apply Mk, I.
    + destruct (readFileSync w _); [|apply Same; reflexivity].
      destruct (location node); apply Same; reflexivity.
Qed.

(** A raster transformation that throws has done nothing but make the
    directories that [mkdirsSync] made before the throw. *)
Lemma processOutputHtml_raster_throw (w : World) (st : State) (html : string)
    (node : Node) (loc : Location) (e : Error) :
  location node = Some loc ->
  has (getImagesSrc node) ".svg" = false ->
  snd (processOutputHtml w st html node) = Rejected e ->
  exists made,
    fst (processOutputHtml w st html node)
    = fold_left fs_call (map MkdirSync made) st
    /\ (made <> [] ->
        exists dir,
          get (userConfig st) "basePath" = Some (JsString dir)
          /\ snd (mkdirsSync w st (path_resolve w ["dist"; dir])) = Throw e).
Proof.
  intros Loc R. rewrite (processOutputHtml_located w st html node loc Loc).
  cbv zeta. rewrite R.
  assert (Same : exists made : list string,
             st = fold_left fs_call (map MkdirSync made) st
             /\ (made <> [] ->
                 exists dir,
                   get (userConfig st) "basePath" = Some (JsString dir)
                   /\ snd (mkdirsSync w st (path_resolve w ["dist"; dir])) = Throw e))
    by (exists []; split; [reflexivity|congruence]).
  destruct (negb _); [discriminate|].
  destruct (statSync_size w _) as [size|]; [|intros _; exact Same].
  destruct (imageLimit st <=? size)%N.
  - destruct (get (userConfig st) "basePath") as [[| | |dir|]|];
      try (intros _; exact Same).
    destruct (mkdirsSync_calls w st (path_resolve w ["dist"; dir])) as (made & M).
    destruct (mkdirsSync w st _) as [st1 [ok|err]] eqn:MK; cbn [fst snd] in *;
      [discriminate|].
    intros [= ->]. exists made. split; [exact M|].
    intros _. exists dir. split; [reflexivity|]. rewrite MK. reflexivity.
  - destruct (readFileSync w _); [discriminate|intros _; exact Same].
Qed.

(** X3: whatever the strategy, a transformation of a node with an ordered
    span that fulfils its promise hands back the buffer with nothing but
    that span replaced; it never changes the user config, the limit, the
    output path or the registered files; the only calls it makes on the
    disk are [fs.mkdirSync] calls and the pipe of a relocation; an svg
    transformation makes none; and a raster transformation that throws
    leaves the state as it was but for the directories [mkdirsSync] made
    before it threw, so as it was when [fs.mkdirSync] cannot fail. *)
Theorem transformation_frame (w : World) (st : State) (html : string) (node : Node)
    (loc : Location) :
  location node = Some loc ->
  startOffset loc <= endOffset loc ->
  (forall html',
      snd (processOutputHtml w st html node) = Fulfilled html' ->
      exists fragment, replaceImageWithSVG html node fragment = Ok html')
  /\ userConfig (fst (processOutputHtml w st html node)) = userConfig st
  /\ imageLimit (fst (processOutputHtml w st html node)) = imageLimit st
  /\ outputPath (fst (processOutputHtml w st html node)) = outputPath st
  /\ files (fst (processOutputHtml w st html node)) = files st
  /\ (exists calls,
         disk (fst (processOutputHtml w st html node)) = disk st ++ calls
         /\ forall call,
              In call calls ->
              (exists path, call = MkdirSync path)
              \/ exists dir,
                   get (userConfig st) "basePath" = Some (JsString dir)
                   /\ call = Pipe (path_resolve w ["src"; getImagesSrc node])
                                  (path_resolve w
                                     ["dist"; dir;
                                      lastOf (Js.split "/" (getImagesSrc node))]))
  /\ (has (getImagesSrc node) ".svg" = true ->
      disk (fst (processOutputHtml w st html node)) = disk st)
  /\ (forall e,
         has (getImagesSrc node) ".svg" = false ->
         snd (processOutputHtml w st html node) = Rejected e ->
         exists made,
           fst (processOutputHtml w st html node)
           = fold_left fs_call (map MkdirSync made) st
           /\ (made <> [] ->
               exists dir,
                 get (userConfig st) "basePath" = Some (JsString dir)
                 /\ snd (mkdirsSync w st (path_resolve w ["dist"; dir])) = Throw e))
  /\ ((forall path, mkdirSync w path = None) ->
      forall e,
        has (getImagesSrc node) ".svg" = false ->
        snd (processOutputHtml w st html node) = Rejected e ->
        fst (processOutputHtml w st html node) = st).
Proof.
  intros Loc Ordered.
  destruct (processOutputHtml_frame w st html node) as (U & L & _ & O & F & _ & _).
  split; [|split; [exact U|split; [exact L|split; [exact O|split; [exact F|]]]]].
  - intros html' H.
    destruct (Js.nonEmpty (getImagesSrc node)) eqn:NE.
    + apply (processOutputHtml_fulfilled w st html node loc _ Loc NE) in H.
      destruct H as (fragment & _ & ->). exists fragment.
      apply replaceImageWithSVG_splice. exact Loc.
    + unfold processOutputHtml in H. rewrite NE in H. cbn [negb snd] in H.
      injection H as <-.
      exists (Js.substring html (startOffset loc) (endOffset loc)).
      rewrite (replaceImageWithSVG_splice _ _ _ loc Loc). f_equal.
      apply splice_own_text. exact Ordered.
  - split; [apply processOutputHtml_disk|]. split; [|split].
    + intros SVG. rewrite (processOutputHtml_located w st html node loc Loc).
      cbv zeta.
      rewrite (has_nonEmpty _ _ dot_svg_nonempty SVG), SVG. cbn [negb].
      destruct (svgo_optimize w _ _), (readFile w _); reflexivity.
    + intros e. apply (processOutputHtml_raster_throw w st html node loc e Loc).
    + intros Can e R T.
      destruct (processOutputHtml_raster_throw w st html node loc e Loc R T)
        as (made & E & Why).
      destruct made as [|p made]; [exact E|].
      destruct Why as (dir & _ & M); [discriminate|].
      destruct (mkdirsSync_succeeds w st (path_resolve w ["dist"; dir]) Can)
        as (ok & M').
      congruence.
Qed.

Lemma transformation_frame_witness :
  (location (Demo.img "photo.png" 3 24) = Some (mkLocation 3 24) /\ 3 <= 24)
  /\ (exists fragment,
         replaceImageWithSVG Demo.photo_page (Demo.img "photo.png" 3 24) fragment
         = Ok ("<p>" +++ img_tag "./static/photo.png" +++ "</p>"))
  /\ fst (processOutputHtml Demo.w (Demo.plugin []) Demo.locked_page
            (Demo.img "locked.png" 0 22))
     = Demo.plugin []
  /\ exists made,
       fst (processOutputHtml Demo.w_readonly
              (getUserConfig (Demo.plugin [])
                 (Demo.page_with_basePath Demo.photo_page "static/"))
              Demo.photo_page (Demo.img "photo.png" 3 24))
       = fold_left fs_call (map MkdirSync made)
           (getUserConfig (Demo.plugin [])
              (Demo.page_with_basePath Demo.photo_page "static/")).
Proof.
  assert (O : 3 <= 24) by lia.
  assert (O' : 0 <= 22) by lia.
  split; [split; [reflexivity|exact O]|]. split; [|split].
  - apply (proj1 (transformation_frame Demo.w
                    (getUserConfig (Demo.plugin [])
                       (Demo.page_with_basePath Demo.photo_page "static/"))
                    Demo.photo_page (Demo.img "photo.png" 3 24) (mkLocation 3 24)
                    eq_refl O)).
    reflexivity.
  - destruct (transformation_frame Demo.w (Demo.plugin []) Demo.locked_page
                (Demo.img "locked.png" 0 22) (mkLocation 0 22) eq_refl O')
      as (_ & _ & _ & _ & _ & _ & _ & _ & Throwing).
    apply (Throwing (fun _ => eq_refl) "EACCES: permission denied"); reflexivity.
  - destruct (transformation_frame Demo.w_readonly
                (getUserConfig (Demo.plugin [])
                   (Demo.page_with_basePath Demo.photo_page "static/"))
                Demo.photo_page (Demo.img "photo.png" 3 24) (mkLocation 3 24)
                eq_refl O)
      as (_ & _ & _ & _ & _ & _ & _ & Throwing & _).
    destruct (Throwing "EACCES: permission denied, mkdir" eq_refl)
      as (made & E & _); [vm_compute; reflexivity|].
    exists made. exact E.
Defined.

(** ** How a run ends *)

Lemma updateHTML_turn_not_rejected (w : World)
    (acc : State * Promise (option string)) (imageNode : Node) (e : Error) :
  snd (updateHTML_turn w acc imageNode) <> Rejected e.
Proof.
  destruct acc as [st [h|e'|]]; cbn [updateHTML_turn]; try discriminate.
  destruct (processImage w st h) as [st' [h'|e'|]]; discriminate.
Qed.

Lemma updateHTML_fold_not_rejected (w : World) (l : list Node) (e : Error) :
  forall acc, snd acc <> Rejected e ->
              snd (fold_left (updateHTML_turn w) l acc) <> Rejected e.
Proof.
  induction l as [|n l IH]; intros acc H; [exact H|].
  cbn [fold_left]. apply IH. apply updateHTML_turn_not_rejected.
Qed.

Lemma updateHTML_not_rejected (w : World) (st : State) (html : string)
    (l : list Node) (e : Error) :
  snd (updateHTML w st html l) <> Rejected e.
Proof. apply updateHTML_fold_not_rejected. discriminate. Qed.

Lemma processImages_is_updateHTML (w : World) (st : State) (html : string) :
  processImages w st html
  = match getInlineImages w st (parseFragment w html) [] with
    | Throw err => (st, Rejected err)
    | Ok [] => (st, Fulfilled None)
    | Ok inlineImages => updateHTML w st html inlineImages
    end.
Proof.
  unfold processImages.
  destruct (getInlineImages w st (parseFragment w html) []) as [[|n l]|e];
    try reflexivity.
  pose proof (updateHTML_not_rejected w st html (n :: l)) as N.
  destruct (updateHTML w st html (n :: l)) as [st' [h|e|]]; try reflexivity.
  destruct (N e). reflexivity.
Qed.

Lemma processImages_rejected (w : World) (st : State) (html : string) (e : Error) :
  snd (processImages w st html) = Rejected e <->
  getInlineImages w st (parseFragment w html) [] = Throw e.
Proof.
  rewrite processImages_is_updateHTML.
  destruct (getInlineImages w st (parseFragment w html) []) as [[|n l]|e'];
    cbn [snd].
  - split; discriminate.
  - split; [|discriminate]. intros H.
    destruct (updateHTML_not_rejected w st html (n :: l) e H).
  - split; congruence.
Qed.

(** X4: a run is rejected only by its first walk.  Every turn of
    [updateHTML] catches, so [updateHTML] is fulfilled or never settled and
    the error branch of [processImages] is never taken; [processImages] is
    rejected exactly when the walk over the parsed input throws, which it
    does only on a node without location, and then nothing has been
    changed; the pre-emit hook logs that error and nothing else of its own.
    When the hook calls back, the plugin data keeps its output name and its
    svgo config, and an html that was not empty is not empty afterwards. *)
Theorem runs_reject_only_in_the_first_walk (w : World) (st : State) :
  (forall html inlineImages e, snd (updateHTML w st html inlineImages) <> Rejected e)
  /\ (forall html,
         processImages w st html
         = match getInlineImages w st (parseFragment w html) [] with
           | Throw err => (st, Rejected err)
           | Ok [] => (st, Fulfilled None)
           | Ok inlineImages => updateHTML w st html inlineImages
           end)
  /\ (forall html e,
         snd (processImages w st html) = Rejected e <->
         getInlineImages w st (parseFragment w html) [] = Throw e)
  /\ (forall html e,
         snd (processImages w st html) = Rejected e ->
         fst (processImages w st html) = st
         /\ e = location_TypeError
         /\ ~ located (parseFragment w html))
  /\ (forall htmlPluginData,
         fst (afterHtmlProcessing w st htmlPluginData)
         = match processImages w (getUserConfig st htmlPluginData)
                   (html htmlPluginData) with
           | (st', Rejected err) => console_log st' err
           | (st', _) => st'
           end)
  /\ (forall htmlPluginData handed,
         snd (afterHtmlProcessing w st htmlPluginData) = Fulfilled handed ->
         outputName handed = outputName htmlPluginData
         /\ svgoConfig handed = svgoConfig htmlPluginData
         /\ (html htmlPluginData <> EmptyString -> html handed <> EmptyString)).
Proof.
  split; [intros; apply updateHTML_not_rejected|].
  split; [intros; apply processImages_is_updateHTML|].
  split; [intros; apply processImages_rejected|].
  split; [|split].
  - intros html e R. apply processImages_rejected in R.
    rewrite processImages_is_updateHTML, R. split; [reflexivity|].
    destruct (getInlineImages_throws w st _ e R) as (E & d & Hd & N).
    split; [exact E|]. intros L. exact (L d Hd N).
  - intros d. unfold afterHtmlProcessing.
    destruct (processImages w (getUserConfig st d) (html d)) as [s [p|e|]];
      reflexivity.
  - intros d handed. unfold afterHtmlProcessing.
    destruct (processImages w (getUserConfig st d) (html d)) as [s [p|e|]];
      cbn [snd]; try discriminate.
    + intros [= <-]. cbn [outputName svgoConfig html].
      split; [reflexivity|]. split; [reflexivity|].
      destruct p as [[|c h]|]; try (intros H; exact H). discriminate.
    + intros [= <-]. tauto.
Qed.

Lemma logs_undefined_turns (w : World) (l : list Node) :
  forall st,
    fold_left (updateHTML_turn w) l (st, Fulfilled None)
    = (logs st (repeat parse_TypeError (length l)), Fulfilled None).
Proof.
  induction l as [|n l IH]; intros st; [reflexivity|].
  cbn [fold_left updateHTML_turn processImage length repeat].
  rewrite IH. reflexivity.
Qed.

(** X5: a turn that rejects costs the whole document.  The error is logged
    and the chain goes on with an undefined buffer, on which every remaining
    turn fails in the parser; the run ends fulfilled with no html at all,
    whatever the turns before had replaced, and the pre-emit hook hands the
    original html back. *)
Theorem rejected_turn_discards_the_document (w : World) (st : State)
    (buffer : string) (done : list Node) (imageNode : Node) (rest : list Node)
    (st1 : State) (buffer1 : string) (st2 : State) (e : Error) :
  updateHTML w st buffer done = (st1, Fulfilled (Some buffer1)) ->
  processImage w st1 (Some buffer1) = (st2, Rejected e) ->
  updateHTML w st buffer (done ++ imageNode :: rest)
  = (logs st2 (e :: repeat parse_TypeError (length rest)), Fulfilled None)
  /\ forall st0 htmlPluginData,
       st = getUserConfig st0 htmlPluginData ->
       buffer = html htmlPluginData ->
       getInlineImages w st (parseFragment w buffer) []
       = Ok (done ++ imageNode :: rest) ->
       snd (afterHtmlProcessing w st0 htmlPluginData) = Fulfilled htmlPluginData.
Proof.
  intros Done Rej.
  assert (Run : updateHTML w st buffer (done ++ imageNode :: rest)
                = (logs st2 (e :: repeat parse_TypeError (length rest)),
                   Fulfilled None)).
  { unfold updateHTML in *. rewrite fold_left_app, Done.
    cbn [fold_left updateHTML_turn]. rewrite Rej.
    apply logs_undefined_turns. }
  split; [exact Run|].
  intros st0 d -> -> Scan. unfold afterHtmlProcessing.
  rewrite processImages_is_updateHTML, Scan.
  destruct (done ++ imageNode :: rest) eqn:E;
    [destruct done; discriminate|].
  rewrite Run. destruct d. reflexivity.
Qed.

Lemma rejected_turn_discards_the_document_witness :
  (updateHTML Demo.w (Demo.plugin []) Demo.dot_locked_logo_page
     [Demo.img "dot.png" 0 19]
   = (push_processedImages (Demo.plugin []) 0,
      Fulfilled (Some (img_tag "data:image/png;base64,TWFu"
                       +++ "<img src='locked.png'><img src='logo.svg'>")))
   /\ processImage Demo.w (push_processedImages (Demo.plugin []) 0)
        (Some (img_tag "data:image/png;base64,TWFu"
               +++ "<img src='locked.png'><img src='logo.svg'>"))
      = (push_processedImages (Demo.plugin []) 0,
         Rejected "EACCES: permission denied"))
  /\ updateHTML Demo.w (Demo.plugin []) Demo.dot_locked_logo_page
       ([Demo.img "dot.png" 0 19]
        ++ Demo.img "locked.png" 19 41 :: [Demo.img "logo.svg" 41 61])
     = (logs (push_processedImages (Demo.plugin []) 0)
          ["EACCES: permission denied"; parse_TypeError],
        Fulfilled None)
  /\ snd (afterHtmlProcessing Demo.w (Demo.plugin [])
            (Demo.page Demo.dot_locked_logo_page))
     = Fulfilled (Demo.page Demo.dot_locked_logo_page).
Proof.
  assert (D : updateHTML Demo.w (Demo.plugin []) Demo.dot_locked_logo_page
                [Demo.img "dot.png" 0 19]
              = (push_processedImages (Demo.plugin []) 0,
                 Fulfilled (Some (img_tag "data:image/png;base64,TWFu"
                                  +++ "<img src='locked.png'><img src='logo.svg'>"))))
    by (vm_compute; reflexivity).
  assert (R : processImage Demo.w (push_processedImages (Demo.plugin []) 0)
                (Some (img_tag "data:image/png;base64,TWFu"
                       +++ "<img src='locked.png'><img src='logo.svg'>"))
              = (push_processedImages (Demo.plugin []) 0,
                 Rejected "EACCES: permission denied"))
    by (vm_compute; reflexivity).
  destruct (rejected_turn_discards_the_document Demo.w (Demo.plugin [])
              Demo.dot_locked_logo_page [Demo.img "dot.png" 0 19]
              (Demo.img "locked.png" 19 41) [Demo.img "logo.svg" 41 61]
              _ _ _ _ D R) as (Run & Hook).
  split; [split; assumption|]. split; [exact Run|].
  apply (Hook (Demo.plugin []) (Demo.page Demo.dot_locked_logo_page));
    vm_compute; reflexivity.
Defined.


(** A transformation never settles in one case only: the node carries a
    location, its svg is read, and the optimiser rejects it. *)
Lemma processOutputHtml_pending_iff (w : World) (st : State) (html : string)
    (node : Node) :
  snd (processOutputHtml w st html node) = Pending <->
  location node <> None
  /\ has (getImagesSrc node) ".svg" = true
  /\ exists data message,
       readFile w (path_resolve w ["src"; getImagesSrc node]) = Ok data
       /\ svgo_optimize w
            (lodash_map_entries
               (Object_assign (svgoDefaultConfig st) (userConfig st)))
            (Some data) = Throw message.
Proof.
  destruct (location node) as [loc|] eqn:Loc.
  - rewrite (processOutputHtml_located w st html node loc Loc). cbv zeta.
    assert (S : Some loc <> None) by discriminate.
    destruct (Js.nonEmpty (getImagesSrc node)) eqn:NE; cbn [negb].
    + destruct (has (getImagesSrc node) ".svg") eqn:SVG.
      * destruct (readFile w _) as [data|err].
        -- destruct (svgo_optimize w _ (Some data)) as [svg|message] eqn:O;
             cbn [snd].
           ++ split; [discriminate|].
              intros (_ & _ & data' & message & [= <-] & O'). congruence.
           ++ split; [|reflexivity]. intros _. split; [exact S|].
              split; [reflexivity|]. exists data, message. tauto.
        -- destruct (svgo_optimize w _ None); cbn [snd];
             (split; [discriminate|]); intros (_ & _ & ? & ? & ? & _);
             discriminate.
      * split; [|intros (_ & ? & _); discriminate].
        destruct (statSync_size w _) as [size|]; [|discriminate].
        destruct (imageLimit st <=? size)%N.
        -- destruct (get (userConfig st) "basePath") as [[| | |dir|]|];
             try discriminate.
           destruct (mkdirsSync w st _) as [st1 [ok|err]]; discriminate.
        -- destruct (readFileSync w _); discriminate.
    + split; [discriminate|]. intros (_ & SVG & _).
      rewrite (has_nonEmpty _ _ dot_svg_nonempty SVG) in NE. discriminate.
  - split; [|intros (N & _); congruence].
    unfold processOutputHtml, replaceImageWithSVG, replaceImageWithBase64,
      moveStaticImage. rewrite Loc.
    destruct (negb _); [discriminate|].
    destruct (has _ ".svg").
    + destruct (svgo_optimize w _ _); discriminate.
    + destruct (statSync_size w _) as [size|]; [|discriminate].
      destruct (imageLimit st <=? size)%N.
      * destruct (get (userConfig st) "basePath") as [[| | |dir|]|];
          try discriminate.
        rewrite mkdirsSync_when_missing.
        destruct (mkdirsSync w st _) as [st1 [ok|err]]; discriminate.
      * destruct (readFileSync w _); discriminate.
Qed.

(** X6: a transformation never settles exactly when the node carries a
    location, its svg is read and the optimiser rejects it; once that
    happens in a turn, no later turn runs, [updateHTML] stays where the
    turn left it and never settles; and when [processImages] never settles
    the pre-emit hook never calls back. *)
Theorem unsettled_transformation_stalls (w : World) (st : State) (buffer : string) :
  (forall node,
      snd (processOutputHtml w st buffer node) = Pending <->
      location node <> None
      /\ has (getImagesSrc node) ".svg" = true
      /\ exists data message,
           readFile w (path_resolve w ["src"; getImagesSrc node]) = Ok data
           /\ svgo_optimize w
                (lodash_map_entries
                   (Object_assign (svgoDefaultConfig st) (userConfig st)))
                (Some data) = Throw message)
  /\ (forall done imageNode rest st1 buffer1,
         updateHTML w st buffer done = (st1, Fulfilled (Some buffer1)) ->
         snd (processImage w st1 (Some buffer1)) = Pending ->
         updateHTML w st buffer (done ++ imageNode :: rest)
         = (fst (processImage w st1 (Some buffer1)), Pending))
  /\ (forall htmlPluginData,
         snd (processImages w (getUserConfig st htmlPluginData)
                (html htmlPluginData)) = Pending ->
         snd (afterHtmlProcessing w st htmlPluginData) = Pending).
Proof.
  split; [intros node; apply processOutputHtml_pending_iff|]. split.
  - intros done imageNode rest st1 buffer1 Done P.
    unfold updateHTML in *. rewrite fold_left_app, Done.
    cbn [fold_left updateHTML_turn].
    destruct (processImage w st1 (Some buffer1)) as [s [h|e|]];
      cbn [snd] in P; try discriminate.
    apply pending_run_stalls.
  - intros d P. unfold afterHtmlProcessing.
    destruct (processImages w (getUserConfig st d) (html d)) as [s [p|e|]];
      cbn [snd] in *; try discriminate. reflexivity.
Qed.

Lemma unsettled_transformation_stalls_witness :
  updateHTML Demo.w (Demo.plugin []) Demo.dot_bad_logo_page
    ([Demo.img "dot.png" 0 19]
     ++ Demo.img "bad.svg" 19 38 :: [Demo.img "logo.svg" 38 58])
  = (console_log
       (push_processedImages (push_processedImages (Demo.plugin []) 0) 40)
       "Error in parsing SVG",
     Pending).
Proof.
  rewrite (proj1 (proj2 (unsettled_transformation_stalls Demo.w (Demo.plugin [])
                           Demo.dot_bad_logo_page))
             [Demo.img "dot.png" 0 19] (Demo.img "bad.svg" 19 38)
             [Demo.img "logo.svg" 38 58]
             (push_processedImages (Demo.plugin []) 0)
             (img_tag "data:image/png;base64,TWFu"
              +++ "<img src='bad.svg'><img src='logo.svg'>"));
    vm_compute; reflexivity.
Defined.

(** ** The file name of a relocated image *)

Lemma split_nonempty (sep : ascii) (s : string) : Js.split sep s <> [].
Proof.
  destruct s as [|c s]; simpl; [discriminate|].
  destruct (Ascii.eqb c sep); [discriminate|].
  destruct (Js.split sep s); discriminate.
Qed.

Lemma no_slash_cons (c : ascii) (s : string) :
  c <> "/"%char -> ~ contains s "/" -> ~ contains (String c s) "/".
Proof.
  intros N H (pre & post & E). destruct pre as [|x pre]; simpl in E.
  - injection E as E _. exact (N E).
  - injection E as _ E. apply H. exists pre, post. exact E.
Qed.

Lemma no_slash_tail (c : ascii) (s : string) :
  ~ contains (String c s) "/" -> c <> "/"%char /\ ~ contains s "/".
Proof.
  intros H. split.
  - intros ->. apply H. exists EmptyString, s. reflexivity.
  - intros (pre & post & ->). apply H. exists (String c pre), post. reflexivity.
Qed.

Lemma no_slash_empty : ~ contains EmptyString "/".
Proof. intros (pre & post & E). destruct pre; discriminate. Qed.

(** No part of a split holds the separator. *)
Lemma split_parts_no_slash (s : string) :
  Forall (fun part => ~ contains part "/") (Js.split "/" s).
Proof.
  induction s as [|c s IH]; simpl.
  - constructor; [exact no_slash_empty|constructor].
  - destruct (Ascii.eqb_spec c "/") as [->|N].
    + constructor; [exact no_slash_empty|exact IH].
    + destruct (Js.split "/" s) as [|h t] eqn:E.
      * constructor; [|constructor].
        apply no_slash_cons; [exact N|exact no_slash_empty].
      * inversion IH; subst. constructor; [|assumption].
        apply no_slash_cons; assumption.
Qed.

(** Joining the parts with the separator gives the string back. *)
Lemma concat_split (s : string) : String.concat "/" (Js.split "/" s) = s.
Proof.
  induction s as [|c s IH]; [reflexivity|]. simpl.
  pose proof (split_nonempty "/" s) as NE.
  destruct (Ascii.eqb_spec c "/") as [->|N].
  - destruct (Js.split "/" s) as [|h t]; [congruence|].
    cbn [String.concat]. cbn [String.concat] in IH. simpl. f_equal. exact IH.
  - destruct (Js.split "/" s) as [|h t]; [congruence|].
    destruct t as [|h' t]; simpl in *; f_equal; exact IH.
Qed.

Lemma split_no_slash (s : string) : ~ contains s "/" -> Js.split "/" s = [s].
Proof.
  induction s as [|c s IH]; intros H; [reflexivity|].
  apply no_slash_tail in H. destruct H as [N H]. simpl.
  destruct (Ascii.eqb_spec c "/") as [E|_]; [contradiction|].
  rewrite (IH H). reflexivity.
Qed.

Lemma split_append_slash (a b : string) :
  Js.split "/" (a +++ String "/" b) = Js.split "/" a ++ Js.split "/" b.
Proof.
  induction a as [|c a IH]; [reflexivity|].
  cbn [String.append Js.split]. rewrite IH.
  pose proof (split_nonempty "/" a) as NE.
  destruct (Ascii.eqb c "/"); [reflexivity|].
  destruct (Js.split "/" a) as [|h t]; [congruence|reflexivity].
Qed.

Lemma last_app_nonempty {A : Type} (l1 l2 : list A) (d : A) :
  l2 <> [] -> last (l1 ++ l2) d = last l2 d.
Proof.
  intros NE. induction l1 as [|x l1 IH]; [reflexivity|].
  cbn [app]. destruct (l1 ++ l2) eqn:E.
  - destruct l1; [simpl in E; congruence|discriminate].
  - cbn [last]. exact IH.
Qed.

Lemma concat_snoc (init : list string) (f : string) :
  String.concat "/" (init ++ [f])
  = match init with
    | [] => f
    | _ :: _ => String.concat "/" init +++ "/" +++ f
    end.
Proof.
  induction init as [|x init IH]; [reflexivity|].
  cbn [app String.concat]. destruct (init ++ [f]) eqn:L.
  - destruct init; discriminate.
  - rewrite IH. destruct init as [|y init]; [reflexivity|].
    rewrite !append_assoc. reflexivity.
Qed.

(** X7: the file name under which an image is relocated is what follows
    the last slash of its src: it holds no slash, the src is a directory
    part (empty, or ending in a slash) followed by it, a src made of any
    directory part, a slash and a name without slash has that name, and
    joining the parts of the split with slashes gives the src again. *)
Theorem fileName_is_after_the_last_slash (imageSrc : string) :
  ~ contains (lastOf (Js.split "/" imageSrc)) "/"
  /\ (exists dir,
         imageSrc = dir +++ lastOf (Js.split "/" imageSrc)
         /\ (dir = EmptyString \/ exists d, dir = d +++ "/"))
  /\ (forall dir name,
         ~ contains name "/" ->
         lastOf (Js.split "/" (dir +++ "/" +++ name)) = name)
  /\ String.concat "/" (Js.split "/" imageSrc) = imageSrc.
Proof.
  pose proof (split_nonempty "/" imageSrc) as NE.
  pose proof (split_parts_no_slash imageSrc) as Parts.
  pose proof (concat_split imageSrc) as Join.
  assert (L : Js.split "/" imageSrc
              = removelast (Js.split "/" imageSrc)
                ++ [lastOf (Js.split "/" imageSrc)])
    by (apply app_removelast_last; exact NE).
  split; [|split; [|split]].
  - rewrite L in Parts. apply Forall_app in Parts. destruct Parts as [_ P].
    inversion P; subst. assumption.
  - rewrite L in Join at 1. rewrite concat_snoc in Join.
    destruct (removelast (Js.split "/" imageSrc)) as [|x init].
    + exists EmptyString. split; [symmetry; exact Join|left; reflexivity].
    + exists (String.concat "/" (x :: init) +++ "/"). split.
      * rewrite append_assoc. symmetry. exact Join.
      * right. eexists. reflexivity.
  - intros dir name N. unfold lastOf.
    change ("/" +++ name) with (String "/" name).
    rewrite split_append_slash, last_app_nonempty by apply split_nonempty.
    rewrite (split_no_slash name N). reflexivity.
  - exact Join.
Qed.

Example fileName_of_nested_src :
  lastOf (Js.split "/" "img/icons/photo.png") = "photo.png"
  /\ lastOf (Js.split "/" "photo.png") = "photo.png"
  /\ lastOf (Js.split "/" "img/") = EmptyString.
Proof. repeat split. Qed.

(** ** The default config after the first merge *)

Lemma overwrite_same (t : JsObj) (k : string) (v : JsValue) :
  get t k = Some v -> overwrite t k v = t.
Proof.
  induction t as [|[k0 v0] t IH]; simpl; [discriminate|].
  destruct (String.eqb_spec k0 k) as [->|N].
  - intros [= ->]. reflexivity.
  - intros H. f_equal. apply IH. exact H.
Qed.

Lemma set_same (t : JsObj) (k : string) (v : JsValue) :
  get t k = Some v -> set t k v = t.
Proof.
  intros H. unfold set.
  assert (I : In k (keys t)) by (apply get_In_keys; exists v; exact H).
  rewrite (proj2 (mem_keys t k) I). apply overwrite_same. exact H.
Qed.

(** Merging an override that the target already holds changes nothing. *)
Lemma Object_assign_held (o : JsObj) :
  forall t, (forall k v, In (k, v) o -> get t k = Some v) ->
            Object_assign t o = t.
Proof.
  induction o as [|[k v] o IH]; intros t H; [reflexivity|].
  cbn [Object_assign fold_left fst snd]. fold (Object_assign (set t k v) o).
  rewrite set_same by (apply H; left; reflexivity).
  apply IH. intros k' v' I. apply H. right. exact I.
Qed.

Lemma In_get (o : JsObj) (k : string) (v : JsValue) :
  NoDup (keys o) -> In (k, v) o -> get o k = Some v.
Proof.
  induction o as [|[k0 v0] o IH]; intros ND I; [destruct I|].
  inversion ND as [|? ? N ND']; subst. cbn [get].
  destruct I as [[= -> ->]|I].
  - rewrite String.eqb_refl. reflexivity.
  - destruct (String.eqb_spec k0 k) as [->|_]; [|apply IH; assumption].
    exfalso. apply N. apply (in_map fst) in I. exact I.
Qed.

Lemma Object_assign_idempotent (d o : JsObj) :
  NoDup (keys o) -> Object_assign (Object_assign d o) o = Object_assign d o.
Proof.
  intros ND. apply Object_assign_held. intros k v I.
  rewrite get_Object_assign by exact ND.
  rewrite (In_get o k v ND I). reflexivity.
Qed.

(** X8: merging is idempotent, so the first svg asset is the only one that
    changes the shared default config while the user config stays the same:
    after it, no transformation and no run over any document changes the
    default config again, and every later svg asset is optimised with the
    very plugin sequence of the first. *)
Theorem default_config_settles (w : World) (st : State) (buffer : string)
    (node : Node) :
  has (getImagesSrc node) ".svg" = true ->
  NoDup (keys (userConfig st)) ->
  let st' := fst (processOutputHtml w st buffer node) in
  Object_assign (svgoDefaultConfig st') (userConfig st) = svgoDefaultConfig st'
  /\ (forall buffer' node',
         svgoDefaultConfig (fst (processOutputHtml w st' buffer' node'))
         = svgoDefaultConfig st')
  /\ (forall buffer',
         svgoDefaultConfig (fst (processImages w st' buffer'))
         = svgoDefaultConfig st'
         /\ userConfig (fst (processImages w st' buffer')) = userConfig st)
  /\ lodash_map_entries
       (Object_assign (svgoDefaultConfig st') (userConfig st'))
     = lodash_map_entries
         (Object_assign (svgoDefaultConfig st) (userConfig st)).
Proof.
  intros SVG ND st'.
  assert (U : userConfig st' = userConfig st).
  { subst st'. apply processOutputHtml_frame. }
  assert (E : svgoDefaultConfig st'
              = Object_assign (svgoDefaultConfig st) (userConfig st))
    by (apply processOutputHtml_merges; exact SVG).
  assert (I : Object_assign (svgoDefaultConfig st') (userConfig st)
              = svgoDefaultConfig st').
  { rewrite E. apply Object_assign_idempotent. exact ND. }
  assert (Step : forall s b n,
             svgoDefaultConfig s = svgoDefaultConfig st'
             /\ userConfig s = userConfig st ->
             svgoDefaultConfig (fst (processOutputHtml w s b n))
             = svgoDefaultConfig st'
             /\ userConfig (fst (processOutputHtml w s b n)) = userConfig st).
  { intros s b n [Hd Hu].
    destruct (processOutputHtml_frame w s b n) as (Hu' & _ & _ & _ & _ & [Hd'|Hd'] & _).
    - split; congruence.
    - split; [|congruence]. rewrite Hd', Hd, Hu. exact I. }
  split; [exact I|]. split; [|split].
  - intros b n. apply Step. split; [reflexivity|exact U].
  - intros b.
    apply (processImages_preserves w
             (fun s => svgoDefaultConfig s = svgoDefaultConfig st'
                       /\ userConfig s = userConfig st)).
    + intros s h n H. apply Step. exact H.
    + intros s line H. exact H.
    + split; [reflexivity|exact U].
  - rewrite U, I, E. reflexivity.
Qed.

Lemma default_config_settles_witness :
  (has (getImagesSrc (Demo.img "logo.svg" 5 25)) ".svg" = true
   /\ NoDup (keys Demo.override))
  /\ svgoDefaultConfig
       (fst (processImages Demo.w
               (fst (processOutputHtml Demo.w
                       (set_userConfig (Demo.plugin Demo.defaults) Demo.override)
                       Demo.logo_page (Demo.img "logo.svg" 5 25)))
               Demo.three_page))
     = [("removeTitle", JsBool false); ("cleanupIDs", JsBool true);
        ("removeDimensions", JsBool true)].
Proof.
  assert (S : has (getImagesSrc (Demo.img "logo.svg" 5 25)) ".svg" = true)
    by reflexivity.
  assert (D : NoDup (keys Demo.override)).
  { repeat constructor; simpl; intuition discriminate. }
  split; [split; assumption|].
  destruct (default_config_settles Demo.w
              (set_userConfig (Demo.plugin Demo.defaults) Demo.override)
              Demo.logo_page (Demo.img "logo.svg" 5 25) S D)
    as (_ & _ & Run & _).
  rewrite (proj1 (Run Demo.three_page)). reflexivity.
Defined.

(** ** The write phase *)

Lemma updateOutputFile_writes (w : World) (st : State) (processed : option string)
    (name : string) :
  outputPath st <> EmptyString -> name <> EmptyString ->
  fst (updateOutputFile w st processed name)
  = fold_left fs_call
      (expected_writes w (outputPath st) [processed] [mkFile name EmptyString]) st.
Proof.
  intros P N. unfold updateOutputFile.
  destruct (outputPath st) as [|c p] eqn:E; [congruence|].
  destruct name as [|d n]; [congruence|]. cbn [Js.nonEmpty negb orb].
  destruct processed as [[|x h]|]; reflexivity.
Qed.

Lemma updateOutputFiles_writes (w : World) (fs : list File) :
  forall st htmlArray,
    outputPath st <> EmptyString ->
    Forall (fun f => filename f <> EmptyString) fs ->
    fst (updateOutputFiles w st htmlArray fs)
    = fold_left fs_call (expected_writes w (outputPath st) htmlArray fs) st.
Proof.
  induction fs as [|f fs IH]; intros st htmlArray P F.
  - destruct htmlArray as [|[[|c h]|] htmlArray]; reflexivity.
  - inversion F as [|? ? Nf F']; subst.
    destruct htmlArray as [|processed htmlArray]; [reflexivity|].
    cbn [updateOutputFiles].
    pose proof (updateOutputFile_writes w st processed (filename f) P Nf) as U.
    pose proof (updateOutputFile_outputPath w st processed (filename f)) as O.
    destruct (updateOutputFile w st processed (filename f)) as [st1 p].
    cbn [fst] in U, O.
    assert (P1 : outputPath st1 <> EmptyString) by (rewrite O; exact P).
    pose proof (IH st1 htmlArray P1 F') as R.
    destruct (updateOutputFiles w st1 htmlArray fs) as [st2 ps].
    cbn [fst] in *. rewrite R, O, U.
    destruct processed as [[|c h]|]; reflexivity.
Qed.

Lemma updateOutputFiles_unset (w : World) (fs : list File) :
  forall st htmlArray,
    outputPath st = EmptyString ->
    fst (updateOutputFiles w st htmlArray fs) = st
    /\ Forall (fun p => exists e, p = Rejected e)
              (snd (updateOutputFiles w st htmlArray fs)).
Proof.
  induction fs as [|f fs IH]; intros st htmlArray P.
  - destruct htmlArray; split; try reflexivity; constructor.
  - destruct htmlArray as [|processed htmlArray]; [split; [reflexivity|constructor]|].
    cbn [updateOutputFiles]. unfold updateOutputFile. rewrite P.
    cbn [Js.nonEmpty negb orb].
    destruct (IH st htmlArray P) as (S & R).
    destruct (updateOutputFiles w st htmlArray fs) as [st2 ps].
    cbn [fst snd] in *. split; [exact S|].
    constructor; [eexists; reflexivity|exact R].
Qed.

(** X10: with an output path set and file names that are not empty, the
    write phase changes the state by exactly one [fs.writeFile] call for
    each registered file whose processed html is a non-empty string, in
    the order of registration, each to the file's path under the output
    path and with that html; files whose html is undefined or empty are
    passed over.  With no output path it writes nothing and every promise
    is rejected. *)
Theorem write_phase_writes_processed_files (w : World) (st : State)
    (htmlArray : list (option string)) (registered : list File) :
  (outputPath st <> EmptyString ->
   Forall (fun f => filename f <> EmptyString) registered ->
   fst (updateOutputFiles w st htmlArray registered)
   = fold_left fs_call
       (expected_writes w (outputPath st) htmlArray registered) st)
  /\ (outputPath st = EmptyString ->
      fst (updateOutputFiles w st htmlArray registered) = st
      /\ Forall (fun p => exists e, p = Rejected e)
                (snd (updateOutputFiles w st htmlArray registered))).
Proof.
  split.
  - apply updateOutputFiles_writes.
  - apply updateOutputFiles_unset.
Qed.

Lemma write_phase_writes_processed_files_witness :
  (outputPath (set_outputPath (Demo.late_plugin []) "/dist") <> EmptyString
   /\ Forall (fun f => filename f <> EmptyString)
             [mkFile "index.html" Demo.logo_page;
              mkFile "about.html" Demo.missing_page])
  /\ disk (fst (updateOutputFiles Demo.w
                  (set_outputPath (Demo.late_plugin []) "/dist")
                  [Some "<div><svg>OK</svg></div>"; None]
                  [mkFile "index.html" Demo.logo_page;
                   mkFile "about.html" Demo.missing_page]))
     = [WriteFile "/dist/index.html" "<div><svg>OK</svg></div>"].
Proof.
  assert (P : outputPath (set_outputPath (Demo.late_plugin []) "/dist")
              <> EmptyString) by discriminate.
  assert (F : Forall (fun f => filename f <> EmptyString)
                [mkFile "index.html" Demo.logo_page;
                 mkFile "about.html" Demo.missing_page])
    by (repeat constructor; discriminate).
  split; [split; assumption|].
  rewrite (proj1 (write_phase_writes_processed_files Demo.w _ _ _) P F).
  reflexivity.
Defined.

(** ** The loop of [mkdirsSync] *)

Lemma split_concat (parts : list string) :
  parts <> [] ->
  Forall (fun part => ~ contains part "/") parts ->
  Js.split "/" (String.concat "/" parts) = parts.
Proof.
  induction parts as [|s parts IH]; intros NE F; [congruence|].
  inversion F as [|? ? Hs F']; subst.
  destruct parts as [|s' parts].
  - cbn [String.concat]. apply split_no_slash. exact Hs.
  - cbn [String.concat]. cbn [String.concat] in IH.
    change ("/" +++ (match parts with
                     | [] => s'
                     | _ :: _ => s' +++ "/" +++ String.concat "/" parts
                     end))
      with (String "/" (String.concat "/" (s' :: parts))).
    rewrite split_append_slash, (split_no_slash s Hs).
    cbn [String.concat]. rewrite IH; [reflexivity|discriminate|exact F'].
Qed.

Lemma plain_no_slash (parts : list string) :
  Forall Mkdirs.plain parts -> Forall (fun part => ~ contains part "/") parts.
Proof. apply Forall_impl. intros part P. apply P. Qed.

Lemma split_absolute (parts : list string) :
  parts <> [] -> Forall Mkdirs.plain parts ->
  Js.split "/" (Mkdirs.absolute parts) = EmptyString :: parts.
Proof.
  intros NE F. unfold Mkdirs.absolute.
  change ("/" +++ String.concat "/" parts)
    with (String "/" (String.concat "/" parts)).
  cbn [Js.split]. change (Ascii.eqb "/" "/") with true. cbv iota.
  rewrite split_concat; [reflexivity|exact NE|apply plain_no_slash, F].
Qed.

Lemma path_join_absolute (done : list string) (s : string) :
  Forall Mkdirs.plain done -> Mkdirs.plain s ->
  Mkdirs.path_join (Mkdirs.absolute done) s = Mkdirs.absolute (done ++ [s]).
Proof.
  intros F (NE & _). unfold Mkdirs.path_join, Mkdirs.absolute.
  destruct (String.eqb_spec s EmptyString) as [E|_]; [contradiction|].
  rewrite concat_snoc. destruct done as [|d done].
  - reflexivity.
  - inversion F as [|? ? (Nd & _) _]; subst.
    assert (N : String.eqb ("/" +++ String.concat "/" (d :: done)) "/" = false).
    { apply String.eqb_neq. intros E.
      assert (L : String.length ("/" +++ String.concat "/" (d :: done)) = 1)
        by (rewrite E; reflexivity).
      cbn [String.concat] in L.
      destruct d as [|c d]; [congruence|].
      destruct done; simpl in L; lia. }
    rewrite N, append_assoc. reflexivity.
Qed.

Lemma length_absolute_snoc (done : list string) (s : string) :
  s <> EmptyString ->
  String.length (Mkdirs.absolute done) < String.length (Mkdirs.absolute (done ++ [s])).
Proof.
  intros NE. unfold Mkdirs.absolute. rewrite concat_snoc.
  destruct s as [|c s]; [congruence|].
  destruct done as [|d done].
  - simpl. lia.
  - rewrite !length_append. simpl. lia.
Qed.

Lemma not_made_yet (made : list string) (p : string) :
  (forall m, In m made -> String.length m < String.length p) ->
  existsb (String.eqb p) made = false.
Proof.
  intros H. destruct (existsb (String.eqb p) made) eqn:E; [|reflexivity].
  apply existsb_exists in E. destruct E as (m & I & E).
  apply String.eqb_eq in E. subst m. specialize (H p I). lia.
Qed.

Lemma visit_parts (exists0 : string -> bool) (rest : list string) :
  forall done made,
    Forall Mkdirs.plain done -> Forall Mkdirs.plain rest ->
    (forall m, In m made ->
               String.length m <= String.length (Mkdirs.absolute done)) ->
    fold_left (Mkdirs.visit exists0) rest (Some (Mkdirs.absolute done), made)
    = (Some (Mkdirs.absolute (done ++ rest)),
       made ++ filter (fun p => negb (exists0 p))
                 (map (fun k => Mkdirs.absolute (done ++ firstn k rest))
                      (seq 1 (length rest)))).
Proof.
  induction rest as [|s rest IH]; intros done made Fd Fr Short.
  - cbn [fold_left length seq map filter]. rewrite !app_nil_r. reflexivity.
  - inversion Fr as [|? ? Ps Fr']; subst.
    cbn [fold_left]. unfold Mkdirs.visit at 2.
    destruct (String.eqb_spec s EmptyString) as [E|_];
      [destruct Ps as (N & _); contradiction|].
    replace (Js.nonEmpty (Mkdirs.absolute done)) with true by reflexivity.
    rewrite (path_join_absolute done s Fd Ps).
    unfold Mkdirs.present.
    rewrite (not_made_yet made (Mkdirs.absolute (done ++ [s]))).
    2:{ intros m I. specialize (Short m I).
        pose proof (length_absolute_snoc done s (proj1 Ps)). lia. }
    rewrite orb_false_r.
    rewrite IH; [|apply Forall_app; split; [exact Fd|constructor; [exact Ps|constructor]]
                 |exact Fr'|].
    + rewrite <- (app_assoc done [s] rest). cbn [app]. f_equal.
      cbn [length seq map firstn filter].
      rewrite <- (seq_shift (length rest) 1), map_map.
      assert (M : map (fun k => Mkdirs.absolute ((done ++ [s]) ++ firstn k rest))
                    (seq 1 (length rest))
                  = map (fun k => Mkdirs.absolute (done ++ firstn (S k) (s :: rest)))
                      (seq 1 (length rest))).
      { apply map_ext. intros k. rewrite <- app_assoc. reflexivity. }
      rewrite M.
      destruct (exists0 (Mkdirs.absolute (done ++ [s]))); cbn [negb];
        [reflexivity|].
      rewrite <- app_assoc. reflexivity.
    + intros m I.
      pose proof (length_absolute_snoc done s (proj1 Ps)) as Lt.
      destruct (exists0 (Mkdirs.absolute (done ++ [s]))).
      * specialize (Short m I). lia.
      * apply in_app_or in I. destruct I as [I|[<-|[]]]; [|lia].
        specialize (Short m I). lia.
Qed.

Lemma not_has (s sub : string) :
  sub <> EmptyString -> has s sub = false -> ~ contains s sub.
Proof.
  intros NE H C. apply has_contains in C; [congruence|exact NE].
Qed.

Lemma absolute_in_ancestors (parts : list string) :
  parts <> [] -> In (Mkdirs.absolute parts) (Mkdirs.ancestors parts).
Proof.
  intros NE. unfold Mkdirs.ancestors. apply in_map_iff.
  exists (length parts). split; [rewrite firstn_all; reflexivity|].
  apply in_seq. destruct parts; [congruence|simpl; lia].
Qed.

(** X9: for a normalised absolute path, on a disk that has the root,
    [mkdirsSync] returns undefined and makes nothing when the directory is
    there; otherwise it returns true and calls [fs.mkdirSync] on exactly the
    directories on the way that are missing, from the root downwards and
    each once, so the directory itself is made, every directory on the way
    is present afterwards, and none that was there is made again. *)
Theorem mkdirsSync_makes_the_missing_ancestors (exists0 : string -> bool)
    (parts : list string) :
  Forall Mkdirs.plain parts -> parts <> [] -> exists0 "/" = true ->
  Mkdirs.mkdirsSync_loop exists0 (Mkdirs.absolute parts)
  = (if exists0 (Mkdirs.absolute parts) then (false, [])
     else (true, filter (fun p => negb (exists0 p)) (Mkdirs.ancestors parts)))
  /\ (exists0 (Mkdirs.absolute parts) = false ->
      In (Mkdirs.absolute parts)
         (snd (Mkdirs.mkdirsSync_loop exists0 (Mkdirs.absolute parts)))
      /\ forall p,
           In p (Mkdirs.ancestors parts) ->
           Mkdirs.present exists0
             (snd (Mkdirs.mkdirsSync_loop exists0 (Mkdirs.absolute parts))) p
           = true)
  /\ (forall p,
         In p (snd (Mkdirs.mkdirsSync_loop exists0 (Mkdirs.absolute parts))) ->
         exists0 p = false /\ In p (Mkdirs.ancestors parts)).
Proof.
  intros Plain NE Root.
  assert (E : Mkdirs.mkdirsSync_loop exists0 (Mkdirs.absolute parts)
              = (if exists0 (Mkdirs.absolute parts) then (false, [])
                 else (true, filter (fun p => negb (exists0 p))
                               (Mkdirs.ancestors parts)))).
  { unfold Mkdirs.mkdirsSync_loop.
    destruct (exists0 (Mkdirs.absolute parts)); [reflexivity|].
    rewrite (split_absolute parts NE Plain). cbn [fold_left].
    assert (First : Mkdirs.visit exists0 (None, []) EmptyString
                    = (Some (Mkdirs.absolute []), [])).
    { unfold Mkdirs.visit, Mkdirs.present. cbn. rewrite Root. reflexivity. }
    rewrite First.
    rewrite (visit_parts exists0 parts [] []);
      [reflexivity|constructor|exact Plain|intros m []]. }
  split; [exact E|]. rewrite E.
  destruct (exists0 (Mkdirs.absolute parts)) eqn:There; cbn [snd]; split.
  - discriminate.
  - intros p [].
  - intros _. split.
    + apply filter_In. split; [apply absolute_in_ancestors, NE|].
      rewrite There. reflexivity.
    + intros p I. unfold Mkdirs.present.
      destruct (exists0 p) eqn:P; [reflexivity|]. cbn [orb].
      apply existsb_exists. exists p. split; [|apply String.eqb_refl].
      apply filter_In. split; [exact I|]. rewrite P. reflexivity.
  - intros p I. apply filter_In in I. destruct I as [I N].
    split; [|exact I]. destruct (exists0 p); [discriminate|reflexivity].
Qed.

Lemma mkdirsSync_makes_the_missing_ancestors_witness :
  (Forall Mkdirs.plain ["dist"; "static"; "img"]
   /\ ["dist"; "static"; "img"] <> []
   /\ (fun p => String.eqb p "/" || String.eqb p "/dist") "/" = true)
  /\ Mkdirs.mkdirsSync_loop (fun p => String.eqb p "/" || String.eqb p "/dist")
       "/dist/static/img"
     = (true, ["/dist/static"; "/dist/static/img"]).
Proof.
  assert (P : Forall Mkdirs.plain ["dist"; "static"; "img"]).
  { repeat constructor; try discriminate;
      (apply not_has; [discriminate|reflexivity]). }
  assert (N : ["dist"; "static"; "img"] <> []) by discriminate.
  assert (R : (fun p => String.eqb p "/" || String.eqb p "/dist") "/" = true)
    by reflexivity.
  split; [repeat split; assumption|].
  exact (proj1 (mkdirsSync_makes_the_missing_ancestors
                  (fun p => String.eqb p "/" || String.eqb p "/dist")
                  ["dist"; "static"; "img"] P N R)).
Defined.

(** Where the loop leaves the normalised paths: an empty part in the
    middle of the path sends what follows to the root, and a relative path
    is made part by part below the current directory. *)
Example mkdirsSync_on_other_paths :
  Mkdirs.mkdirsSync_loop (fun p => String.eqb p "/") "/dist//static"
  = (true, ["/dist"; "/static"])
  /\ Mkdirs.mkdirsSync_loop (fun p => String.eqb p "/") "dist/static"
     = (true, ["dist"; "dist/static"])
  /\ Mkdirs.mkdirsSync_loop (fun p => String.eqb p "/") "/"
     = (false, []).
Proof. repeat split. Qed.


(** ** Offsets recorded for one document and the documents after it *)

Lemma processImages_keeps_offsets (w : World) (offset : nat) (st : State)
    (buffer : string) :
  In offset (processedImages st) ->
  In offset (processedImages (fst (processImages w st buffer))).
Proof.
  apply (processImages_preserves w (fun s => In offset (processedImages s))).
  - intros s h n H.
    destruct (processOutputHtml_frame w s h n)
      as (_ & _ & _ & _ & _ & _ & [E|(loc & _ & E)]);
      rewrite E; [exact H|apply in_or_app; left; exact H].
  - intros s line H. exact H.
Qed.

(** When the walk completes, the first candidate heads the list. *)
Lemma getInlineImages_first (w : World) (st : State) (buffer : string)
    (candidate : Node) (found : list Node) :
  first_candidate w st buffer = Some candidate ->
  getInlineImages w st (parseFragment w buffer) [] = Ok found ->
  exists others, found = candidate :: others.
Proof.
  unfold first_candidate. intros F E.
  rewrite <- (getInlineImages_head w st _ found E) in F.
  destruct found as [|n l]; [discriminate|].
  injection F as ->. exists l. reflexivity.
Qed.

(** X11: the set of processed offsets belongs to the plugin, not to the
    document, and is never emptied.  A hook invocation keeps every offset
    that was recorded before it; when the walk over a document completes,
    the offset of the document's first candidate is in the set after the
    run whenever its transformation recorded it (any svg, any raster that
    did not throw); and from then on, in any state that still holds the
    recorded offsets, that node is not eligible and is not the first
    candidate of the same text again. *)
Theorem recorded_offsets_outlive_the_document (w : World) (st : State)
    (buffer : string) (candidate : Node) :
  first_candidate w st buffer = Some candidate ->
  (exists found, getInlineImages w st (parseFragment w buffer) [] = Ok found) ->
  (has (getImagesSrc candidate) ".svg" = true
   \/ exists buffer', snd (processOutputHtml w st buffer candidate) = Fulfilled buffer') ->
  (exists loc,
      location candidate = Some loc
      /\ In (startOffset loc) (processedImages (fst (processImages w st buffer))))
  /\ (forall later,
         incl (processedImages (fst (processImages w st buffer)))
              (processedImages later) ->
         isNodeValidInlineImage w later candidate = Ok false
         /\ first_candidate w later buffer <> Some candidate)
  /\ (forall s htmlPluginData,
         incl (processedImages s)
              (processedImages (fst (afterHtmlProcessing w s htmlPluginData))))
  /\ (forall s compilation htmlPluginData,
         processedImages (fst (afterEmitHtml s compilation htmlPluginData))
         = processedImages s).
Proof.
  intros First (found & Walk) Recorded.
  pose proof (first_candidate_eligible w st buffer candidate First) as [V _].
  destruct (eligible_fresh w st candidate V) as (loc & Loc & _).
  assert (In_set : In (startOffset loc)
                      (processedImages (fst (processImages w st buffer)))).
  { destruct (getInlineImages_first w st buffer candidate found First Walk)
      as (others & ->).
    pose proof (processOutputHtml_pushes w st buffer candidate loc Loc
                  (eligible_src_nonEmpty w st candidate V)) as P.
    cbv zeta in P.
    assert (Sel : getFirstInlineImage w st (parseFragment w buffer)
                  = Ok (Some candidate)).
    { unfold getFirstInlineImage. rewrite Walk. reflexivity. }
    rewrite processImages_is_updateHTML, Walk. unfold updateHTML.
    cbn [fold_left].
    apply (updateHTML_fold_preserves w
             (fun s => In (startOffset loc) (processedImages s))).
    - intros s h n H.
      destruct (processOutputHtml_frame w s h n)
        as (_ & _ & _ & _ & _ & _ & [E|(loc' & _ & E)]);
        rewrite E; [exact H|apply in_or_app; left; exact H].
    - intros s line H. exact H.
    - cbn [updateHTML_turn processImage]. rewrite Sel.
      assert (Pushed : In (startOffset loc)
                          (processedImages
                             (fst (processOutputHtml w st buffer candidate)))).
      { destruct Recorded as [SVG|(b' & F)].
        - rewrite SVG in P. rewrite P. apply in_or_app. right. left. reflexivity.
        - destruct (has (getImagesSrc candidate) ".svg");
            [|rewrite F in P]; rewrite P; apply in_or_app; right; left;
            reflexivity. }
      destruct (processOutputHtml w st buffer candidate) as [s' [h'|e|]];
        exact Pushed. }
  split; [exists loc; split; [exact Loc|exact In_set]|]. split; [|split].
  - intros later Incl.
    assert (V' : isNodeValidInlineImage w later candidate = Ok false).
    { unfold isNodeValidInlineImage. rewrite Loc.
      replace (includes (processedImages later) (startOffset loc))
        with true; [reflexivity|].
      symmetry. apply includes_In. apply Incl. exact In_set. }
    split; [exact V'|].
    intros F. apply first_candidate_eligible in F. destruct F as [V'' _].
    congruence.
  - intros s d o H. unfold afterHtmlProcessing.
    pose proof (processImages_keeps_offsets w o (getUserConfig s d) (html d) H) as K.
    destruct (processImages w (getUserConfig s d) (html d)) as [s' [p|e|]];
      exact K.
  - intros s c d. pose proof (afterEmitHtml_cases s c d) as C.
    destruct (outputOptions_path c) as [[|x p]|];
      destruct (outputName d) as [[|y n]|]; rewrite C; reflexivity.
Qed.

Lemma recorded_offsets_outlive_the_document_witness :
  (first_candidate Demo.w (Demo.plugin []) Demo.logo_page
   = Some (Demo.img "logo.svg" 5 25)
   /\ (exists found,
          getInlineImages Demo.w (Demo.plugin [])
            (parseFragment Demo.w Demo.logo_page) [] = Ok found)
   /\ (has (getImagesSrc (Demo.img "logo.svg" 5 25)) ".svg" = true
       \/ exists buffer',
            snd (processOutputHtml Demo.w (Demo.plugin []) Demo.logo_page
                   (Demo.img "logo.svg" 5 25)) = Fulfilled buffer'))
  /\ snd (processImages Demo.w (Demo.plugin []) Demo.logo_page)
     = Fulfilled (Some "<div><svg>OK</svg></div>")
  /\ isNodeValidInlineImage Demo.w
       (fst (processImages Demo.w (Demo.plugin []) Demo.logo_page))
       (Demo.img "logo.svg" 5 25)
     = Ok false
  /\ processImages Demo.w
       (fst (processImages Demo.w (Demo.plugin []) Demo.logo_page))
       Demo.logo_page
     = (fst (processImages Demo.w (Demo.plugin []) Demo.logo_page),
        Fulfilled None).
Proof.
  assert (F : first_candidate Demo.w (Demo.plugin []) Demo.logo_page
              = Some (Demo.img "logo.svg" 5 25)) by reflexivity.
  assert (W : exists found,
             getInlineImages Demo.w (Demo.plugin [])
               (parseFragment Demo.w Demo.logo_page) [] = Ok found)
    by (eexists; reflexivity).
  assert (R : has (getImagesSrc (Demo.img "logo.svg" 5 25)) ".svg" = true
              \/ exists buffer',
                   snd (processOutputHtml Demo.w (Demo.plugin []) Demo.logo_page
                          (Demo.img "logo.svg" 5 25)) = Fulfilled buffer')
    by (left; reflexivity).
  destruct (recorded_offsets_outlive_the_document Demo.w (Demo.plugin [])
              Demo.logo_page (Demo.img "logo.svg" 5 25) F W R)
    as (_ & Later & _ & _).
  split; [repeat split; assumption|]. split; [vm_compute; reflexivity|].
  split; [|vm_compute; reflexivity].
  apply (Later (fst (processImages Demo.w (Demo.plugin []) Demo.logo_page))).
  apply incl_refl.
Defined.

(** ** A document with one candidate *)

(** X12: a document over which the walk completes with exactly one
    eligible node, whose transformation succeeds, is rewritten in one turn:
    [processImages] is fulfilled with the buffer spliced around the
    fragment at the span of the node, the offset is recorded, and the
    pre-emit hook hands that html to the host (unless it is empty, in which
    case the host keeps the original). *)
Theorem single_candidate_document (w : World) (st : State)
    (htmlPluginData : HtmlPluginData) (candidate : Node) (fragment : string) :
  getInlineImages w st (parseFragment w (html htmlPluginData)) [] = Ok [candidate] ->
  replacement w st candidate fragment ->
  exists loc,
    location candidate = Some loc
    /\ snd (processImages w st (html htmlPluginData))
       = Fulfilled (Some (splice (html htmlPluginData) loc fragment))
    /\ In (startOffset loc)
          (processedImages (fst (processImages w st (html htmlPluginData))))
    /\ (forall st0,
           st = getUserConfig st0 htmlPluginData ->
           splice (html htmlPluginData) loc fragment <> EmptyString ->
           snd (afterHtmlProcessing w st0 htmlPluginData)
           = Fulfilled
               {| html := splice (html htmlPluginData) loc fragment;
                  outputName := outputName htmlPluginData;
                  svgoConfig := svgoConfig htmlPluginData |}).
Proof.
  intros Scan R.
  assert (First : getFirstInlineImage w st (parseFragment w (html htmlPluginData))
                  = Ok (Some candidate)).
  { unfold getFirstInlineImage. rewrite Scan. reflexivity. }
  pose proof (getFirstInlineImage_eligible w st _ _ First) as V.
  pose proof (eligible_src_nonEmpty w st candidate V) as NE.
  destruct (eligible_fresh w st candidate V) as (loc & Loc & _).
  exists loc. split; [exact Loc|].
  assert (Done : snd (processOutputHtml w st (html htmlPluginData) candidate)
                 = Fulfilled (splice (html htmlPluginData) loc fragment)).
  { apply (processOutputHtml_fulfilled w st _ candidate loc _ Loc NE).
    exists fragment. split; [exact R|reflexivity]. }
  pose proof (processOutputHtml_pushes w st (html htmlPluginData) candidate
                loc Loc NE) as P.
  cbv zeta in P. rewrite Done in P.
  assert (Run : processImages w st (html htmlPluginData)
                = (fst (processOutputHtml w st (html htmlPluginData) candidate),
                   Fulfilled (Some (splice (html htmlPluginData) loc fragment)))).
  { rewrite processImages_is_updateHTML, Scan. unfold updateHTML.
    cbn [fold_left updateHTML_turn processImage]. rewrite First.
    destruct (processOutputHtml w st (html htmlPluginData) candidate)
      as [s [h|e|]]; cbn [snd] in Done; try discriminate.
    injection Done as ->. reflexivity. }
  split; [rewrite Run; reflexivity|]. split.
  - rewrite Run. cbn [fst].
    destruct (has (getImagesSrc candidate) ".svg"); rewrite P;
      apply in_or_app; right; left; reflexivity.
  - intros st0 -> N. unfold afterHtmlProcessing. rewrite Run.
    destruct (splice (html htmlPluginData) loc fragment);
      [congruence|reflexivity].
Qed.

Lemma single_candidate_document_witness :
  (getInlineImages Demo.w (Demo.plugin [])
     (parseFragment Demo.w (html (Demo.page Demo.logo_page))) []
   = Ok [Demo.img "logo.svg" 5 25]
   /\ replacement Demo.w (Demo.plugin []) (Demo.img "logo.svg" 5 25) "<svg>OK</svg>")
  /\ snd (processImages Demo.w (Demo.plugin []) (html (Demo.page Demo.logo_page)))
     = Fulfilled (Some "<div><svg>OK</svg></div>").
Proof.
  assert (S : getInlineImages Demo.w (Demo.plugin [])
                (parseFragment Demo.w (html (Demo.page Demo.logo_page))) []
              = Ok [Demo.img "logo.svg" 5 25]) by reflexivity.
  assert (R : replacement Demo.w (Demo.plugin []) (Demo.img "logo.svg" 5 25)
                "<svg>OK</svg>").
  { exists "<svg>OK</svg>". split; reflexivity. }
  split; [split; assumption|].
  destruct (single_candidate_document Demo.w (Demo.plugin [])
              (Demo.page Demo.logo_page) (Demo.img "logo.svg" 5 25)
              "<svg>OK</svg>" S R) as (loc & Loc & Run & _).
  injection Loc as <-. exact Run.
Defined.

(** ** [mkdirsSync] in the state and the loop on its own *)

Lemma fs_existsSync_made (w : World) (st : State) (made : list string)
    (p : string) :
  fs_existsSync w (fold_left fs_call (map MkdirSync made) st) p
  = Mkdirs.present (fs_existsSync w st) made p.
Proof.
  destruct (fs_calls_fields (map MkdirSync made) st)
    as (_ & _ & _ & _ & _ & _ & _ & _ & D).
  unfold fs_existsSync, Mkdirs.present. rewrite D, existsb_app, orb_assoc.
  apply f_equal. clear D. induction made as [|m made IH]; [reflexivity|].
  cbn [map existsb]. rewrite IH, (String.eqb_sym m p). reflexivity.
Qed.

Lemma mkdirs_fold_loop (w : World) (st : State) (parts : list string) :
  (forall path, mkdirSync w path = None) ->
  (forall pathtmp dirname,
      path_join w pathtmp dirname = Mkdirs.path_join pathtmp dirname) ->
  forall pathtmp made,
    fold_left (mkdirs_visit w) parts
      (fold_left fs_call (map MkdirSync made) st, Ok pathtmp)
    = (fold_left fs_call
         (map MkdirSync
            (snd (fold_left (Mkdirs.visit (fs_existsSync w st)) parts
                    (pathtmp, made)))) st,
       Ok (fst (fold_left (Mkdirs.visit (fs_existsSync w st)) parts
                  (pathtmp, made)))).
Proof.
  intros Can Join. induction parts as [|s parts IH]; intros pathtmp made;
    [reflexivity|].
  cbn [fold_left]. unfold mkdirs_visit at 2, Mkdirs.visit at 2 4.
  match goal with |- context [Mkdirs.present _ made ?q] => set (pathtmp2 := q) end.
  assert (P : match (if String.eqb s EmptyString then Some "/" else pathtmp) with
              | Some p => if Js.nonEmpty p then path_join w p s else s
              | None => s
              end = pathtmp2).
  { subst pathtmp2.
    destruct (if String.eqb s EmptyString then Some "/" else pathtmp) as [p|];
      [|reflexivity].
    destruct (Js.nonEmpty p); [apply Join|reflexivity]. }
  rewrite P, fs_existsSync_made.
  destruct (Mkdirs.present (fs_existsSync w st) made pathtmp2).
  - apply IH.
  - rewrite (Can pathtmp2).
    replace (fs_call (fold_left fs_call (map MkdirSync made) st)
               (MkdirSync pathtmp2))
      with (fold_left fs_call (map MkdirSync (made ++ [pathtmp2])) st)
      by (rewrite map_app, fold_left_app; reflexivity).
    apply IH.
Qed.

(** With the [path.join] of the loop and an [fs.mkdirSync] that cannot
    fail, [mkdirsSync] in the state is the loop on its own, run on the disk
    of the state: it makes the same directories, in the same order. *)
Lemma mkdirsSync_is_the_loop (w : World) (st : State) (dirpath : string) :
  (forall path, mkdirSync w path = None) ->
  (forall pathtmp dirname,
      path_join w pathtmp dirname = Mkdirs.path_join pathtmp dirname) ->
  mkdirsSync w st dirpath
  = (fold_left fs_call
       (map MkdirSync
          (snd (Mkdirs.mkdirsSync_loop (fs_existsSync w st) dirpath))) st,
     Ok (fst (Mkdirs.mkdirsSync_loop (fs_existsSync w st) dirpath))).
Proof.
  intros Can Join. unfold mkdirsSync, Mkdirs.mkdirsSync_loop.
  destruct (fs_existsSync w st dirpath); [reflexivity|].
  pose proof (mkdirs_fold_loop w st (Js.split "/" dirpath) Can Join None []) as L.
  cbn [map fold_left] in L. rewrite L. reflexivity.
Qed.

Example mkdirsSync_in_the_state :
  mkdirsSync Demo.w (Demo.plugin []) "/dist/static/img"
  = (fold_left fs_call
       [MkdirSync "/dist"; MkdirSync "/dist/static"; MkdirSync "/dist/static/img"]
       (Demo.plugin []),
     Ok true)
  /\ mkdirsSync Demo.w_readonly (Demo.plugin []) "/dist/static/img"
     = (fs_call (Demo.plugin []) (MkdirSync "/dist"),
        Throw "EACCES: permission denied, mkdir").
Proof. split; vm_compute; reflexivity. Qed.
